(** * The Python scripts of bloaty: models and verified properties

    ** The test harness (tests/tester.py)


    The harness reads a test file, asks the fixture compiler (yaml2obj) for one
    artifact per YAML document, runs the command written on the line that
    starts with the dollar sign inside a fresh temporary directory, and diffs
    its output against the rest of the file.

    The model is a shallow embedding: Python strings are lists of code points,
    the module globals, the temporary directories and the sequence of
    observable actions form an explicit world that is threaded through a
    state-and-exception monad, and everything outside the script (the
    filesystem that holds the test files, the fixture compiler, the program
    under test) is an environment record.

    What the model takes for granted about the outside:
    - the fixture compiler is called as [yaml2obj PATH --docnum=i > i], PATH
      being the absolute path of the test file; the path is taken to have no
      character that is special to the shell, so that the shell creates the
      file [i] in the working directory with the standard output of the
      compiler and touches nothing else that the harness looks at, and its
      exit status is that of the compiler;
    - the command of a test is text of the test file, and the shell gets it
      whole, with [ > actual] put after it: its exit status and the files it
      leaves in the working directory are those the environment gives,
      whatever the command line says (the file [actual] need not be among
      them); it is taken to leave the working directory in place and the
      other working directories alone;
    - [diff -u expected actual] exits with 0 when the two files are the
      same, with 1 when they differ and with 2 when one is missing;
    - once [open] has succeeded, [read] returns the text of the file;
    - the test files and the directories given as arguments do not change
      during the run;
    - an uncaught exception ends the Python process with status 1.

    ** The header scripts (third_party/darwin_xnu_macho)

    [update_headers.py] reads the repositories and their versions from the
    METADATA file with a parser that goes through the text line by line, and
    downloads each header from raw.githubusercontent.com.
    [generate_patches.py] downloads the upstream text of each header, runs
    [diff] between it and the header as it is here, and keeps the result as
    a patch.  The parser, the download and the making of a patch are
    functions here; what lies outside is given:
    - the Unicode tables behind [str.strip], [\s] and [\w] are a parameter
      (below 128 the classes are written out);
    - the reply of the network to a request is a function of the address;
    - the files are a finite map from the string of a path to a text: the
      paths are those of one directory tree, without symbolic links, and
      two paths with different strings are two files; a file that is there
      can be read, and a file can always be written; a patch is read in
      text mode, which turns CR LF and CR into LF, and written as it is;
    - [diff -u a b] can be run; its exit status and what the script gets
      of its output, as text, are a function of the two names and of the
      files. *)

From Stdlib Require Import ZArith String Ascii DecimalString DecimalNat.
From stdpp Require Import gmap list sorting.

Local Open Scope Z_scope.
Local Open Scope list_scope.

(** ** Python strings *)

(** A Python [str] is a sequence of Unicode code points. *)
Abbreviation pystr := (list N).

(** A literal of the script. *)
Definition py (s : string) : pystr := N_of_ascii <$> list_ascii_of_string s.

Definition LF : N := 10.
Definition CR : N := 13.
Definition SLASH : N := 47.
Definition DOT : N := 46.
Definition DOLLAR : N := 36.
Definition DASH : N := 45.

(** [str(i)] for a non-negative integer: unpadded decimal. *)
Definition str (n : nat) : pystr := py (NilZero.string_of_uint (Nat.to_uint n)).

(** [s.startswith(p)]. *)
Fixpoint startswith (p s : pystr) : bool :=
  match p, s with
  | [], _ => true
  | _ :: _, [] => false
  | a :: p', b :: s' => (a =? b)%N && startswith p' s'
  end.

(** [s.endswith(p)]. *)
Definition endswith (p s : pystr) : bool := startswith (reverse p) (reverse s).

(** [sep.join(l)]. *)
Fixpoint str_join (sep : pystr) (l : list pystr) : pystr :=
  match l with
  | [] => []
  | x :: l' =>
      match l' with
      | [] => x
      | _ :: _ => x ++ sep ++ str_join sep l'
      end
  end.

(** [s.split(sep)] for a separator of one character: never empty. *)
Fixpoint split_on (sep : N) (s : pystr) : list pystr :=
  match s with
  | [] => [[]]
  | c :: s' =>
      if (c =? sep)%N then [] :: split_on sep s'
      else match split_on sep s' with
           | l :: ls => (c :: l) :: ls
           | [] => [[c]]
           end
  end.

(** The line boundaries of [str.splitlines]: LF, CR, VT, FF, FS, GS, RS, NEL,
    LINE SEPARATOR and PARAGRAPH SEPARATOR. *)
Definition is_linebreak (c : N) : bool :=
  ((c =? 10) || (c =? 13) || (c =? 11) || (c =? 12) || (c =? 28) || (c =? 29)
   || (c =? 30) || (c =? 133) || (c =? 8232) || (c =? 8233))%N.

(** [splitlines_from cur s]: a line is open, [cur] holds what was read of it.
    A boundary closes the line (CR LF counts as one boundary); a new line is
    opened only if characters remain, so a final boundary adds no empty line. *)
Fixpoint splitlines_from (cur s : pystr) : list pystr :=
  match s with
  | [] => [cur]
  | c :: s' =>
      if is_linebreak c then
        cur :: match s' with
               | [] => []
               | d :: s'' =>
                   if (c =? CR)%N && (d =? LF)%N then
                     match s'' with
                     | [] => []
                     | _ :: _ => splitlines_from [] s''
                     end
                   else splitlines_from [] s'
               end
      else splitlines_from (cur ++ [c]) s'
  end.

(** [s.splitlines()]. *)
Definition splitlines (s : pystr) : list pystr :=
  match s with
  | [] => []
  | _ :: _ => splitlines_from [] s
  end.

(** [re.findall(r'^---', s, flags=re.MULTILINE)]: the scan visits the
    positions from left to right; [bol] says that the position is the start of
    the text or follows a LF (where [^] matches in MULTILINE mode), [skip]
    counts the positions still covered by the previous match, after which the
    scan resumes. *)
Fixpoint findall_from (bol : bool) (skip : nat) (s : pystr) : list pystr :=
  match s with
  | [] => []
  | c :: s' =>
      let bol' := (c =? LF)%N in
      match skip with
      | S k => findall_from bol' k s'
      | O =>
          if bol && startswith [DASH; DASH; DASH] s
          then [DASH; DASH; DASH] :: findall_from bol' 2 s'
          else findall_from bol' 0 s'
      end
  end.

Definition re_findall_sep (contents : pystr) : list pystr :=
  findall_from true 0 contents.

(** ** os.path (POSIX) *)

(** [os.path.join(a, b)]. *)
Definition path_join (a b : pystr) : pystr :=
  if startswith [SLASH] b then b
  else if bool_decide (a = []) || endswith [SLASH] a then a ++ b
  else a ++ [SLASH] ++ b.

(** One step of the loop of [os.path.normpath]; [acc] is [new_comps] with
    its last element first. *)
Definition normpath_step (initial_slashes : nat) (acc : list pystr) (comp : pystr)
  : list pystr :=
  if bool_decide (comp = []) || bool_decide (comp = [DOT]) then acc
  else if negb (bool_decide (comp = [DOT; DOT]))
          || (bool_decide (initial_slashes = 0%nat) && bool_decide (acc = []))
          || match acc with
             | last :: _ => bool_decide (last = [DOT; DOT])
             | [] => false
             end
       then comp :: acc
       else match acc with
            | _ :: acc' => acc'
            | [] => acc
            end.

(** [os.path.normpath(path)]. *)
Definition normpath (path : pystr) : pystr :=
  match path with
  | [] => [DOT]
  | _ :: _ =>
      let initial_slashes :=
        if startswith [SLASH] path then
          if startswith [SLASH; SLASH] path && negb (startswith [SLASH; SLASH; SLASH] path)
          then 2%nat else 1%nat
        else 0%nat in
      let comps := reverse (foldl (normpath_step initial_slashes) [] (split_on SLASH path)) in
      let p := replicate initial_slashes SLASH ++ str_join [SLASH] comps in
      match p with
      | [] => [DOT]
      | _ :: _ => p
      end
  end.

(** [os.path.abspath(path)] in a process whose working directory is [cwd]. *)
Definition abspath (cwd path : pystr) : pystr :=
  normpath (if startswith [SLASH] path then path else path_join cwd path).

(** [os.path.split(p)]: head and tail around the last slash; the head loses
    its trailing slashes unless it consists of slashes only. *)
Fixpoint drop_slashes (s : pystr) : pystr :=
  match s with
  | c :: s' => if (c =? SLASH)%N then drop_slashes s' else s
  | [] => []
  end.

Fixpoint take_to_slash (s : pystr) : pystr :=
  match s with
  | c :: s' => if (c =? SLASH)%N then [] else c :: take_to_slash s'
  | [] => []
  end.

Definition rstrip_slash (s : pystr) : pystr := reverse (drop_slashes (reverse s)).

Definition path_split (p : pystr) : pystr * pystr :=
  let tail_rev := take_to_slash (reverse p) in
  let head := take (length p - length tail_rev) p in
  let head' := if forallb (λ c, (c =? SLASH)%N) head then head else rstrip_slash head in
  (head', reverse tail_rev).

(** ** Comparison of strings and [sorted] *)

(** [a <= b] on Python strings: lexicographic on code points. *)
Fixpoint pystr_leb (a b : pystr) : bool :=
  match a, b with
  | [], _ => true
  | _ :: _, [] => false
  | x :: a', y :: b' => (x <? y)%N || ((x =? y)%N && pystr_leb a' b')
  end.

Definition pystr_le (a b : pystr) : Prop := pystr_leb a b = true.

#[global] Instance pystr_le_dec a b : Decision (pystr_le a b).
Proof. unfold pystr_le. apply _. Defined.

(** [sorted(l)] for a list of strings.  The order is total and two strings
    that compare equal are the same string, so the sorted list does not
    depend on the sorting algorithm. *)
Definition sorted (l : list pystr) : list pystr := merge_sort pystr_le l.

(** ** glob *)

(** What [os.scandir] shows of a directory: its entries in the order the
    operating system lists them, each a file or a directory with its own
    listing. *)
Inductive entries :=
| ENil
| EFile (name : pystr) (rest : entries)
| EDir (name : pystr) (sub : entries) (rest : entries).

(** [glob.has_magic(s)]: one of the characters star, question mark, opening
    bracket occurs. *)
Definition has_magic (s : pystr) : bool :=
  existsb (λ c, (c =? 42) || (c =? 63) || (c =? 91))%N s.

(** [glob._ishidden(name)]: [name[0] == '.'] (names are not empty). *)
Definition ishidden (name : pystr) : bool := startswith [DOT] name.

(** [fnmatch] of a name against [*.test]. *)
Definition fnmatch_test (name : pystr) : bool := endswith (py ".test") name.

(** The names of a listing, files and directories alike. *)
Fixpoint entry_names (es : entries) : list pystr :=
  match es with
  | ENil => []
  | EFile x rest => x :: entry_names rest
  | EDir x _ rest => x :: entry_names rest
  end.

(** [glob._glob1(dirname, '*.test', dironly=False)]: the names of the
    listing that are not hidden and match. *)
Definition glob1_test (es : entries) : list pystr :=
  List.filter fnmatch_test (List.filter (λ x, negb (ishidden x)) (entry_names es)).

(** [glob._rlistdir(dirname, dironly=True)]: the directories below that are
    reached through names that are not hidden, a directory before what is
    below it, each by its path relative to [dirname]; the model pairs the path
    with the listing found there. *)
Fixpoint rlistdir (es : entries) : list (pystr * entries) :=
  match es with
  | ENil => []
  | EFile _ rest => rlistdir rest
  | EDir x sub rest =>
      (if ishidden x then []
       else (x, sub) :: (prod_map (path_join x) id <$> rlistdir sub))
      ++ rlistdir rest
  end.

(** [glob.glob(pattern, recursive=True)] for [pattern = join(arg, '**/*.test')]
    where [arg] has no wildcard and [top] is the listing of the directory
    [arg]: the pattern is split into (dirname1, [*.test]), dirname1 into
    (dirname0, [**]); [_glob2] yields the empty name and then [_rlistdir], and
    [_glob1] filters the listing of each directory so found. *)
Definition glob_tests (pattern : pystr) (top : entries) : list pystr :=
  let dirname1 := fst (path_split pattern) in
  let dirname0 := fst (path_split dirname1) in
  let dirs := prod_map (path_join dirname0) id <$> ([], top) :: rlistdir top in
  concat ((λ d, path_join (fst d) <$> glob1_test (snd d)) <$> dirs).

(** ** The environment of a run *)

Record env := {
  (** [os.getcwd()] *)
  getcwd : pystr;
  (** the listing of a path that is a directory; [None] when
      [os.path.isdir] answers no *)
  dir_tree : pystr → option entries;
  (** what [glob.glob] returns for a pattern whose directory part has
      wildcard characters of its own *)
  glob_magic : pystr → list pystr;
  (** the text [open(path).read()] returns; [None] when [open] raises *)
  read_file : pystr → option pystr;
  (** the random suffix [tempfile.mkdtemp] picks at its n-th call *)
  mkdtemp_suffix : nat → pystr;
  (** [yaml2obj path --docnum=i]: exit status and standard output *)
  yaml2obj : pystr → nat → Z * pystr;
  (** the command of a test: the shell is handed the command line followed
      by [ > actual] in a directory with the given files; the result is the
      exit status and the files of the directory when the shell is done.
      Whether the output of the program is then in the file [actual] is up
      to the command line: after a [#] the redirection is a comment, and
      inside a quote that is left open it is not read at all *)
  sut : pystr → gmap pystr pystr → Z * gmap pystr pystr;
}.

(** ** The world: module globals, temporary directories, observable actions *)

Inductive event :=
| EvPrint (line : pystr)
| EvMkdtemp (dir : pystr)
| EvShell (cmd cwd : pystr)
| EvWrite (path data : pystr)
| EvRmtree (dir : pystr).

Record world := {
  (** the directories made by [mkdtemp] that exist, with their files *)
  w_dirs : gmap pystr (gmap pystr pystr);
  (** what the process did so far, oldest first *)
  w_trace : list event;
  (** the global [successes] *)
  successes : nat;
  (** the global [failures]: pairs (filename, tmpdir) *)
  failures : list (pystr * pystr);
  (** the number of calls of [mkdtemp] so far *)
  w_ntmp : nat;
}.

Definition init_world : world :=
  {| w_dirs := ∅; w_trace := []; successes := 0; failures := []; w_ntmp := 0 |}.

Definition log (e : event) (w : world) : world :=
  {| w_dirs := w_dirs w; w_trace := w_trace w ++ [e]; successes := successes w;
     failures := failures w; w_ntmp := w_ntmp w |}.

Definition set_dirs (d : gmap pystr (gmap pystr pystr)) (w : world) : world :=
  {| w_dirs := d; w_trace := w_trace w; successes := successes w;
     failures := failures w; w_ntmp := w_ntmp w |}.

(** The files of a directory ([∅] if it does not exist). *)
Definition files_of (dir : pystr) (w : world) : gmap pystr pystr :=
  default ∅ (w_dirs w !! dir).

(** File [name] of the existing directory [dir] gets the content [data]. *)
Definition put_file (dir name data : pystr) (w : world) : world :=
  set_dirs (alter (insert name data) dir (w_dirs w)) w.

(** The existing directory [dir] gets the files [files]. *)
Definition set_files (dir : pystr) (files : gmap pystr pystr) (w : world) : world :=
  set_dirs (alter (λ _, files) dir (w_dirs w)) w.

(** ** Exceptions and the monad *)

Inductive exn :=
| OSError (path : pystr)
| CalledProcessError (returncode : Z) (cmd : pystr)
| IndexError
| SystemExit (code : Z).

Inductive res (A : Type) :=
| Ok (a : A)
| Raise (e : exn).
Arguments Ok {A} a.
Arguments Raise {A} e.

Definition M (A : Type) : Type := world → res A * world.

Definition ret {A} (a : A) : M A := λ w, (Ok a, w).

Definition raise {A} (e : exn) : M A := λ w, (Raise e, w).

Definition bind {A B} (m : M A) (k : A → M B) : M B :=
  λ w, match m w with
       | (Ok a, w') => k a w'
       | (Raise e, w') => (Raise e, w')
       end.

Declare Scope harness_scope.
Delimit Scope harness_scope with harness.
Notation "'let!' x ':=' m 'in' k" := (bind m (λ x, k))
  (at level 10, x pattern, m at level 100, k at level 200) : harness_scope.
Notation "m >> k" := (bind m (λ _, k))
  (at level 90, right associativity) : harness_scope.
Local Open Scope harness_scope.

(** [for x in l: body(x)] *)
Fixpoint for_each {A} (l : list A) (body : A → M unit) : M unit :=
  match l with
  | [] => ret tt
  | x :: l' => body x >> for_each l' body
  end.

(** The status the process ends with: that of [sys.exit], 1 after an
    exception nobody caught, 0 at the end of the script. *)
Definition exit_status {A} (r : res A) : Z :=
  match r with
  | Ok _ => 0
  | Raise (SystemExit code) => code
  | Raise _ => 1
  end.

(** ** The harness *)

Section Harness.

Variable E : env.

(** [print(line)] *)
Definition print (line : pystr) : M unit := λ w, (Ok tt, log (EvPrint line) w).

(** [open(path)], with the text the later [f.read()] returns. *)
Definition open_read (path : pystr) : M pystr :=
  λ w, match read_file E path with
       | Some contents => (Ok contents, w)
       | None => (Raise (OSError path), w)
       end.

(** [tempfile.mkdtemp(prefix=...)] with an absolute prefix: a new, empty
    directory named by the prefix and a random suffix. *)
Definition mkdtemp (prefix : pystr) : M pystr :=
  λ w, let d := prefix ++ mkdtemp_suffix E (w_ntmp w) in
       (Ok d, log (EvMkdtemp d)
                {| w_dirs := <[d := ∅]> (w_dirs w); w_trace := w_trace w;
                   successes := successes w; failures := failures w;
                   w_ntmp := S (w_ntmp w) |}).

(** [subprocess.call(cmd + ' > ' + target, shell=True, cwd=cwd)] for a
    command line that the shell reads as one command followed by its
    redirection: the shell creates [target] in [cwd], runs the program with
    its standard output there, and its exit status is the result.  This is
    how the fixture compiler is called, the harness making its command line
    from the path of the test file. *)
Definition sh_redirect (prog : gmap pystr pystr → Z * pystr) (cmd target cwd : pystr)
  : M Z :=
  λ w, let r := prog (<[target := []]> (files_of cwd w)) in
       (Ok (fst r),
        log (EvShell (cmd ++ py " > " ++ target) cwd) (put_file cwd target (snd r) w)).

(** [subprocess.check_call]: as [call], but a status other than zero raises. *)
Definition check_call_redirect (prog : gmap pystr pystr → Z * pystr)
    (cmd target cwd : pystr) : M unit :=
  let! status := sh_redirect prog cmd target cwd in
  if status =? 0 then ret tt
  else raise (CalledProcessError status (cmd ++ py " > " ++ target)).

(** [diff -u a b]: status 0 when the files are the same, 1 when they differ,
    2 when one is missing. *)
Definition diff_status (files : gmap pystr pystr) (a b : pystr) : Z :=
  match files !! a, files !! b with
  | Some x, Some y => if bool_decide (x = y) then 0 else 1
  | _, _ => 2
  end.

(** [subprocess.call(cmd + ' > actual', shell=True, cwd=cwd)] for the command
    of a test: the shell gets the whole string, the command line being the
    text of the test file, and leaves the files of [cwd] as the environment
    says. *)
Definition sh_sut (cmd cwd : pystr) : M Z :=
  λ w, let r := sut E cmd (files_of cwd w) in
       (Ok (fst r), log (EvShell (cmd ++ py " > actual") cwd) (set_files cwd (snd r) w)).

(** [subprocess.call('diff -u expected actual', shell=True, cwd=cwd)] *)
Definition sh_diff (cwd : pystr) : M Z :=
  λ w, (Ok (diff_status (files_of cwd w) (py "expected") (py "actual")),
        log (EvShell (py "diff -u expected actual") cwd) w).

(** [with open(os.path.join(dir, name), 'w') as f: f.write(data)] *)
Definition write_file (dir name data : pystr) : M unit :=
  λ w, (Ok tt, log (EvWrite (path_join dir name) data) (put_file dir name data w)).

(** [shutil.rmtree(dir)] *)
Definition rmtree (dir : pystr) : M unit :=
  λ w, (Ok tt, log (EvRmtree dir) (set_dirs (delete dir (w_dirs w)) w)).

(** [successes += 1] *)
Definition incr_successes : M unit :=
  λ w, (Ok tt, {| w_dirs := w_dirs w; w_trace := w_trace w; successes := S (successes w);
                  failures := failures w; w_ntmp := w_ntmp w |}).

(** [failures.append(x)] *)
Definition append_failure (x : pystr * pystr) : M unit :=
  λ w, (Ok tt, {| w_dirs := w_dirs w; w_trace := w_trace w; successes := successes w;
                  failures := failures w ++ [x]; w_ntmp := w_ntmp w |}).

Definition lift {A} (r : res A) : M A := λ w, (r, w).

(** Lines 23-25: one call of the fixture compiler per document, in order. *)
Definition yaml2obj_cmd (abspath : pystr) (i : nat) : pystr :=
  py "yaml2obj " ++ abspath ++ py " --docnum=" ++ str i.

Definition provision (abspath tmpdir : pystr) (file_count : nat) : M unit :=
  for_each (seq 1 file_count) (λ i,
    check_call_redirect (λ _, yaml2obj E abspath i) (yaml2obj_cmd abspath i) (str i) tmpdir).

(** Lines 27-30: the loop pops lines while the first one is empty or does not
    start with the dollar sign, and [lines[0]] raises when no line is left;
    the result is [lines[0]] and the lines that remain after [lines.pop(0)]. *)
Fixpoint skip_to_command (lines : list pystr) : res (pystr * list pystr) :=
  match lines with
  | [] => Raise IndexError
  | l :: rest =>
      match l with
      | [] => skip_to_command rest
      | c :: _ => if (c =? DOLLAR)%N then Ok (l, rest) else skip_to_command rest
      end
  end.

(** Line 29, without the redirection. *)
Definition sut_cmd (cwd command_line : pystr) : pystr :=
  path_join cwd (drop 2 command_line).

(** Line 31. *)
Definition expected_output (lines : list pystr) : pystr :=
  str_join [LF] lines ++ [LF].

(** The truth value of [failure]. *)
Definition truthy (failure : option pystr) : bool :=
  match failure with
  | Some (_ :: _) => true
  | _ => false
  end.

(** Lines 15-39: the result is [tmpdir] and [failure]. *)
Definition run_case (filename : pystr) : M (pystr * option pystr) :=
  let cwd := getcwd E in
  let abspath := abspath cwd filename in
  let! contents := open_read abspath in
  print filename >>
  let! tmpdir := mkdtemp (py "/tmp/bloaty-") in
  let file_count := length (re_findall_sep contents) in
  provision abspath tmpdir file_count >>
  let! (command_line, lines) := lift (skip_to_command (splitlines contents)) in
  let bloaty_invocation := sut_cmd cwd command_line in
  let! status := sh_sut bloaty_invocation tmpdir in
  if negb (status =? 0) then ret (tmpdir, Some (py "CRASHED"))
  else
    write_file tmpdir (py "expected") (expected_output lines) >>
    let! status' := sh_diff tmpdir in
    if negb (status' =? 0) then ret (tmpdir, Some (py "FAILED"))
    else ret (tmpdir, None).

(** Lines 41-47. *)
Definition finish_case (filename tmpdir : pystr) (failure : option pystr) : M unit :=
  if truthy failure then
    let tag := default (py "None") failure in
    print (tag ++ py ": " ++ filename) >>
    print (tag ++ py ": output in " ++ tmpdir) >>
    append_failure (filename, tmpdir)
  else
    incr_successes >> rmtree tmpdir.

Definition TestFile (filename : pystr) : M unit :=
  let! (tmpdir, failure) := run_case filename in
  finish_case filename tmpdir failure.

(** Line 51: the files a directory argument expands to. *)
Definition glob_arg (arg : pystr) (top : entries) : list pystr :=
  let pattern := path_join arg (py "**/*.test") in
  if has_magic arg then glob_magic E pattern else glob_tests pattern top.

Definition TestArg (arg : pystr) : M unit :=
  match dir_tree E arg with
  | Some top => for_each (sorted (glob_arg arg top)) TestFile
  | None => TestFile arg
  end.

Definition usage : pystr := py "Usage: tester.py <FILE-OR-DIR> ...".

Definition success_line (n : nat) : pystr :=
  py "SUCCESS: " ++ str n ++ py " test(s) passed".

Definition failure_line (n m : nat) : pystr :=
  [LF] ++ py "FAILURE: " ++ str n ++ py " tests passed, " ++ str m ++ py " tests failed:".

Definition failure_item (f : pystr * pystr) : pystr :=
  py "  - " ++ f.1 ++ py " (output in " ++ f.2 ++ py ")".

(** Lines 57-72; [args] is [sys.argv[1:]]. *)
Definition main (args : list pystr) : M unit :=
  match args with
  | [] => print usage >> raise (SystemExit 1)
  | _ :: _ =>
      for_each args TestArg >>
      λ w, match failures w with
           | [] => print (success_line (successes w)) w
           | _ :: _ =>
               (print (failure_line (successes w) (length (failures w))) >>
                for_each (failures w) (λ f, print (failure_item f)) >>
                raise (SystemExit 1)) w
           end
  end.

(** The whole process: the globals start at zero and empty (lines 11-12). *)
Definition run (args : list pystr) : res unit * world := main args init_world.

End Harness.

(** ** Vocabulary of the specification *)

(** How a test case ends.  [Pass], [Crashed] and [Mismatch] are read from
    [failure]; [ProvisioningError] is the exception of [check_call],
    [FormatError] the one of [lines[0]], [NotReadable] the one of [open]. *)
Inductive RunOutcome :=
| Pass
| ProvisioningError
| Crashed
| Mismatch
| FormatError
| NotReadable.

#[global] Instance RunOutcome_eq_dec : EqDecision RunOutcome.
Proof. solve_decision. Defined.

Definition outcome (r : res (pystr * option pystr)) : RunOutcome :=
  match r with
  | Ok (_, failure) =>
      if truthy failure then
        if bool_decide (failure = Some (py "CRASHED")) then Crashed else Mismatch
      else Pass
  | Raise (CalledProcessError _ _) => ProvisioningError
  | Raise IndexError => FormatError
  | Raise _ => NotReadable
  end.

(** The directory [mkdtemp] makes when called in world [w]. *)
Definition tmpdir_of (E : env) (w : world) : pystr :=
  py "/tmp/bloaty-" ++ mkdtemp_suffix E (w_ntmp w).

(** The events of [w'] that [w] does not have yet. *)
Definition new_events (w w' : world) : list event :=
  drop (length (w_trace w)) (w_trace w').

(** The outcome of the case of a file, run from the initial world. *)
Definition case_outcome (E : env) (filename : pystr) : RunOutcome :=
  outcome (fst (run_case E filename init_world)).

(** The test cases of an argument and of a command line, in the order in
    which they are run. *)
Definition discover (E : env) (arg : pystr) : list pystr :=
  match dir_tree E arg with
  | Some top => sorted (glob_arg E arg top)
  | None => [arg]
  end.

Definition discovered (E : env) (args : list pystr) : list pystr :=
  concat (discover E <$> args).

(** The fixture compiler's part of a case, in closed form: the indices it is
    called for (up to the first one it fails on), the first failing index,
    and the world and the files its calls leave. *)
Fixpoint attempted (E : env) (abspath : pystr) (l : list nat) : list nat :=
  match l with
  | [] => []
  | i :: l' => i :: if fst (yaml2obj E abspath i) =? 0 then attempted E abspath l' else []
  end.

Fixpoint first_bad (E : env) (abspath : pystr) (l : list nat) : option nat :=
  match l with
  | [] => None
  | i :: l' => if fst (yaml2obj E abspath i) =? 0 then first_bad E abspath l' else Some i
  end.

Definition yaml2obj_event (abspath d : pystr) (i : nat) : event :=
  EvShell (yaml2obj_cmd abspath i ++ py " > " ++ str i) d.

Definition prov_step (E : env) (abspath d : pystr) (w : world) (i : nat) : world :=
  log (yaml2obj_event abspath d i) (put_file d (str i) (snd (yaml2obj E abspath i)) w).

Definition prov_world (E : env) (abspath d : pystr) (l : list nat) (w : world) : world :=
  foldl (prov_step E abspath d) w l.

Definition fixtures_from (E : env) (abspath : pystr) (l : list nat)
    (files : gmap pystr pystr) : gmap pystr pystr :=
  foldl (λ fs i, <[str i := snd (yaml2obj E abspath i)]> fs) files l.

(** The files of the working directory when the command of the test starts. *)
Definition fixtures (E : env) (abspath : pystr) (n : nat) : gmap pystr pystr :=
  fixtures_from E abspath (seq 1 n) ∅.

(** What the command of the test case of [filename] does: the status, and
    the files it leaves in the working directory. *)
Definition sut_result (E : env) (filename command_line contents : pystr)
  : Z * gmap pystr pystr :=
  let abspath := abspath (getcwd E) filename in
  sut E (sut_cmd (getcwd E) command_line)
    (fixtures E abspath (length (re_findall_sep contents))).

(** The world once the case has its directory. *)
Definition started (E : env) (filename : pystr) (w : world) : world :=
  snd (mkdtemp E (py "/tmp/bloaty-") (log (EvPrint filename) w)).

(** The world once the fixture compiler is done or has failed. *)
Definition provisioned (E : env) (filename contents : pystr) (w : world) : world :=
  let abspath := abspath (getcwd E) filename in
  prov_world E abspath (tmpdir_of E w)
    (attempted E abspath (seq 1 (length (re_findall_sep contents))))
    (started E filename w).

(** The world once the command of the test has run. *)
Definition invoked (E : env) (filename command_line contents : pystr) (w : world) : world :=
  let d := tmpdir_of E w in
  log (EvShell (sut_cmd (getcwd E) command_line ++ py " > actual") d)
    (set_files d (snd (sut_result E filename command_line contents))
       (provisioned E filename contents w)).

(** The world once the output has been compared. *)
Definition verified (E : env) (filename command_line contents : pystr)
    (lines : list pystr) (w : world) : world :=
  let d := tmpdir_of E w in
  log (EvShell (py "diff -u expected actual") d)
    (log (EvWrite (path_join d (py "expected")) (expected_output lines))
       (put_file d (py "expected") (expected_output lines)
          (invoked E filename command_line contents w))).

(** The events of a case that follow those of the fixture compiler. *)
Definition closing_events (E : env) (filename contents d : pystr) : list event :=
  match first_bad E (abspath (getcwd E) filename)
          (seq 1 (length (re_findall_sep contents))) with
  | Some _ => []
  | None =>
      match skip_to_command (splitlines contents) with
      | Raise _ => []
      | Ok (command_line, lines) =>
          let r := sut_result E filename command_line contents in
          EvShell (sut_cmd (getcwd E) command_line ++ py " > actual") d
          :: if negb (fst r =? 0)
             then [EvPrint (py "CRASHED" ++ py ": " ++ filename);
                   EvPrint (py "CRASHED" ++ py ": output in " ++ d)]
             else [EvWrite (path_join d (py "expected")) (expected_output lines);
                   EvShell (py "diff -u expected actual") d]
                  ++ if bool_decide (snd r !! py "actual" = Some (expected_output lines))
                     then [EvRmtree d]
                     else [EvPrint (py "FAILED" ++ py ": " ++ filename);
                           EvPrint (py "FAILED" ++ py ": output in " ++ d)]
      end
  end.

(** An event other than the removal of a directory. *)
Definition not_rmtree (e : event) : Prop :=
  match e with
  | EvRmtree _ => False
  | _ => True
  end.

(** A line the loop of line 27 pops. *)
Definition skipped_line (l : pystr) : Prop := startswith [DOLLAR] l = false.

(** The words of the specification, for comparison with the code. *)

(** "the number of lines exactly matching the document-separator marker" *)
Definition spec_fixture_count (contents : pystr) : nat :=
  length (List.filter (λ l, bool_decide (l = [DASH; DASH; DASH])) (split_on LF contents)).

(** The count the code computes, said with lines: those that begin with the
    marker. *)
Definition lines_with_marker (contents : pystr) : nat :=
  length (List.filter (startswith [DASH; DASH; DASH]) (split_on LF contents)).

(** "the case is recorded as a failure in the suite report ... and the
    harness continues to run every subsequent discovered test case" *)
Definition spec_provisioning_error_is_local (E : env) (args : list pystr) : Prop :=
  ∀ f, f ∈ discovered E args → case_outcome E f = ProvisioningError →
    (∃ d, (f, d) ∈ failures (snd (run E args)))
    ∧ (∀ g, g ∈ discovered E args → EvPrint g ∈ w_trace (snd (run E args))).

(** "Parsing fails with FormatError when no line starting with the command
    marker is found before the line sequence is exhausted" *)
Definition spec_no_command_is_format_error (E : env) (f : pystr) : Prop :=
  ∀ contents, read_file E (abspath (getcwd E) f) = Some contents →
    Forall skipped_line (splitlines contents) →
    case_outcome E f = FormatError.

(** "for every test file containing N ≥ 1 separator-marker lines but no line
    starting with the command marker, the fixture compiler is still invoked
    for all N documents" *)
Definition spec_fixtures_before_command (E : env) (f : pystr) : Prop :=
  ∀ contents, read_file E (abspath (getcwd E) f) = Some contents →
    (1 ≤ length (re_findall_sep contents))%nat →
    Forall skipped_line (splitlines contents) →
    ∀ i, i ∈ seq 1 (length (re_findall_sep contents)) →
      yaml2obj_event (abspath (getcwd E) f) (tmpdir_of E init_world) i
      ∈ w_trace (snd (TestFile E f init_world)).

(** "rejoined with a single newline between consecutive lines and exactly one
    trailing newline appended ... when no lines remain, exactly one newline" *)
Definition spec_expected_output (lines : list pystr) : pystr :=
  match lines with
  | [] => [LF]
  | _ :: _ => concat ((λ l, l ++ [LF]) <$> lines)
  end.

Definition is_space (c : N) : bool :=
  ((c =? 32) || (c =? 9) || (c =? 10) || (c =? 11) || (c =? 12) || (c =? 13))%N.

Fixpoint lstrip (s : pystr) : pystr :=
  match s with
  | c :: s' => if is_space c then lstrip s' else s
  | [] => []
  end.

Definition strip (s : pystr) : pystr := reverse (lstrip (reverse (lstrip s))).

(** "the marker and surrounding whitespace stripped" *)
Definition spec_template (command_line : pystr) : pystr := strip (drop 1 command_line).

(** "that template with its first whitespace-delimited token rewritten to an
    absolute SUT path resolved relative to the harness's own invocation
    directory, all subsequent tokens left untouched" *)
Definition spec_command (cwd command_line : pystr) : pystr :=
  path_join cwd (spec_template command_line).

(** "the files under it (including nested subdirectories, recursively) whose
    names match the fixed suffix convention" *)
Fixpoint files_under (dir : pystr) (es : entries) : list pystr :=
  match es with
  | ENil => []
  | EFile x rest =>
      (if fnmatch_test x then [path_join dir x] else []) ++ files_under dir rest
  | EDir x sub rest => files_under (path_join dir x) sub ++ files_under dir rest
  end.

(** What the glob reaches: [visible es dirs x] says that the listing [es]
    leads through the directories [dirs], none of them hidden, to an entry
    named [x] (a file or a directory) that is not hidden. *)
Inductive visible : entries → list pystr → pystr → Prop :=
| visible_file x rest :
    ishidden x = false → visible (EFile x rest) [] x
| visible_dir x sub rest :
    ishidden x = false → visible (EDir x sub rest) [] x
| visible_below y sub rest dirs x :
    ishidden y = false → visible sub dirs x → visible (EDir y sub rest) (y :: dirs) x
| visible_after_file y rest dirs x :
    visible rest dirs x → visible (EFile y rest) dirs x
| visible_after_dir y sub rest dirs x :
    visible rest dirs x → visible (EDir y sub rest) dirs x.

(** The relative path [_rlistdir] builds for a chain of directories. *)
Fixpoint rel_path (dirs : list pystr) : pystr :=
  match dirs with
  | [] => []
  | y :: dirs' =>
      match dirs' with
      | [] => y
      | _ :: _ => path_join y (rel_path dirs')
      end
  end.

(** The directory part the glob starts from: the argument without trailing
    slashes. *)
Definition glob_base (arg : pystr) : pystr :=
  fst (path_split (fst (path_split (path_join arg (py "**/*.test"))))).

(** ** Concrete environments *)

(** A small environment: the working directory is [/b], the test files are
    those of [texts] (by absolute path), the only directory is [dir] with
    listing [top], the fixture compiler fails on the documents listed in
    [bad], and the command of every test ends with the status of [result],
    its output, the text of [result], being in the file [actual]. *)
Definition lookup_text (texts : list (pystr * pystr)) (path : pystr) : option pystr :=
  snd <$> List.find (λ kv, bool_decide (kv.1 = path)) texts.

Definition sample_env (texts : list (pystr * pystr)) (dir : pystr) (top : entries)
    (bad : list nat) (result : Z * pystr) : env :=
  {| getcwd := py "/b";
     dir_tree := λ p, if bool_decide (p = dir) then Some top else None;
     glob_magic := λ _, [];
     read_file := lookup_text texts;
     mkdtemp_suffix := str;
     yaml2obj := λ _ i, (if bool_decide (i ∈ bad) then 1 else 0, py "ELF");
     sut := λ _ files, (fst result, <[py "actual" := snd result]> files) |}.

Definition text_hello : pystr := py "$ echo hello" ++ [LF] ++ py "hello".
Definition text_two_docs : pystr :=
  py "--- !ELF" ++ [LF] ++ py "--- !ELF" ++ [LF] ++ py "$ bloaty 1 2" ++ [LF] ++ py "3".
Definition text_no_command : pystr := py "--- !ELF" ++ [LF] ++ py "Sections:".

Definition text_two_spaces : pystr := py "$  bloaty x" ++ [LF] ++ py "hello".

Definition hello_out : Z * pystr := (0, py "hello" ++ [LF]).

(** One passing test. *)
Definition env_hello : env :=
  sample_env [(py "/b/t.test", text_hello)] [] ENil [] hello_out.

(** The command writes what is expected and exits with status 1. *)
Definition env_crash : env :=
  sample_env [(py "/b/t.test", text_hello)] [] ENil [] (1, py "hello" ++ [LF]).

(** Two documents, compiled without error. *)
Definition env_two_docs : env :=
  sample_env [(py "/b/a.test", text_two_docs)] [] ENil [] (0, py "3" ++ [LF]).

(** The fixture compiler fails on the first document of [a.test]; [b.test]
    would pass. *)
Definition env_bad_fixture : env :=
  sample_env [(py "/b/a.test", text_two_docs); (py "/b/b.test", text_hello)]
    [] ENil [1%nat] hello_out.

(** An empty test file and one without a command line. *)
Definition env_no_command : env :=
  sample_env [(py "/b/e.test", []); (py "/b/n.test", text_no_command)] [] ENil [] hello_out.

(** Two documents and no command line. *)
Definition text_two_markers : pystr := py "--- !ELF" ++ [LF] ++ py "--- !ELF".

(** The fixture compiler compiles both documents of [m.test]. *)
Definition env_two_markers : env :=
  sample_env [(py "/b/m.test", text_two_markers)] [] ENil [] hello_out.

(** The fixture compiler fails on the first document of [m.test]. *)
Definition env_bad_markers : env :=
  sample_env [(py "/b/m.test", text_two_markers)] [] ENil [1%nat] hello_out.

(** The dollar sign is followed by two spaces; the shell cannot run the
    directory [/b/] and reports status 126. *)
Definition env_two_spaces : env :=
  sample_env [(py "/b/s.test", text_two_spaces)] [] ENil [] (126, []).

(** A directory [d] with a test, a hidden test, a subdirectory with a test, a
    hidden directory with a test, and a file that is not a test. *)
Definition tree_d : entries :=
  EFile (py "z.test")
    (EFile (py ".h.test")
       (EDir (py "s") (EFile (py "a.test") ENil)
          (EDir (py ".g") (EFile (py "q.test") ENil)
             (EFile (py "n.txt") ENil)))).

Definition env_tree : env := sample_env [] (py "d") tree_d [] hello_out.

(** ** Further vocabulary for the harness *)

(** An event that stays inside the directory [d]: a command run there, the
    write of its file [expected], its creation or its removal; or a print. *)
Definition event_within (d : pystr) (e : event) : Prop :=
  match e with
  | EvPrint _ => True
  | EvMkdtemp x => x = d
  | EvShell _ cwd => cwd = d
  | EvWrite path _ => path = path_join d (py "expected")
  | EvRmtree x => x = d
  end.

(** A case that ends without an exception. *)
Definition case_ends (E : env) (f : pystr) : Prop :=
  case_outcome E f = Pass ∨ case_outcome E f = Crashed ∨ case_outcome E f = Mismatch.

(** A case that is recorded as a failure. *)
Definition case_fails (E : env) (f : pystr) : Prop :=
  case_outcome E f = Crashed ∨ case_outcome E f = Mismatch.

#[global] Instance case_fails_dec E f : Decision (case_fails E f).
Proof. unfold case_fails. apply _. Defined.

(** The worlds the harness keeps in order: the directories that exist are
    those of the failure list, no directory is listed twice, and each was
    named by an earlier call of [mkdtemp]. *)
Definition tidy (E : env) (w : world) : Prop :=
  (∀ d, is_Some (w_dirs w !! d) ↔ d ∈ snd <$> failures w)
  ∧ NoDup (snd <$> failures w)
  ∧ (∀ d, d ∈ snd <$> failures w →
          ∃ k, (k < w_ntmp w)%nat ∧ d = py "/tmp/bloaty-" ++ mkdtemp_suffix E k).

(** A piece of text without line boundary. *)
Definition no_linebreak (l : pystr) : Prop := forallb (λ c, negb (is_linebreak c)) l = true.

(** A text whose only line boundaries are LF characters. *)
Definition lf_only (t : pystr) : Prop := Forall (λ c, is_linebreak c = true → c = LF) t.

(** The text made of the given lines, each ended by LF. *)
Definition unlines (lines : list pystr) : pystr := concat ((λ l, l ++ [LF]) <$> lines).

(** A command line that ends in a comment: the shell runs [/b/echo hello]
    with the standard output of the harness, reads [ > actual] as part of
    the comment, and makes no file. *)
Definition text_comment : pystr := py "$ echo hello #" ++ [LF] ++ py "hello".

Definition env_comment : env :=
  {| getcwd := py "/b";
     dir_tree := λ _, None;
     glob_magic := λ _, [];
     read_file := lookup_text [(py "/b/t.test", text_comment)];
     mkdtemp_suffix := str;
     yaml2obj := λ _ _, (0, py "ELF");
     sut := λ _ files, (0, files) |}.

(** A directory [d] with a test that passes and one whose command exits
    with status 1. *)
Definition env_mixed : env :=
  {| getcwd := py "/b";
     dir_tree := λ p, if bool_decide (p = py "d")
                      then Some (EFile (py "p.test") (EFile (py "c.test") ENil))
                      else None;
     glob_magic := λ _, [];
     read_file := lookup_text [(py "/b/d/p.test", text_hello);
                               (py "/b/d/c.test", py "$ false")];
     mkdtemp_suffix := str;
     yaml2obj := λ _ _, (0, py "ELF");
     sut := λ cmd files,
       if bool_decide (cmd = py "/b/false") then (1, <[py "actual" := []]> files)
       else (0, <[py "actual" := py "hello" ++ [LF]]> files) |}.

(** ** update_headers.py: the METADATA parser and the download of a header *)

(** The character classes of Python beyond ASCII (the Unicode tables behind
    [str.isspace] and [str.isalnum]) are taken as given; below 128 the
    classes are written out. *)
Record unicode := {
  uni_space : N → bool;
  uni_alnum : N → bool;
}.

(** ASCII only: no character from 128 on is a space or a letter. *)
Definition ascii_only : unicode := {| uni_space := λ _, false; uni_alnum := λ _, false |}.

(** What a function of these scripts returns or raises. *)
Inductive script_error :=
| ValueError (msg : pystr)
| RuntimeError (msg : pystr).

Inductive result (A : Type) :=
| Return (a : A)
| Raised (e : script_error).
Arguments Return {A} a.
Arguments Raised {A} e.

(** [sub in s] *)
Fixpoint contains (sub s : pystr) : bool :=
  startswith sub s
  || match s with
     | [] => false
     | _ :: s' => contains sub s'
     end.

(** [s.replace(old, new)]: the occurrences of [old] are replaced from left to
    right, the scan resuming after each one; [skip] counts the characters of
    an occurrence that are still to be passed.  An empty [old] occurs before
    every character and at the end. *)
Fixpoint replace_from (old new : pystr) (skip : nat) (s : pystr) : pystr :=
  match s with
  | [] => []
  | c :: s' =>
      match skip with
      | S k => replace_from old new k s'
      | O =>
          if startswith old s then new ++ replace_from old new (length old - 1) s'
          else c :: replace_from old new 0 s'
      end
  end.

Definition str_replace (old new s : pystr) : pystr :=
  match old with
  | [] => new ++ flat_map (λ c, c :: new) s
  | _ => replace_from old new 0 s
  end.

(** The longest prefix whose characters satisfy [p], and what follows it. *)
Fixpoint span (p : N → bool) (s : pystr) : pystr * pystr :=
  match s with
  | [] => ([], [])
  | c :: s' => if p c then let r := span p s' in (c :: fst r, snd r) else ([], s)
  end.

Section Metadata.

Variable U : unicode.

(** [Py_UNICODE_ISSPACE]: what [str.strip] strips and [\s] matches. *)
Definition isspace (c : N) : bool :=
  if (c <? 128)%N
  then (((9 <=? c) && (c <=? 13)) || ((28 <=? c) && (c <=? 31)) || (c =? 32))%N
  else uni_space U c.

(** What [\w] matches: [Py_UNICODE_ISALNUM] or the underscore. *)
Definition isword (c : N) : bool :=
  if (c <? 128)%N
  then (((48 <=? c) && (c <=? 57)) || ((65 <=? c) && (c <=? 90))
        || ((97 <=? c) && (c <=? 122)) || (c =? 95))%N
  else uni_alnum U c.

Fixpoint py_lstrip (s : pystr) : pystr :=
  match s with
  | c :: s' => if isspace c then py_lstrip s' else s
  | [] => []
  end.

(** [s.strip()] *)
Definition py_strip (s : pystr) : pystr := reverse (py_lstrip (reverse (py_lstrip s))).

Definition COLON : N := 58.
Definition QUOTE : N := 34.

(** [re.match] of the first pattern of line 78: one or more word characters
    (the key), a colon, any spaces, a double quote, one or more characters
    other than the double quote (the value), a double quote.  The result is
    the two groups, when the line matches.  Each repetition takes the longest
    run: the character that must follow a run (the colon, the quote) is not
    in the class of the run, so a shorter run cannot lead to a match. *)
Definition match_quoted (line : pystr) : option (pystr * pystr) :=
  let (key, r1) := span isword line in
  match key, r1 with
  | _ :: _, c :: r2 =>
      if (c =? COLON)%N then
        match snd (span isspace r2) with
        | q :: r3 =>
            if (q =? QUOTE)%N then
              let (value, r4) := span (λ x, negb (x =? QUOTE)%N) r3 in
              match value, r4 with
              | _ :: _, _ :: _ => Some (key, value)
              | _, _ => None
              end
            else None
        | [] => None
        end
      else None
  | _, _ => None
  end.

(** [re.match] of the second pattern (line 84): one or more word characters
    (the key), a colon, any spaces, one or more characters that are not
    spaces (the value). *)
Definition match_plain (line : pystr) : option (pystr * pystr) :=
  let (key, r1) := span isword line in
  match key, r1 with
  | _ :: _, c :: r2 =>
      if (c =? COLON)%N then
        match fst (span (λ x, negb (isspace x)) (snd (span isspace r2))) with
        | [] => None
        | value => Some (key, value)
        end
      else None
  | _, _ => None
  end.

(** The variables of the loop of [parse_third_party_blocks]. *)
Record parser_state := {
  blocks : list (gmap pystr pystr);
  current_block : option (gmap pystr pystr);
  in_third_party : bool;
  brace_depth : Z;
}.

Definition parser_start : parser_state :=
  {| blocks := []; current_block := None; in_third_party := false; brace_depth := 0 |}.

(** One turn of the loop (lines 57-87). *)
Definition parse_line (st : parser_state) (original_line : pystr) : parser_state :=
  let line := py_strip original_line in
  if bool_decide (line = py "third_party {") then
    {| blocks := blocks st; current_block := Some ∅; in_third_party := true;
       brace_depth := 1 |}
  else if endswith (py "{") line && in_third_party st then
    {| blocks := blocks st; current_block := current_block st;
       in_third_party := in_third_party st; brace_depth := brace_depth st + 1 |}
  else if bool_decide (line = py "}") && in_third_party st then
    if brace_depth st - 1 =? 0 then
      match current_block st with
      | Some b =>
          if bool_decide (b = ∅) then
            {| blocks := blocks st; current_block := current_block st;
               in_third_party := false; brace_depth := brace_depth st - 1 |}
          else
            {| blocks := blocks st ++ [b]; current_block := None;
               in_third_party := false; brace_depth := brace_depth st - 1 |}
      | None =>
          {| blocks := blocks st; current_block := None;
             in_third_party := false; brace_depth := brace_depth st - 1 |}
      end
    else
      {| blocks := blocks st; current_block := current_block st;
         in_third_party := in_third_party st; brace_depth := brace_depth st - 1 |}
  else if in_third_party st then
    match current_block st with
    | Some b =>
        match match_quoted line with
        | Some (key, value) =>
            {| blocks := blocks st; current_block := Some (<[key := value]> b);
               in_third_party := in_third_party st; brace_depth := brace_depth st |}
        | None =>
            match match_plain line with
            | Some (key, value) =>
                {| blocks := blocks st; current_block := Some (<[key := value]> b);
                   in_third_party := in_third_party st; brace_depth := brace_depth st |}
            | None => st
            end
        end
    | None => st
    end
  else st.

(** [MetadataParser.parse_third_party_blocks], for the text of METADATA. *)
Definition parse_third_party_blocks (content : pystr) : list (gmap pystr pystr) :=
  blocks (foldl parse_line parser_start (split_on LF content)).

(** The loop of [get_repo_info] (lines 103-108). *)
Fixpoint find_repo (repo_name : pystr) (bs : list (gmap pystr pystr))
  : result (pystr * pystr) :=
  match bs with
  | [] => Raised (ValueError (py "Could not find " ++ repo_name
                              ++ py " repository in METADATA"))
  | block :: bs' =>
      let url := default [] (block !! py "value") in
      if contains repo_name url
      then Return (url, default [] (block !! py "version"))
      else find_repo repo_name bs'
  end.

(** [MetadataParser.get_repo_info] *)
Definition get_repo_info (content repo_name : pystr) : result (pystr * pystr) :=
  find_repo repo_name (parse_third_party_blocks content).

End Metadata.

(** What [urllib.request.urlopen(url, timeout=30)] followed by [read] gives:
    the body, or an exception with its text. *)
Inductive reply :=
| Body (data : pystr)
| HTTPError (text : pystr)
| URLError (text : pystr)
| OtherError (type_name text : pystr).

(** Lines 129-131. *)
Definition raw_url (repo_url commit source_path : pystr) : pystr :=
  let repo_path := str_replace (py "https://github.com/") [] repo_url in
  let repo_path := str_replace (py ".git") [] repo_path in
  py "https://raw.githubusercontent.com/" ++ repo_path ++ py "/" ++ commit
  ++ py "/" ++ source_path.

(** [fetch_file_from_github]: the lines it prints and what it returns or
    raises. *)
Definition fetch_file_from_github (urlopen : pystr → reply)
    (repo_url commit source_path : pystr) : list pystr * result pystr :=
  if negb (contains (py "github.com") repo_url) then
    ([], Raised (ValueError (py "Unsupported repository URL: " ++ repo_url)))
  else
    let url := raw_url repo_url commit source_path in
    ([py "    Downloading: " ++ url],
     match urlopen url with
     | Body data => Return data
     | HTTPError e => Raised (RuntimeError (py "Failed to download " ++ url ++ py ": " ++ e))
     | URLError e =>
         Raised (RuntimeError (py "Network error downloading " ++ url ++ py ": " ++ e))
     | OtherError t e =>
         Raised (RuntimeError (py "Unexpected error downloading " ++ url ++ py ": "
                               ++ t ++ py ": " ++ e))
     end).

(** The text of a METADATA file with one repository: the given lines, a
    [third_party] block with the URL and the version, and more lines. *)
Definition metadata_text (before : list pystr) (url version : pystr)
    (after : list pystr) : pystr :=
  str_join [LF]
    (before
     ++ [py "third_party {";
         py "  url {";
         py "    type: GIT";
         py "    value: " ++ [34%N] ++ url ++ [34%N];
         py "  }";
         py "  version: " ++ [34%N] ++ version ++ [34%N];
         py "}"]
     ++ after).

(** A line without LF that does not open a [third_party] block. *)
Definition plain_line (U : unicode) (l : pystr) : Prop :=
  (LF ∉ l) ∧ py_strip U l ≠ py "third_party {".

(** The states the loop of [parse_third_party_blocks] can reach. *)
Definition parser_inv (st : parser_state) : Prop :=
  Forall (λ b, b ≠ ∅) (blocks st)
  ∧ (in_third_party st = true → 1 ≤ brace_depth st ∧ is_Some (current_block st))
  ∧ (in_third_party st = false → current_block st = None ∨ current_block st = Some ∅).

(** The block read from [metadata_text]: the fields of the nested [url]
    block and the version, side by side. *)
Definition repository_block (url version : pystr) : gmap pystr pystr :=
  <[py "version" := version]> (<[py "value" := url]> (<[py "type" := py "GIT"]> ∅)).

(** The error of [get_repo_info]. *)
Definition not_found (repo_name : pystr) : script_error :=
  ValueError (py "Could not find " ++ repo_name ++ py " repository in METADATA").

(** ** generate_patches.py: paths, files and the patch of a header *)

(** [pathlib.PurePosixPath]: the root (nothing, one slash or two) and the
    components after it. *)
Record Path := {
  root : pystr;
  parts : list pystr;
}.

#[global] Instance Path_eq_dec : EqDecision Path.
Proof. solve_decision. Defined.

(** What the constructor makes of a string: the root is two slashes when
    the string begins with exactly two, one slash when it begins with a
    slash in another way; the components are separated by slashes, empty
    ones and single dots left out. *)
Definition parse_path (s : pystr) : Path :=
  {| root := if startswith (py "//") s && negb (startswith (py "///") s) then py "//"
             else if startswith (py "/") s then py "/"
             else [];
     parts := List.filter (λ x, negb (bool_decide (x = [])) && negb (bool_decide (x = [DOT])))
                (split_on SLASH s) |}.

(** [str(p)] *)
Definition Path_str (p : Path) : pystr :=
  match parts p with
  | [] => match root p with [] => py "." | _ => root p end
  | _ :: _ => root p ++ str_join [SLASH] (parts p)
  end.

(** [p.name] *)
Definition Path_name (p : Path) : pystr := List.last (parts p) [].

(** [p.parent] *)
Definition Path_parent (p : Path) : Path :=
  {| root := root p; parts := removelast (parts p) |}.

(** [p / s] for a string [s] *)
Definition Path_truediv (p : Path) (s : pystr) : Path :=
  let q := parse_path s in
  match root q with
  | [] => {| root := root p; parts := parts p ++ parts q |}
  | _ :: _ => q
  end.

(** The files that exist, each known by the string of its path, with its
    text. *)
Abbreviation files := (gmap pystr pystr).

(** [p.exists()] *)
Definition Path_exists (p : Path) (fs : files) : bool :=
  bool_decide (is_Some (fs !! Path_str p)).

(** What reading in text mode makes of the text of a file
    ([open(path, 'r').read()]): CR LF and CR alone become LF. *)
Fixpoint universal_newlines (s : pystr) : pystr :=
  match s with
  | [] => []
  | c :: s' =>
      if (c =? CR)%N then
        LF :: match s' with
              | d :: s'' => if (d =? LF)%N then universal_newlines s'' else universal_newlines s'
              | [] => []
              end
      else c :: universal_newlines s'
  end.

(** Line 129 of [process_headers]. *)
Definition patch_name (dest_path : pystr) : pystr :=
  str_replace (py "/") (py "_") dest_path ++ py ".patch".

Section Patches.

(** [diff -u a b] on the files as they are: its exit status, and what the
    script gets of its standard output and of its standard error (as text:
    [subprocess.run] is called with [text=True]). *)
Variable diff_u : pystr → pystr → files → Z * pystr * pystr.

(** The reply to the request of an address. *)
Variable urlopen : pystr → reply.

(** The path of the copy of the upstream text (line 42). *)
Definition temp_original (modified_file : Path) : Path :=
  Path_truediv (Path_parent modified_file) (Path_name modified_file ++ py ".orig").

(** The text of the patch: the output of [diff] with the two paths replaced
    (lines 59-65). *)
Definition new_patch_content (modified_file : Path) (stdout : pystr) : pystr :=
  let new_patch_content :=
    str_replace (Path_str (temp_original modified_file))
      (Path_name modified_file ++ py ".orig") stdout in
  str_replace (Path_str modified_file) (Path_name modified_file) new_patch_content.

(** [generate_patch]: the files it leaves, and what it returns or raises. *)
Definition generate_patch (original_content : pystr) (modified_file output_patch : Path)
    (fs : files) : files * result bool :=
  let temp := temp_original modified_file in
  let fs1 := <[Path_str temp := original_content]> fs in
  let '(returncode, stdout, stderr) := diff_u (Path_str temp) (Path_str modified_file) fs1 in
  let leave (fs2 : files) (r : result bool) := (delete (Path_str temp) fs2, r) in
  if returncode =? 0 then leave fs1 (Return false)
  else if returncode =? 1 then
    let new := new_patch_content modified_file stdout in
    match fs1 !! Path_str output_patch with
    | Some stored =>
        let old_patch_content := universal_newlines stored in
        if bool_decide (drop 2 (split_on LF old_patch_content) = drop 2 (split_on LF new))
        then leave fs1 (Return false)
        else leave (<[Path_str output_patch := new]> fs1) (Return true)
    | None => leave (<[Path_str output_patch := new]> fs1) (Return true)
    end
  else leave fs1 (Raised (RuntimeError (py "diff failed: " ++ stderr))).

(** The loop of [process_headers] (lines 119-140): the files it leaves, the
    lines it prints, and the list it has built or the exception that ends
    it. *)
Fixpoint headers_loop (repo_url version : pystr) (script_dir patch_dir : Path)
    (headers : list (pystr * pystr)) (fs : files) (patches_generated : list pystr)
  : files * list pystr * result (list pystr) :=
  match headers with
  | [] => (fs, [], Return patches_generated)
  | (source_path, dest_path) :: headers' =>
      let checking := py "  Checking: " ++ dest_path in
      let modified_file := Path_truediv script_dir dest_path in
      let continue (fs' : files) (printed : list pystr) (patches : list pystr) :=
        let '(fs'', out, r) :=
          headers_loop repo_url version script_dir patch_dir headers' fs' patches in
        (fs'', checking :: printed ++ out, r) in
      if negb (Path_exists modified_file fs) then
        continue fs [py "    Warning: Modified file not found, skipping"] patches_generated
      else
        let (downloading, fetched) :=
          fetch_file_from_github urlopen repo_url version source_path in
        match fetched with
        | Raised e => (fs, checking :: downloading, Raised e)
        | Return original_content =>
            let patch_file := Path_truediv patch_dir (patch_name dest_path) in
            match generate_patch original_content modified_file patch_file fs with
            | (fs1, Raised e) => (fs1, checking :: downloading, Raised e)
            | (fs1, Return true) =>
                continue fs1
                  (downloading ++ [py "    Generated patch: " ++ patch_name dest_path])
                  (patches_generated ++ [patch_name dest_path])
            | (fs1, Return false) =>
                if Path_exists patch_file fs1 then
                  continue fs1
                    (downloading ++ [py "    Patch unchanged: " ++ patch_name dest_path])
                    (patches_generated ++ [patch_name dest_path])
                else
                  continue fs1
                    (downloading ++ [py "    No modifications detected"])
                    patches_generated
            end
        end
  end.

(** [process_headers] *)
Definition process_headers (repo_name repo_url version : pystr)
    (headers : list (pystr * pystr)) (script_dir patch_dir : Path) (fs : files)
  : files * list pystr * result (list pystr) :=
  let '(fs', out, r) := headers_loop repo_url version script_dir patch_dir headers fs [] in
  (fs',
   (py "=== Processing " ++ repo_name ++ py " headers ===") :: out
   ++ match r with Return _ => [[]] | Raised _ => [] end,
   r).

End Patches.

(** The tables of [update_headers.py] (lines 29-38): the path in the
    repository and the path here. *)
Definition XNU_HEADERS : list (pystr * pystr) :=
  [(py "osfmk/mach/machine.h", py "mach/machine.h");
   (py "osfmk/mach/vm_prot.h", py "mach/vm_prot.h")].

Definition CCTOOLS_HEADERS : list (pystr * pystr) :=
  [(py "include/mach-o/fat.h", py "mach-o/fat.h");
   (py "include/mach-o/loader.h", py "mach-o/loader.h");
   (py "include/mach-o/nlist.h", py "mach-o/nlist.h")].

(** The directory in which [apply_patches] applies each patch
    (lines 180-186 and 192 of [update_headers.py]). *)
Definition patch_dirs : gmap pystr pystr :=
  list_to_map
    [(py "mach_machine.h.patch", py "mach");
     (py "mach_vm_prot.h.patch", py "mach");
     (py "mach-o_loader.h.patch", py "mach-o");
     (py "mach-o_fat.h.patch", py "mach-o");
     (py "mach-o_nlist.h.patch", py "mach-o")].

(** A path as the constructor makes it: its components are names. *)
Definition wf_path (p : Path) : Prop :=
  Forall (λ x, x ≠ [] ∧ (SLASH ∉ x) ∧ x ≠ [DOT]) (parts p).

(** * Properties *)

Arguments py : simpl never.
Arguments str : simpl never.

(** ** Worlds *)

Lemma files_of_log e d w : files_of d (log e w) = files_of d w.
Proof. reflexivity. Qed.

Lemma files_of_put_file d name data w :
  is_Some (w_dirs w !! d) →
  files_of d (put_file d name data w) = <[name := data]> (files_of d w).
Proof.
  intros [fs Hfs]. unfold files_of, put_file, set_dirs. cbn [w_dirs].
  rewrite lookup_alter_eq, Hfs. reflexivity.
Qed.

Lemma dir_put_file d d' name data w :
  is_Some (w_dirs (put_file d name data w) !! d') ↔ is_Some (w_dirs w !! d').
Proof. unfold put_file, set_dirs. cbn [w_dirs]. apply lookup_alter_is_Some. Qed.

Lemma files_of_set_files d files w :
  is_Some (w_dirs w !! d) → files_of d (set_files d files w) = files.
Proof.
  intros [fs Hfs]. unfold files_of, set_files, set_dirs. cbn [w_dirs].
  rewrite lookup_alter_eq, Hfs. reflexivity.
Qed.

Lemma dir_set_files d d' files w :
  is_Some (w_dirs (set_files d files w) !! d') ↔ is_Some (w_dirs w !! d').
Proof. unfold set_files, set_dirs. cbn [w_dirs]. apply lookup_alter_is_Some. Qed.

Lemma dir_started E f w : w_dirs (started E f w) !! tmpdir_of E w = Some ∅.
Proof. unfold started, mkdtemp, tmpdir_of, log. cbn. apply lookup_insert_eq. Qed.

Lemma files_of_started E f w : files_of (tmpdir_of E w) (started E f w) = ∅.
Proof. unfold files_of. rewrite dir_started. reflexivity. Qed.

Lemma trace_started E f w :
  w_trace (started E f w) = w_trace w ++ [EvPrint f; EvMkdtemp (tmpdir_of E w)].
Proof. unfold started, mkdtemp, tmpdir_of, log. cbn. rewrite <- app_assoc. reflexivity. Qed.

Lemma new_events_app w w' evs : w_trace w' = w_trace w ++ evs → new_events w w' = evs.
Proof. intros H. unfold new_events. rewrite H. apply drop_app_length. Qed.

(** ** The fixture compiler's loop in closed form *)

Lemma attempted_all E abspath l :
  first_bad E abspath l = None → attempted E abspath l = l.
Proof.
  induction l as [|i l IH]; cbn; [done|].
  destruct (fst (yaml2obj E abspath i) =? 0); [|done]. intros H. by rewrite IH.
Qed.

Lemma first_bad_None E abspath l :
  first_bad E abspath l = None ↔ Forall (λ i, fst (yaml2obj E abspath i) = 0) l.
Proof.
  induction l as [|i l IH]; cbn; [by split; [constructor|]|].
  destruct (Z.eqb_spec (fst (yaml2obj E abspath i)) 0) as [Hz|Hz].
  - rewrite IH. split; [by constructor|]. by inversion 1.
  - split; [done|]. inversion 1; subst. done.
Qed.

Lemma first_bad_Some E abspath l1 i l2 :
  Forall (λ j, fst (yaml2obj E abspath j) = 0) l1 →
  fst (yaml2obj E abspath i) ≠ 0 →
  first_bad E abspath (l1 ++ i :: l2) = Some i
  ∧ attempted E abspath (l1 ++ i :: l2) = l1 ++ [i].
Proof.
  intros Hl1 Hi. induction Hl1 as [|j l1 Hj _ [IH1 IH2]]; cbn.
  - destruct (Z.eqb_spec (fst (yaml2obj E abspath i)) 0); done.
  - rewrite Hj. cbn. by rewrite IH1, IH2.
Qed.

Lemma provision_loop E abspath d l w :
  for_each l (λ i, check_call_redirect (λ _, yaml2obj E abspath i)
                     (yaml2obj_cmd abspath i) (str i) d) w
  = (match first_bad E abspath l with
     | None => Ok tt
     | Some i => Raise (CalledProcessError (fst (yaml2obj E abspath i))
                          (yaml2obj_cmd abspath i ++ py " > " ++ str i))
     end,
     prov_world E abspath d (attempted E abspath l) w).
Proof.
  revert w. induction l as [|i l IH]; intros w; [reflexivity|].
  cbn [for_each first_bad attempted].
  unfold bind at 1. unfold check_call_redirect at 1. unfold bind at 1.
  unfold sh_redirect at 1. cbn [fst snd].
  destruct (fst (yaml2obj E abspath i) =? 0) eqn:Hi.
  - unfold ret. rewrite IH. reflexivity.
  - reflexivity.
Qed.

Lemma prov_world_trace E abspath d l w :
  w_trace (prov_world E abspath d l w) = w_trace w ++ (yaml2obj_event abspath d <$> l).
Proof.
  revert w. induction l as [|i l IH]; intros w; cbn.
  - by rewrite app_nil_r.
  - unfold prov_world in IH. rewrite IH. cbn. by rewrite <- app_assoc.
Qed.

Lemma prov_world_globals E abspath d l w :
  successes (prov_world E abspath d l w) = successes w
  ∧ failures (prov_world E abspath d l w) = failures w
  ∧ w_ntmp (prov_world E abspath d l w) = w_ntmp w.
Proof.
  revert w. induction l as [|i l IH]; intros w; cbn; [done|].
  unfold prov_world in IH. by destruct (IH (prov_step E abspath d w i)) as (-> & -> & ->).
Qed.

Lemma prov_world_dir E abspath d d' l w :
  is_Some (w_dirs (prov_world E abspath d l w) !! d') ↔ is_Some (w_dirs w !! d').
Proof.
  revert w. induction l as [|i l IH]; intros w; cbn; [done|].
  unfold prov_world in IH. rewrite IH. unfold prov_step.
  apply (dir_put_file d d' (str i) (snd (yaml2obj E abspath i)) w).
Qed.

Lemma prov_world_files E abspath d l w :
  is_Some (w_dirs w !! d) →
  files_of d (prov_world E abspath d l w) = fixtures_from E abspath l (files_of d w).
Proof.
  revert w. induction l as [|i l IH]; intros w Hd; cbn; [done|].
  unfold prov_world in IH. rewrite IH.
  - unfold prov_step. by rewrite files_of_log, files_of_put_file.
  - unfold prov_step. by apply dir_put_file.
Qed.

(** ** A test case in closed form *)

Lemma diff_after_write (exp : pystr) (fs : gmap pystr pystr) :
  negb (diff_status (<[py "expected" := exp]> fs) (py "expected") (py "actual") =? 0)
  = negb (bool_decide (fs !! py "actual" = Some exp)).
Proof.
  unfold diff_status. rewrite lookup_insert_eq.
  rewrite lookup_insert_ne by (by vm_compute).
  destruct (fs !! py "actual") as [out|].
  - destruct (bool_decide_reflect (exp = out)) as [->|Hne].
    + by rewrite bool_decide_eq_true_2.
    + rewrite bool_decide_eq_false_2; [done|]. by intros [= ->].
  - by rewrite bool_decide_eq_false_2.
Qed.

Lemma dir_provisioned E f contents w :
  is_Some (w_dirs (provisioned E f contents w) !! tmpdir_of E w).
Proof.
  unfold provisioned. apply prov_world_dir. rewrite dir_started. by eexists.
Qed.

Lemma files_of_provisioned E f contents w :
  first_bad E (abspath (getcwd E) f) (seq 1 (length (re_findall_sep contents))) = None →
  files_of (tmpdir_of E w) (provisioned E f contents w)
  = fixtures E (abspath (getcwd E) f) (length (re_findall_sep contents)).
Proof.
  intros Hbad. unfold provisioned. rewrite (attempted_all _ _ _ Hbad).
  rewrite prov_world_files by (rewrite dir_started; by eexists).
  by rewrite files_of_started.
Qed.

Lemma run_case_eq E f w :
  run_case E f w =
  match read_file E (abspath (getcwd E) f) with
  | None => (Raise (OSError (abspath (getcwd E) f)), w)
  | Some contents =>
      match first_bad E (abspath (getcwd E) f) (seq 1 (length (re_findall_sep contents))) with
      | Some i =>
          (Raise (CalledProcessError (fst (yaml2obj E (abspath (getcwd E) f) i))
                    (yaml2obj_cmd (abspath (getcwd E) f) i ++ py " > " ++ str i)),
           provisioned E f contents w)
      | None =>
          match skip_to_command (splitlines contents) with
          | Raise e => (Raise e, provisioned E f contents w)
          | Ok (cl, rest) =>
              let r := sut_result E f cl contents in
              if negb (fst r =? 0)
              then (Ok (tmpdir_of E w, Some (py "CRASHED")), invoked E f cl contents w)
              else (Ok (tmpdir_of E w,
                        if bool_decide (snd r !! py "actual" = Some (expected_output rest))
                        then None
                        else Some (py "FAILED")),
                    verified E f cl contents rest w)
          end
      end
  end.
Proof.
  unfold run_case. unfold bind at 1. unfold open_read.
  destruct (read_file E (abspath (getcwd E) f)) as [contents|]; [|reflexivity].
  unfold bind at 1. unfold print at 1. unfold bind at 1.
  change (mkdtemp E (py "/tmp/bloaty-") (log (EvPrint f) w))
    with (Ok (tmpdir_of E w), started E f w).
  cbv iota beta.
  unfold bind at 1. unfold provision. rewrite provision_loop.
  fold (provisioned E f contents w).
  destruct (first_bad _ _ _) as [i|] eqn:Hbad; [reflexivity|].
  unfold bind at 1. unfold lift.
  destruct (skip_to_command (splitlines contents)) as [[cl rest]|e]; [|reflexivity].
  unfold bind at 1. unfold sh_sut at 1.
  rewrite (files_of_provisioned E f contents w Hbad).
  fold (sut_result E f cl contents). fold (invoked E f cl contents w).
  cbv zeta. destruct (negb (fst (sut_result E f cl contents) =? 0)); [reflexivity|].
  unfold bind at 1. unfold write_file at 1.
  unfold bind at 1. unfold sh_diff at 1.
  rewrite files_of_log, files_of_put_file.
  2:{ unfold invoked. apply dir_set_files. apply dir_provisioned. }
  unfold invoked at 1. rewrite files_of_log, files_of_set_files by apply dir_provisioned.
  rewrite diff_after_write. fold (verified E f cl contents rest w).
  destruct (bool_decide _); reflexivity.
Qed.

Lemma trace_provisioned E f contents w :
  w_trace (provisioned E f contents w)
  = w_trace w ++ [EvPrint f; EvMkdtemp (tmpdir_of E w)]
    ++ (yaml2obj_event (abspath (getcwd E) f) (tmpdir_of E w)
          <$> attempted E (abspath (getcwd E) f) (seq 1 (length (re_findall_sep contents)))).
Proof.
  unfold provisioned. rewrite prov_world_trace, trace_started. by rewrite <- app_assoc.
Qed.

Lemma trace_invoked E f cl contents w :
  w_trace (invoked E f cl contents w)
  = w_trace (provisioned E f contents w)
    ++ [EvShell (sut_cmd (getcwd E) cl ++ py " > actual") (tmpdir_of E w)].
Proof. reflexivity. Qed.

Lemma trace_verified E f cl contents rest w :
  w_trace (verified E f cl contents rest w)
  = w_trace (invoked E f cl contents w)
    ++ [EvWrite (path_join (tmpdir_of E w) (py "expected")) (expected_output rest);
        EvShell (py "diff -u expected actual") (tmpdir_of E w)].
Proof. unfold verified. cbn [log w_trace]. by rewrite <- app_assoc. Qed.

Lemma globals_provisioned E f contents w :
  successes (provisioned E f contents w) = successes w
  ∧ failures (provisioned E f contents w) = failures w.
Proof.
  unfold provisioned.
  destruct (prov_world_globals E (abspath (getcwd E) f) (tmpdir_of E w)
              (attempted E (abspath (getcwd E) f) (seq 1 (length (re_findall_sep contents))))
              (started E f w)) as (-> & -> & _).
  done.
Qed.

Lemma globals_invoked E f cl contents w :
  successes (invoked E f cl contents w) = successes w
  ∧ failures (invoked E f cl contents w) = failures w.
Proof. apply globals_provisioned. Qed.

Lemma globals_verified E f cl contents rest w :
  successes (verified E f cl contents rest w) = successes w
  ∧ failures (verified E f cl contents rest w) = failures w.
Proof. apply globals_provisioned. Qed.

Lemma dir_invoked E f cl contents w :
  is_Some (w_dirs (invoked E f cl contents w) !! tmpdir_of E w).
Proof. unfold invoked. cbn [log w_dirs]. apply dir_set_files, dir_provisioned. Qed.

Lemma dir_verified E f cl contents rest w :
  is_Some (w_dirs (verified E f cl contents rest w) !! tmpdir_of E w).
Proof. unfold verified. cbn [log w_dirs]. apply dir_put_file, dir_invoked. Qed.

Lemma skip_to_command_raises lines e : skip_to_command lines = Raise e → e = IndexError.
Proof.
  induction lines as [|l lines IH]; cbn; [congruence|].
  destruct l as [|c l]; [done|]. destruct (c =? DOLLAR)%N; [done|]. done.
Qed.

(** The outcome of a case does not depend on the world it starts in. *)
Lemma outcome_run_case E f w : outcome (fst (run_case E f w)) = case_outcome E f.
Proof.
  unfold case_outcome. rewrite !run_case_eq.
  destruct (read_file E _) as [contents|]; [|reflexivity].
  destruct (first_bad _ _ _); [reflexivity|].
  destruct (skip_to_command _) as [[cl rest]|e]; [|reflexivity].
  cbv zeta. destruct (negb _); [reflexivity|].
  destruct (bool_decide _); reflexivity.
Qed.

Lemma not_rmtree_elem evs d : Forall not_rmtree evs → EvRmtree d ∉ evs.
Proof. intros H Hin. by apply (proj1 (Forall_forall _ _) H) in Hin. Qed.

Lemma not_rmtree_yaml2obj abspath d l : Forall not_rmtree (yaml2obj_event abspath d <$> l).
Proof. apply Forall_fmap, Forall_forall. by intros i _. Qed.

Lemma outcome_crashed d : outcome (Ok (d, Some (py "CRASHED"))) = Crashed.
Proof. reflexivity. Qed.

Lemma outcome_failed d : outcome (Ok (d, Some (py "FAILED"))) = Mismatch.
Proof. reflexivity. Qed.

Lemma outcome_passed d : outcome (Ok (d, None)) = Pass.
Proof. reflexivity. Qed.

Lemma finish_case_failure f d tag w :
  tag ≠ [] →
  finish_case f d (Some tag) w
  = (Ok tt,
     {| w_dirs := w_dirs w;
        w_trace := w_trace w ++ [EvPrint (tag ++ py ": " ++ f);
                                 EvPrint (tag ++ py ": output in " ++ d)];
        successes := successes w;
        failures := failures w ++ [(f, d)];
        w_ntmp := w_ntmp w |}).
Proof.
  intros Htag. unfold finish_case. destruct tag as [|c tag]; [done|].
  cbn [truthy default]. unfold bind, print, append_failure, log. cbn.
  by rewrite <- app_assoc.
Qed.

Lemma finish_case_pass f d w :
  finish_case f d None w
  = (Ok tt,
     {| w_dirs := delete d (w_dirs w);
        w_trace := w_trace w ++ [EvRmtree d];
        successes := S (successes w);
        failures := failures w;
        w_ntmp := w_ntmp w |}).
Proof. reflexivity. Qed.

(** What a case whose file can be read does, by outcome. *)
Lemma TestFile_spec E f w contents :
  read_file E (abspath (getcwd E) f) = Some contents →
  let d := tmpdir_of E w in
  let w' := snd (TestFile E f w) in
  ∃ evs, w_trace w' = w_trace w ++ [EvPrint f; EvMkdtemp d] ++ evs ∧
    match outcome (fst (run_case E f w)) with
    | Pass =>
        fst (TestFile E f w) = Ok tt ∧ w_dirs w' !! d = None ∧ EvRmtree d ∈ evs
        ∧ failures w' = failures w ∧ successes w' = S (successes w)
    | Crashed | Mismatch =>
        fst (TestFile E f w) = Ok tt ∧ is_Some (w_dirs w' !! d) ∧ (EvRmtree d ∉ evs)
        ∧ failures w' = (failures w ++ [(f, d)]) ∧ successes w' = successes w
    | ProvisioningError | FormatError =>
        (∃ e, fst (TestFile E f w) = Raise e ∧ exit_status (Raise e : res unit) = 1)
        ∧ is_Some (w_dirs w' !! d) ∧ (EvRmtree d ∉ evs)
        ∧ failures w' = failures w ∧ successes w' = successes w
    | NotReadable => False
    end.
Proof.
  intros Hread. cbv zeta. unfold TestFile, bind. rewrite run_case_eq, Hread.
  destruct (first_bad _ _ _) as [i|] eqn:Hbad.
  { cbn [fst snd outcome]. eexists. split; [apply trace_provisioned|].
    split; [by eexists|]. split; [apply dir_provisioned|].
    split; [apply not_rmtree_elem, not_rmtree_yaml2obj|].
    destruct (globals_provisioned E f contents w) as [-> ->]. done. }
  destruct (skip_to_command (splitlines contents)) as [[cl rest]|e] eqn:Hskip.
  2:{ apply skip_to_command_raises in Hskip as ->.
      cbn [fst snd outcome]. eexists. split; [apply trace_provisioned|].
      split; [by eexists|]. split; [apply dir_provisioned|].
      split; [apply not_rmtree_elem, not_rmtree_yaml2obj|].
      destruct (globals_provisioned E f contents w) as [-> ->]. done. }
  cbv zeta. destruct (negb _).
  { rewrite finish_case_failure by done. cbn [fst snd]. rewrite outcome_crashed.
    cbn [w_trace w_dirs failures successes].
    rewrite trace_invoked, trace_provisioned, <- !app_assoc.
    eexists. split; [reflexivity|].
    split; [done|]. split; [apply dir_invoked|].
    split.
    { apply not_rmtree_elem. rewrite !Forall_app. split; [apply not_rmtree_yaml2obj|].
      repeat constructor. }
    destruct (globals_invoked E f cl contents w) as [-> ->]. done. }
  destruct (bool_decide _).
  - rewrite finish_case_pass. cbn [fst snd outcome truthy].
    cbn [w_trace w_dirs failures successes].
    rewrite trace_verified, trace_invoked, trace_provisioned, <- !app_assoc.
    eexists. split; [reflexivity|].
    split; [done|]. split; [apply lookup_delete_eq|].
    split; [set_solver|].
    destruct (globals_verified E f cl contents rest w) as [-> ->]. done.
  - rewrite finish_case_failure by done. cbn [fst snd]. rewrite outcome_failed.
    cbn [w_trace w_dirs failures successes].
    rewrite trace_verified, trace_invoked, trace_provisioned, <- !app_assoc.
    eexists. split; [reflexivity|].
    split; [done|]. split; [apply dir_verified|].
    split.
    { apply not_rmtree_elem. rewrite !Forall_app. split; [apply not_rmtree_yaml2obj|].
      repeat constructor. }
    destruct (globals_verified E f cl contents rest w) as [-> ->]. done.
Qed.

(** ** The suite *)

Lemma TestFile_not_readable E f w :
  read_file E (abspath (getcwd E) f) = None →
  TestFile E f w = (Raise (OSError (abspath (getcwd E) f)), w)
  ∧ case_outcome E f = NotReadable.
Proof.
  intros Hread. unfold case_outcome, TestFile, bind. rewrite !run_case_eq, Hread. done.
Qed.

(** What a case does to the globals, by its outcome. *)
Lemma TestFile_result E f w :
  match case_outcome E f with
  | Pass =>
      ∃ w', TestFile E f w = (Ok tt, w') ∧ failures w' = failures w
            ∧ successes w' = S (successes w)
  | Crashed | Mismatch =>
      ∃ w', TestFile E f w = (Ok tt, w')
            ∧ failures w' = (failures w ++ [(f, tmpdir_of E w)])
            ∧ successes w' = successes w
  | ProvisioningError | FormatError | NotReadable =>
      ∃ e w', TestFile E f w = (Raise e, w') ∧ exit_status (Raise e : res unit) = 1
              ∧ failures w' = failures w ∧ successes w' = successes w
  end.
Proof.
  destruct (read_file E (abspath (getcwd E) f)) as [contents|] eqn:Hread.
  - destruct (TestFile_spec E f w contents Hread) as (evs & _ & H).
    rewrite outcome_run_case in H.
    destruct (TestFile E f w) as [r w'] eqn:HT. cbn [fst snd] in H.
    destruct (case_outcome E f).
    + destruct H as (-> & _ & _ & ? & ?). by eexists.
    + destruct H as ((e & -> & ?) & _ & _ & ? & ?). by do 2 eexists.
    + destruct H as (-> & _ & _ & ? & ?). by eexists.
    + destruct H as (-> & _ & _ & ? & ?). by eexists.
    + destruct H as ((e & -> & ?) & _ & _ & ? & ?). by do 2 eexists.
    + done.
  - destruct (TestFile_not_readable E f w Hread) as [-> ->]. by do 2 eexists.
Qed.

Lemma for_each_app {A} (l1 l2 : list A) body w :
  for_each (l1 ++ l2) body w
  = match for_each l1 body w with
    | (Ok _, w') => for_each l2 body w'
    | (Raise e, w') => (Raise e, w')
    end.
Proof.
  revert w. induction l1 as [|x l1 IH]; intros w; [reflexivity|].
  cbn [app for_each]. unfold bind.
  destruct (body x w) as [[[]|e] w']; [apply IH|reflexivity].
Qed.

Lemma TestArg_discover E arg w : TestArg E arg w = for_each (discover E arg) (TestFile E) w.
Proof.
  unfold TestArg, discover. destruct (dir_tree E arg); [reflexivity|].
  cbn [for_each]. unfold bind, ret. by destruct (TestFile E arg w) as [[[]|e] w'].
Qed.

(** The loop over the arguments runs the discovered cases one after the other. *)
Lemma for_each_TestArg E args w :
  for_each args (TestArg E) w = for_each (discovered E args) (TestFile E) w.
Proof.
  revert w. induction args as [|arg args IH]; intros w; [reflexivity|].
  unfold discovered. cbn [for_each fmap list_fmap concat]. rewrite for_each_app.
  unfold bind. rewrite TestArg_discover.
  destruct (for_each (discover E arg) (TestFile E) w) as [[[]|e] w']; [apply IH|reflexivity].
Qed.

(** A case that raises ends the loop: no later case is run. *)
Lemma for_each_raise {A} (l1 l2 : list A) x body w w1 e w2 :
  for_each l1 body w = (Ok tt, w1) →
  body x w1 = (Raise e, w2) →
  for_each (l1 ++ x :: l2) body w = (Raise e, w2).
Proof.
  intros H1 H2. rewrite for_each_app, H1. cbn [for_each]. unfold bind. by rewrite H2.
Qed.

Lemma run_files_pass E fs w :
  Forall (λ f, case_outcome E f = Pass) fs →
  ∃ w', for_each fs (TestFile E) w = (Ok tt, w') ∧ failures w' = failures w.
Proof.
  intros H. revert w. induction H as [|f fs Hf _ IH]; intros w; [by eexists|].
  pose proof (TestFile_result E f w) as HT. rewrite Hf in HT.
  destruct HT as (w1 & HT & Hfl & _). destruct (IH w1) as (w' & Hw' & Hfl').
  exists w'. cbn [for_each]. unfold bind. rewrite HT. split; [done|congruence].
Qed.

Lemma run_files_fail E fs w :
  Exists (λ f, case_outcome E f ≠ Pass) fs →
  (∃ w', for_each fs (TestFile E) w = (Ok tt, w') ∧ failures w' ≠ [])
  ∨ (∃ e w', for_each fs (TestFile E) w = (Raise e, w') ∧ exit_status (Raise e : res unit) = 1).
Proof.
  assert (Hmono : ∀ fs w, failures w ≠ [] →
    (∃ w', for_each fs (TestFile E) w = (Ok tt, w') ∧ failures w' ≠ [])
    ∨ (∃ e w', for_each fs (TestFile E) w = (Raise e, w') ∧ exit_status (Raise e : res unit) = 1)).
  { clear. intros fs. induction fs as [|f fs IH]; intros w Hw; [left; by eexists|].
    cbn [for_each]. unfold bind. pose proof (TestFile_result E f w) as HT.
    destruct (case_outcome E f).
    1: destruct HT as (w1 & -> & Hfl & _); apply IH; congruence.
    2,3: destruct HT as (w1 & -> & Hfl & _); apply IH; rewrite Hfl;
         by destruct (failures w).
    all: destruct HT as (e & w1 & -> & He & _); right; by do 2 eexists. }
  intros H. revert w. induction H as [f fs Hf|f fs _ IH]; intros w.
  - cbn [for_each]. unfold bind. pose proof (TestFile_result E f w) as HT.
    destruct (case_outcome E f); [done|..].
    2,3: destruct HT as (w1 & -> & Hfl & _); apply Hmono; rewrite Hfl;
         by destruct (failures w).
    all: destruct HT as (e & w1 & -> & He & _); right; by do 2 eexists.
  - cbn [for_each]. unfold bind. pose proof (TestFile_result E f w) as HT.
    destruct (case_outcome E f).
    1,3,4: destruct HT as (w1 & -> & _); apply IH.
    all: destruct HT as (e & w1 & -> & He & _); right; by do 2 eexists.
Qed.

Lemma for_each_print {A} (l : list A) (line : A → pystr) w :
  ∃ w', for_each l (λ x, print (line x)) w = (Ok tt, w').
Proof.
  revert w. induction l as [|x l IH]; intros w; [by eexists|].
  cbn [for_each]. unfold bind, print at 1. apply IH.
Qed.

Lemma main_cons E arg args w :
  main E (arg :: args) w
  = match for_each (discovered E (arg :: args)) (TestFile E) w with
    | (Ok _, w') =>
        match failures w' with
        | [] => (Ok tt, log (EvPrint (success_line (successes w'))) w')
        | _ :: _ =>
            (Raise (SystemExit 1),
             snd (for_each (failures w') (λ f, print (failure_item f))
                    (log (EvPrint (failure_line (successes w') (length (failures w')))) w')))
        end
    | (Raise e, w') => (Raise e, w')
    end.
Proof.
  unfold main, bind. rewrite for_each_TestArg.
  destruct (for_each _ _ w) as [[[]|e] w']; [|reflexivity].
  destruct (failures w') as [|x fl] eqn:Hfl; [reflexivity|].
  unfold print at 1.
  destruct (for_each_print (x :: fl) failure_item
              (log (EvPrint (failure_line (successes w') (length (x :: fl)))) w'))
    as (w'' & Hw'').
  rewrite Hw''. reflexivity.
Qed.

(** The failure list grows in the order in which the cases are run. *)
Lemma failures_in_order E fs w w' :
  for_each fs (TestFile E) w = (Ok tt, w') →
  fst <$> failures w'
  = (fst <$> failures w)
    ++ filter (λ f, case_outcome E f = Crashed ∨ case_outcome E f = Mismatch) fs.
Proof.
  revert w. induction fs as [|f fs IH]; intros w.
  - intros [= ->]. by rewrite app_nil_r.
  - cbn [for_each]. unfold bind. pose proof (TestFile_result E f w) as HT.
    destruct (case_outcome E f) eqn:Ho.
    + destruct HT as (w1 & -> & Hfl & _). intros H%IH. rewrite H, Hfl.
      rewrite filter_cons_False; [done|]. rewrite Ho. by intros [|].
    + destruct HT as (e & w1 & -> & _). intros [=].
    + destruct HT as (w1 & -> & Hfl & _). intros H%IH. rewrite H, Hfl.
      rewrite filter_cons_True by (rewrite Ho; by left).
      by rewrite fmap_app, <- app_assoc.
    + destruct HT as (w1 & -> & Hfl & _). intros H%IH. rewrite H, Hfl.
      rewrite filter_cons_True by (rewrite Ho; by right).
      by rewrite fmap_app, <- app_assoc.
    + destruct HT as (e & w1 & -> & _). intros [=].
    + destruct HT as (e & w1 & -> & _). intros [=].
Qed.

(** ** Strings *)

Lemma py_inj s1 s2 : py s1 = py s2 → s1 = s2.
Proof.
  unfold py. intros H.
  rewrite <- (string_of_list_ascii_of_string s1), <- (string_of_list_ascii_of_string s2).
  f_equal. revert H. generalize (list_ascii_of_string s1) (list_ascii_of_string s2).
  induction l as [|a l IH]; intros [|b l']; cbn; try done.
  intros [= Hab Hl]. f_equal; [|by apply IH].
  by rewrite <- (ascii_N_embedding a), <- (ascii_N_embedding b), Hab.
Qed.

Lemma str_inj n m : str n = str m → n = m.
Proof.
  intros H%py_inj.
  assert (Hg : ∀ k, match NilZero.uint_of_string (NilZero.string_of_uint (Nat.to_uint k)) with
                    | Some d => Nat.of_uint d
                    | None => 0%nat
                    end = k).
  { intros k. destruct (Nat.to_uint k) eqn:Hk;
      [rewrite NilZero.usu_nil; rewrite <- (Unsigned.of_to k), Hk; reflexivity|..];
      (rewrite NilZero.usu by done; rewrite <- Hk; apply Unsigned.of_to). }
  rewrite <- (Hg n), <- (Hg m), H. reflexivity.
Qed.

Lemma startswith_app p s t : startswith p s = true → startswith p (s ++ t) = true.
Proof.
  revert s. induction p as [|a p IH]; intros [|b s]; cbn; try done.
  intros [-> H]%andb_prop. cbn. by apply IH.
Qed.

Lemma split_on_first sep s :
  ∃ first others, split_on sep s = first :: others ∧ ∃ t, s = first ++ t.
Proof.
  induction s as [|c s (first & others & IH & t & Ht)]; cbn.
  - exists [], []. split; [done|]. by exists [].
  - destruct (c =? sep)%N.
    + exists [], (split_on sep s). split; [done|]. by eexists.
    + rewrite IH. exists (c :: first), others. split; [done|]. exists t. by rewrite Ht.
Qed.

(** The scan of the regular expression counts the lines that begin with the
    marker: at a position where a line starts, the line counts if it begins
    with three dashes; elsewhere only the following lines count. *)
Lemma findall_from_lines n : ∀ s bol, (length s < n)%nat →
  length (findall_from bol 0 s)
  = match split_on LF s with
    | first :: others =>
        ((if bol && startswith [DASH; DASH; DASH] first then 1 else 0)
         + length (List.filter (startswith [DASH; DASH; DASH]) others))%nat
    | [] => 0%nat
    end.
Proof.
  induction n as [|n IH]; intros s bol Hn; [lia|].
  destruct s as [|c s]; [cbn; by rewrite andb_false_r|].
  cbn [findall_from].
  destruct (bol && startswith [DASH; DASH; DASH] (c :: s)) eqn:Hm.
  - apply andb_prop in Hm as [-> Hm].
    destruct s as [|c2 [|c3 s]]; cbn [startswith] in Hm;
      try (by rewrite ?andb_false_r in Hm).
    apply andb_prop in Hm as [Hc%N.eqb_eq Hm]. apply andb_prop in Hm as [Hc2%N.eqb_eq Hm].
    apply andb_prop in Hm as [Hc3%N.eqb_eq _]. subst c c2 c3.
    cbn [findall_from length]. change (DASH =? LF)%N with false.
    rewrite (IH s false) by (cbn in Hn; lia).
    cbn [split_on]. change (DASH =? LF)%N with false. cbv iota.
    destruct (split_on_first LF s) as (first & others & -> & _).
    cbn [andb startswith]. rewrite !N.eqb_refl. reflexivity.
  - rewrite (IH s (c =? LF)%N) by (cbn in Hn; lia).
    cbn [split_on]. destruct (split_on_first LF s) as (first & others & Hs & t & Ht).
    rewrite Hs. destruct (c =? LF)%N eqn:Hc.
    + cbn [List.filter andb length]. rewrite andb_false_r.
      destruct (startswith _ first); reflexivity.
    + cbn [andb]. destruct (bol && startswith [DASH; DASH; DASH] (c :: first)) eqn:Hm'; [|done].
      apply andb_prop in Hm' as [-> Hm']. cbn [andb] in Hm.
      apply (startswith_app _ _ t) in Hm'. rewrite Ht in Hm. cbn [app] in Hm'. congruence.
Qed.

Lemma file_count_lines contents :
  length (re_findall_sep contents) = lines_with_marker contents.
Proof.
  unfold re_findall_sep, lines_with_marker.
  rewrite (findall_from_lines (S (length contents))) by lia.
  destruct (split_on_first LF contents) as (first & others & -> & _).
  cbn [andb List.filter]. destruct (startswith _ first); reflexivity.
Qed.

(** ** The fixtures *)

Lemma fixtures_from_dom (E : env) (abspath : pystr) (l : list nat) (fs : gmap pystr pystr) :
  dom (fixtures_from E abspath l fs) = (list_to_set (str <$> l) ∪ dom fs : gset pystr).
Proof.
  revert fs. induction l as [|i l IH]; intros fs; cbn.
  - by rewrite (left_id_L ∅ (∪)).
  - unfold fixtures_from in IH. rewrite IH, dom_insert_L.
    rewrite !(assoc_L (∪)). f_equal. apply (comm_L (∪)).
Qed.

Lemma fixtures_dom (E : env) (abspath : pystr) (n : nat) :
  dom (fixtures E abspath n) = (list_to_set (str <$> seq 1 n) : gset pystr).
Proof. unfold fixtures. by rewrite fixtures_from_dom, dom_empty_L, (right_id_L ∅ (∪)). Qed.

Lemma fixtures_size (E : env) (abspath : pystr) (n : nat) : size (fixtures E abspath n) = n.
Proof.
  rewrite <- size_dom, fixtures_dom, size_list_to_set.
  - by rewrite length_fmap, length_seq.
  - apply NoDup_fmap_2; [intros a b; apply str_inj|apply NoDup_seq].
Qed.

Lemma provision_eq E abspath d n w :
  provision E abspath d n w
  = (match first_bad E abspath (seq 1 n) with
     | None => Ok tt
     | Some i => Raise (CalledProcessError (fst (yaml2obj E abspath i))
                          (yaml2obj_cmd abspath i ++ py " > " ++ str i))
     end,
     prov_world E abspath d (attempted E abspath (seq 1 n)) w).
Proof. unfold provision. apply provision_loop. Qed.

(** C3 (amended).  The fixture count is the number of lines that begin with
    the marker of three dashes (lines being what LF separates); when the
    fixture compiler succeeds for every document, the new, empty working
    directory holds exactly the files named by the unpadded decimal numbers
    1..N, no more and no fewer, made by N calls in the order of the indices. *)
Theorem fixture_count_and_artifacts (E : env) (f contents : pystr) (w : world) :
  let abspath := abspath (getcwd E) f in
  let n := length (re_findall_sep contents) in
  let d := tmpdir_of E w in
  let w1 := started E f w in
  let w2 := snd (provision E abspath d n w1) in
  fst (provision E abspath d n w1) = Ok tt →
  n = lines_with_marker contents
  ∧ files_of d w1 = ∅
  ∧ dom (files_of d w2) = (list_to_set (str <$> seq 1 n) : gset pystr)
  ∧ size (files_of d w2) = n
  ∧ (∀ i j, str i = str j → i = j)
  ∧ new_events w1 w2 = (yaml2obj_event abspath d <$> seq 1 n).
Proof.
  intros abspath n d w1 w2 Hok. subst w2. rewrite provision_eq in Hok |- *. cbn [fst snd] in *.
  destruct (first_bad E abspath (seq 1 n)) eqn:Hbad; [done|].
  rewrite (attempted_all _ _ _ Hbad).
  assert (Hd : is_Some (w_dirs w1 !! d)) by (unfold w1, d; rewrite dir_started; by eexists).
  rewrite (prov_world_files _ _ _ _ _ Hd). unfold w1 at 2 3 4, d at 2 3 4.
  rewrite files_of_started. fold (fixtures E abspath n).
  split; [apply file_count_lines|]. split; [apply files_of_started|].
  split; [apply fixtures_dom|]. split; [apply fixtures_size|].
  split; [apply str_inj|].
  apply new_events_app, prov_world_trace.
Qed.

(** ** The command line and the expected output *)

Lemma skip_to_command_Ok lines cl rest :
  skip_to_command lines = Ok (cl, rest) →
  ∃ before, lines = before ++ cl :: rest ∧ Forall skipped_line before
            ∧ startswith [DOLLAR] cl = true.
Proof.
  induction lines as [|l lines IH]; cbn [skip_to_command]; [done|].
  destruct l as [|c l].
  - intros (before & -> & Hb & Hcl)%IH. exists ([] :: before).
    split; [done|]. split; [by constructor|done].
  - destruct (c =? DOLLAR)%N eqn:Hc.
    + intros [= <- <-]. exists []. split; [done|]. split; [constructor|].
      cbn [startswith]. by rewrite N.eqb_sym, Hc.
    + intros (before & -> & Hb & Hcl)%IH. exists ((c :: l) :: before).
      split; [done|]. split; [|done]. constructor; [|done].
      unfold skipped_line. cbn [startswith]. by rewrite N.eqb_sym, Hc.
Qed.

Lemma skip_to_command_none lines :
  Forall skipped_line lines → skip_to_command lines = Raise IndexError.
Proof.
  induction 1 as [|l lines Hl _ IH]; [done|]. cbn [skip_to_command].
  destruct l as [|c l]; [done|]. unfold skipped_line in Hl. cbn [startswith] in Hl.
  rewrite N.eqb_sym, andb_true_r in Hl. by rewrite Hl.
Qed.

Lemma expected_output_spec lines : expected_output lines = spec_expected_output lines.
Proof.
  unfold expected_output, spec_expected_output. destruct lines as [|x lines]; [done|].
  revert x. induction lines as [|y lines IH]; intros x.
  - cbn. by rewrite app_nil_r.
  - change (str_join [LF] (x :: y :: lines)) with (x ++ [LF] ++ str_join [LF] (y :: lines)).
    rewrite <- !app_assoc, IH. cbn [fmap list_fmap concat]. by rewrite <- !app_assoc.
Qed.

(** ** The events of a case *)

Lemma TestFile_trace E f contents w :
  read_file E (abspath (getcwd E) f) = Some contents →
  w_trace (snd (TestFile E f w))
  = w_trace w ++ [EvPrint f; EvMkdtemp (tmpdir_of E w)]
    ++ (yaml2obj_event (abspath (getcwd E) f) (tmpdir_of E w)
          <$> attempted E (abspath (getcwd E) f) (seq 1 (length (re_findall_sep contents))))
    ++ closing_events E f contents (tmpdir_of E w).
Proof.
  intros Hread. unfold TestFile, bind, closing_events. rewrite run_case_eq, Hread.
  destruct (first_bad _ _ _) as [i|] eqn:Hbad.
  { cbn [snd]. by rewrite trace_provisioned, app_nil_r. }
  destruct (skip_to_command (splitlines contents)) as [[cl rest]|e] eqn:Hskip.
  2:{ cbn [snd]. by rewrite trace_provisioned, app_nil_r. }
  cbv zeta. destruct (negb _).
  { rewrite finish_case_failure by done. cbn [snd w_trace].
    rewrite trace_invoked, trace_provisioned, <- !app_assoc. reflexivity. }
  destruct (bool_decide _).
  - rewrite finish_case_pass. cbn [snd w_trace].
    rewrite trace_verified, trace_invoked, trace_provisioned, <- !app_assoc. reflexivity.
  - rewrite finish_case_failure by done. cbn [snd w_trace].
    rewrite trace_verified, trace_invoked, trace_provisioned, <- !app_assoc. reflexivity.
Qed.

Lemma TestFile_new_events E f contents w :
  read_file E (abspath (getcwd E) f) = Some contents →
  new_events w (snd (TestFile E f w))
  = [EvPrint f; EvMkdtemp (tmpdir_of E w)]
    ++ (yaml2obj_event (abspath (getcwd E) f) (tmpdir_of E w)
          <$> attempted E (abspath (getcwd E) f) (seq 1 (length (re_findall_sep contents))))
    ++ closing_events E f contents (tmpdir_of E w).
Proof. intros Hread. apply new_events_app. by apply TestFile_trace. Qed.

(** C4.  The expected output is made of the lines that follow the command
    line, each followed by one newline, and is a single newline when no line
    follows; this is the text the harness writes to the file [expected]. *)
Theorem expected_output_rejoined (contents cl : pystr) (rest : list pystr) :
  skip_to_command (splitlines contents) = Ok (cl, rest) →
  (∃ before, splitlines contents = before ++ cl :: rest ∧ Forall skipped_line before
             ∧ startswith [DOLLAR] cl = true)
  ∧ expected_output rest = spec_expected_output rest
  ∧ (rest = [] → expected_output rest = [LF])
  ∧ (∀ E f w path data,
       read_file E (abspath (getcwd E) f) = Some contents →
       EvWrite path data ∈ new_events w (snd (TestFile E f w)) →
       path = path_join (tmpdir_of E w) (py "expected")
       ∧ data = spec_expected_output rest).
Proof.
  intros Hskip. split; [by apply skip_to_command_Ok|].
  split; [apply expected_output_spec|]. split; [by intros ->|].
  intros E f w path data Hread. rewrite (TestFile_new_events _ _ _ _ Hread).
  rewrite !elem_of_app, !elem_of_cons, elem_of_nil, list_elem_of_fmap.
  intros [[?|[?|[]]]|[(i & ? & _)|Hin]]; try done.
  unfold closing_events in Hin. rewrite Hskip in Hin.
  destruct (first_bad _ _ _); [by apply elem_of_nil in Hin|].
  cbv zeta in Hin. rewrite elem_of_cons in Hin. destruct Hin as [?|Hin]; [done|].
  destruct (negb _).
  { rewrite !elem_of_cons, elem_of_nil in Hin. by destruct Hin as [?|[?|[]]]. }
  rewrite elem_of_app, !elem_of_cons, elem_of_nil in Hin.
  destruct Hin as [[[= -> ->]|[?|[]]]|Hin]; [by rewrite expected_output_spec|done|].
  destruct (bool_decide _); rewrite !elem_of_cons, elem_of_nil in Hin.
  - by destruct Hin as [?|[]].
  - by destruct Hin as [?|[?|[]]].
Qed.

(** ** The paths that end in an exception *)

Lemma first_bad_seq E abspath n i :
  (1 ≤ i ≤ n)%nat →
  (∀ j, (1 ≤ j < i)%nat → fst (yaml2obj E abspath j) = 0) →
  fst (yaml2obj E abspath i) ≠ 0 →
  first_bad E abspath (seq 1 n) = Some i ∧ attempted E abspath (seq 1 n) = seq 1 i.
Proof.
  intros Hi Hok Hbad.
  assert (Hn : seq 1 n = seq 1 (i - 1) ++ i :: seq (S i) (n - i)).
  { replace n with ((i - 1) + S (n - i))%nat at 1 by lia.
    rewrite seq_app. cbn [seq]. by replace (1 + (i - 1))%nat with i by lia. }
  assert (Hi' : seq 1 i = seq 1 (i - 1) ++ [i]).
  { replace i with ((i - 1) + 1)%nat at 1 by lia.
    rewrite seq_app. cbn [seq]. by replace (1 + (i - 1))%nat with i by lia. }
  rewrite Hn, Hi'. apply first_bad_Some; [|done].
  apply Forall_forall. intros j Hj%elem_of_seq. apply Hok. lia.
Qed.

Lemma TestFile_format_error E f contents w :
  read_file E (abspath (getcwd E) f) = Some contents →
  Forall (λ i, fst (yaml2obj E (abspath (getcwd E) f) i) = 0)
    (seq 1 (length (re_findall_sep contents))) →
  Forall skipped_line (splitlines contents) →
  TestFile E f w = (Raise IndexError, provisioned E f contents w)
  ∧ outcome (fst (run_case E f w)) = FormatError
  ∧ new_events w (provisioned E f contents w)
    = [EvPrint f; EvMkdtemp (tmpdir_of E w)]
      ++ (yaml2obj_event (abspath (getcwd E) f) (tmpdir_of E w)
            <$> seq 1 (length (re_findall_sep contents))).
Proof.
  intros Hread Hok%first_bad_None Hskip%skip_to_command_none.
  unfold TestFile, bind. rewrite run_case_eq, Hread, Hok, Hskip.
  split; [done|]. split; [done|].
  apply new_events_app. by rewrite trace_provisioned, (attempted_all _ _ _ Hok).
Qed.

Lemma TestFile_provisioning_error E f contents w i :
  read_file E (abspath (getcwd E) f) = Some contents →
  (1 ≤ i ≤ length (re_findall_sep contents))%nat →
  (∀ j, (1 ≤ j < i)%nat → fst (yaml2obj E (abspath (getcwd E) f) j) = 0) →
  fst (yaml2obj E (abspath (getcwd E) f) i) ≠ 0 →
  TestFile E f w
  = (Raise (CalledProcessError (fst (yaml2obj E (abspath (getcwd E) f) i))
              (yaml2obj_cmd (abspath (getcwd E) f) i ++ py " > " ++ str i)),
     provisioned E f contents w)
  ∧ outcome (fst (run_case E f w)) = ProvisioningError
  ∧ new_events w (provisioned E f contents w)
    = [EvPrint f; EvMkdtemp (tmpdir_of E w)]
      ++ (yaml2obj_event (abspath (getcwd E) f) (tmpdir_of E w) <$> seq 1 i).
Proof.
  intros Hread Hi Hok Hbad.
  destruct (first_bad_seq E _ _ _ Hi Hok Hbad) as [Hfb Hat].
  unfold TestFile, bind. rewrite run_case_eq, Hread, Hfb.
  split; [done|]. split; [done|].
  apply new_events_app. by rewrite trace_provisioned, Hat.
Qed.

(** An exception in a discovered case is the end of the process. *)
Lemma run_raise E args fs1 f fs2 w e w' :
  discovered E args = fs1 ++ f :: fs2 →
  for_each fs1 (TestFile E) init_world = (Ok tt, w) →
  TestFile E f w = (Raise e, w') →
  run E args = (Raise e, w').
Proof.
  intros Hd H1 H2. destruct args as [|arg args]; [by destruct fs1|].
  unfold run. rewrite main_cons, Hd. by rewrite (for_each_raise _ _ _ _ _ _ _ _ H1 H2).
Qed.

Lemma files_provisioned_all E f contents w :
  Forall (λ i, fst (yaml2obj E (abspath (getcwd E) f) i) = 0)
    (seq 1 (length (re_findall_sep contents))) →
  files_of (tmpdir_of E w) (provisioned E f contents w)
  = fixtures E (abspath (getcwd E) f) (length (re_findall_sep contents)).
Proof. intros Hok%first_bad_None. by apply files_of_provisioned. Qed.

(** ** The life of the working directory and the exit status *)

Lemma run_exit_status E args :
  match args with
  | [] => run E args = (Raise (SystemExit 1), log (EvPrint usage) init_world)
  | _ :: _ =>
      if bool_decide (Forall (λ f, case_outcome E f = Pass) (discovered E args))
      then exit_status (fst (run E args)) = 0
      else exit_status (fst (run E args)) = 1
  end.
Proof.
  destruct args as [|arg args]; [reflexivity|].
  unfold run. rewrite main_cons. case_bool_decide as Hall.
  - destruct (run_files_pass E _ init_world Hall) as (w' & -> & ->). reflexivity.
  - apply not_Forall_Exists in Hall; [|intros f; apply _].
    destruct (run_files_fail E _ init_world Hall) as [(w' & -> & Hfl)|(e & w' & -> & He)].
    + by destruct (failures w').
    + done.
Qed.

(** C7.  The process ends with status 0 exactly when it was given arguments
    and every discovered case passed; otherwise it ends with status 1: with no
    argument it prints the usage line, runs no case and exits with 1, and a
    case that does not pass makes the status 1. *)
Theorem exit_status_zero_iff_all_pass (E : env) (args : list pystr) :
  (exit_status (fst (run E args)) = 0
   ↔ args ≠ [] ∧ Forall (λ f, case_outcome E f = Pass) (discovered E args))
  ∧ (exit_status (fst (run E args)) = 0 ∨ exit_status (fst (run E args)) = 1)
  ∧ run E [] = (Raise (SystemExit 1), log (EvPrint usage) init_world)
  ∧ (Exists (λ f, case_outcome E f ≠ Pass) (discovered E args) →
     exit_status (fst (run E args)) = 1).
Proof.
  pose proof (run_exit_status E args) as H.
  destruct args as [|arg args].
  - rewrite H. cbn. split; [split; [done|by intros [? _]]|]. split; [by right|].
    split; [done|]. done.
  - case_bool_decide as Hall.
    + split; [split; [done|by intros _]|]. split; [by left|]. split; [reflexivity|].
      intros Hex. by apply Exists_not_Forall in Hex.
    + rewrite H. split; [split; [done|by intros [_ ?]]|]. split; [by right|].
      split; [reflexivity|]. done.
Qed.

Lemma workdir_of_case (E : env) (f contents : pystr) (w : world) :
  read_file E (abspath (getcwd E) f) = Some contents →
  let d := tmpdir_of E w in
  let o := outcome (fst (run_case E f w)) in
  let w' := snd (TestFile E f w) in
  EvMkdtemp d ∈ new_events w w'
  ∧ (w_dirs w' !! d = None ↔ o = Pass)
  ∧ (EvRmtree d ∈ new_events w w' ↔ o = Pass)
  ∧ (o = ProvisioningError ∨ o = Crashed ∨ o = Mismatch → is_Some (w_dirs w' !! d))
  ∧ (o = Crashed ∨ o = Mismatch → failures w' = (failures w ++ [(f, d)])).
Proof.
  intros Hread d o w'. destruct (TestFile_spec E f w contents Hread) as (evs & Htr & H).
  fold d w' o in Htr, H. rewrite (new_events_app _ _ _ Htr).
  assert (He : EvRmtree d ∈ [EvPrint f; EvMkdtemp d] ++ evs ↔ EvRmtree d ∈ evs).
  { rewrite elem_of_app, !elem_of_cons, elem_of_nil. intuition congruence. }
  rewrite He. split; [rewrite elem_of_app, !elem_of_cons; tauto|].
  destruct o.
  - destruct H as (_ & Hd & Hin & _).
    split; [by split|]. split; [by split|]. split; [intros [?|[?|?]]; done|intros [?|?]; done].
  - destruct H as (_ & [x Hx] & Hin & _).
    split; [split; [congruence|done]|]. split; [done|]. split; [by eexists|].
    intros [?|?]; done.
  - destruct H as (_ & [x Hx] & Hin & Hfl & _).
    split; [split; [congruence|done]|]. split; [done|]. split; [by eexists|]. done.
  - destruct H as (_ & [x Hx] & Hin & Hfl & _).
    split; [split; [congruence|done]|]. split; [done|]. split; [by eexists|]. done.
  - destruct H as (_ & [x Hx] & Hin & _).
    split; [split; [congruence|done]|]. split; [done|]. split; [by eexists|].
    intros [?|?]; done.
  - done.
Qed.

(** C1.  The working directory of a case is gone at the end of the case
    exactly when the case passed; after a provisioning error, a crash or a
    mismatch it is still there, and a crashed or mismatching case appends
    (filename, directory) at the end of the failure list, so that the list
    names the failed cases in the order in which they were run. *)
Theorem workdir_deleted_iff_pass (E : env) (f contents : pystr) (w : world) :
  read_file E (abspath (getcwd E) f) = Some contents →
  let d := tmpdir_of E w in
  let o := outcome (fst (run_case E f w)) in
  let w' := snd (TestFile E f w) in
  EvMkdtemp d ∈ new_events w w'
  ∧ (w_dirs w' !! d = None ↔ o = Pass)
  ∧ (EvRmtree d ∈ new_events w w' ↔ o = Pass)
  ∧ (o = ProvisioningError ∨ o = Crashed ∨ o = Mismatch → is_Some (w_dirs w' !! d))
  ∧ (o = Crashed ∨ o = Mismatch → failures w' = (failures w ++ [(f, d)]))
  ∧ (∀ fs w0 w1,
       for_each fs (TestFile E) w0 = (Ok tt, w1) →
       fst <$> failures w1
       = (fst <$> failures w0)
         ++ filter (λ g, case_outcome E g = Crashed ∨ case_outcome E g = Mismatch) fs).
Proof.
  intros Hread d o w'.
  destruct (workdir_of_case E f contents w Hread) as (H1 & H2 & H3 & H4 & H5).
  repeat (split; [assumption|]). intros fs w0 w1. apply failures_in_order.
Qed.

(** C9 (amended).  When the fixture compiler exits with status 0 for every
    document of the file and no line starts with the dollar sign (an empty
    file included), the case raises [IndexError]; nobody catches it: the
    process ends there with status 1, the globals are as the earlier cases
    left them and no summary line is printed. *)
Theorem no_command_line_is_fatal (E : env) (f contents : pystr) (w : world) :
  read_file E (abspath (getcwd E) f) = Some contents →
  Forall (λ i, fst (yaml2obj E (abspath (getcwd E) f) i) = 0)
    (seq 1 (length (re_findall_sep contents))) →
  Forall skipped_line (splitlines contents) →
  ∃ w', TestFile E f w = (Raise IndexError, w')
    ∧ outcome (fst (run_case E f w)) = FormatError
    ∧ failures w' = failures w ∧ successes w' = successes w
    ∧ new_events w w'
      = [EvPrint f; EvMkdtemp (tmpdir_of E w)]
        ++ (yaml2obj_event (abspath (getcwd E) f) (tmpdir_of E w)
              <$> seq 1 (length (re_findall_sep contents)))
    ∧ ∀ args fs1 fs2,
        discovered E args = fs1 ++ f :: fs2 →
        for_each fs1 (TestFile E) init_world = (Ok tt, w) →
        run E args = (Raise IndexError, w') ∧ exit_status (fst (run E args)) = 1.
Proof.
  intros Hread Hok Hskip.
  destruct (TestFile_format_error E f contents w Hread Hok Hskip) as (HT & Ho & Hev).
  exists (provisioned E f contents w). split; [done|]. split; [done|].
  destruct (globals_provisioned E f contents w) as [Hs Hf].
  split; [done|]. split; [done|]. split; [done|].
  intros args fs1 fs2 Hd H1. by rewrite (run_raise _ _ _ _ _ _ _ _ Hd H1 HT).
Qed.

(** C10 (amended).  The directory is made and the fixtures are compiled
    before the command line is looked for: for a file without a command
    line, when the fixture compiler exits with status 0 for every document,
    it is called for each of the N documents, in order, then the case
    raises [IndexError]; the directory with its N files stays, nothing
    removes it, and the case is not in the failure list when the process
    ends. *)
Theorem format_failure_leaves_directory (E : env) (f contents : pystr) (w : world) :
  read_file E (abspath (getcwd E) f) = Some contents →
  Forall (λ i, fst (yaml2obj E (abspath (getcwd E) f) i) = 0)
    (seq 1 (length (re_findall_sep contents))) →
  Forall skipped_line (splitlines contents) →
  let d := tmpdir_of E w in
  let n := length (re_findall_sep contents) in
  ∃ w', TestFile E f w = (Raise IndexError, w')
    ∧ new_events w w'
      = [EvPrint f; EvMkdtemp d] ++ (yaml2obj_event (abspath (getcwd E) f) d <$> seq 1 n)
    ∧ is_Some (w_dirs w' !! d)
    ∧ dom (files_of d w') = (list_to_set (str <$> seq 1 n) : gset pystr)
    ∧ (EvRmtree d ∉ new_events w w')
    ∧ failures w' = failures w
    ∧ ∀ args fs1 fs2,
        discovered E args = fs1 ++ f :: fs2 →
        for_each fs1 (TestFile E) init_world = (Ok tt, w) →
        run E args = (Raise IndexError, w').
Proof.
  intros Hread Hok Hskip d n.
  destruct (TestFile_format_error E f contents w Hread Hok Hskip) as (HT & Ho & Hev).
  exists (provisioned E f contents w). split; [done|]. split; [done|].
  split; [apply dir_provisioned|].
  split; [unfold d; rewrite (files_provisioned_all _ _ _ _ Hok); apply fixtures_dom|].
  split.
  { rewrite Hev. apply not_rmtree_elem. apply Forall_app. split; [repeat constructor|].
    apply not_rmtree_yaml2obj. }
  split; [apply globals_provisioned|].
  intros args fs1 fs2 Hd H1. apply (run_raise _ _ _ _ _ _ _ _ Hd H1 HT).
Qed.

(** C2 (amended).  When the fixture compiler exits with a status other than
    zero for document i, the documents after i are not tried and the case
    raises [CalledProcessError]; nobody catches it: the case is not added to
    the failure list, its directory stays, no later case is run and the
    process ends with status 1. *)
Theorem provisioning_error_aborts_run (E : env) (f contents : pystr) (w : world) (i : nat) :
  read_file E (abspath (getcwd E) f) = Some contents →
  (1 ≤ i ≤ length (re_findall_sep contents))%nat →
  (∀ j, (1 ≤ j < i)%nat → fst (yaml2obj E (abspath (getcwd E) f) j) = 0) →
  fst (yaml2obj E (abspath (getcwd E) f) i) ≠ 0 →
  let d := tmpdir_of E w in
  let e := CalledProcessError (fst (yaml2obj E (abspath (getcwd E) f) i))
             (yaml2obj_cmd (abspath (getcwd E) f) i ++ py " > " ++ str i) in
  ∃ w', TestFile E f w = (Raise e, w')
    ∧ outcome (fst (run_case E f w)) = ProvisioningError
    ∧ new_events w w'
      = [EvPrint f; EvMkdtemp d] ++ (yaml2obj_event (abspath (getcwd E) f) d <$> seq 1 i)
    ∧ failures w' = failures w ∧ successes w' = successes w
    ∧ is_Some (w_dirs w' !! d)
    ∧ ∀ args fs1 fs2,
        discovered E args = fs1 ++ f :: fs2 →
        for_each fs1 (TestFile E) init_world = (Ok tt, w) →
        run E args = (Raise e, w') ∧ exit_status (fst (run E args)) = 1.
Proof.
  intros Hread Hi Hok Hbad d e.
  destruct (TestFile_provisioning_error E f contents w i Hread Hi Hok Hbad) as (HT & Ho & Hev).
  exists (provisioned E f contents w). split; [done|]. split; [done|]. split; [done|].
  destruct (globals_provisioned E f contents w) as [Hs Hf].
  split; [done|]. split; [done|]. split; [apply dir_provisioned|].
  intros args fs1 fs2 Hd H1. by rewrite (run_raise _ _ _ _ _ _ _ _ Hd H1 HT).
Qed.

(** ** The command of the test *)

Lemma redirected_not_diff (cmd : pystr) :
  cmd ++ py " > actual" ≠ py "diff -u expected actual".
Proof.
  intros H%(f_equal reverse). rewrite reverse_app in H.
  change (reverse (py " > actual")) with (py "lautca " ++ 62%N :: [32%N]) in H.
  change (reverse (py "diff -u expected actual"))
    with (py "lautca " ++ 100%N :: py "etcepxe u- ffid") in H.
  rewrite <- app_assoc in H. apply app_inv_head in H. discriminate H.
Qed.

Lemma path_join_prefix a b :
  ∃ prefix, (prefix = [] ∨ prefix = a ∨ prefix = a ++ [SLASH])
            ∧ path_join a b = prefix ++ b.
Proof.
  unfold path_join. destruct (startswith [SLASH] b).
  - exists []. by split; [left|].
  - destruct (bool_decide (a = []) || endswith [SLASH] a).
    + exists a. split; [by right; left|done].
    + exists (a ++ [SLASH]). split; [by right; right|]. by rewrite <- app_assoc.
Qed.

Lemma path_join_relative a b :
  startswith [SLASH] b = false → a ≠ [] → endswith [SLASH] a = false →
  path_join a b = a ++ [SLASH] ++ b.
Proof.
  intros Hb Ha Hs. unfold path_join. rewrite Hb, Hs.
  by rewrite bool_decide_eq_false_2.
Qed.

(** C5.  When the command of the test exits with a status other than zero
    the case is [Crashed], whatever the command wrote, and neither the write
    of [expected] nor the diff takes place: after the command the harness
    only prints the two lines of the failure and records it. *)
Theorem nonzero_exit_is_crashed (E : env) (f contents cl : pystr) (rest : list pystr)
    (w : world) :
  read_file E (abspath (getcwd E) f) = Some contents →
  Forall (λ i, fst (yaml2obj E (abspath (getcwd E) f) i) = 0)
    (seq 1 (length (re_findall_sep contents))) →
  skip_to_command (splitlines contents) = Ok (cl, rest) →
  fst (sut_result E f cl contents) ≠ 0 →
  let d := tmpdir_of E w in
  let w' := snd (TestFile E f w) in
  outcome (fst (run_case E f w)) = Crashed
  ∧ new_events w w'
    = [EvPrint f; EvMkdtemp d]
      ++ (yaml2obj_event (abspath (getcwd E) f) d <$> seq 1 (length (re_findall_sep contents)))
      ++ [EvShell (sut_cmd (getcwd E) cl ++ py " > actual") d;
          EvPrint (py "CRASHED: " ++ f);
          EvPrint (py "CRASHED: output in " ++ d)]
  ∧ (∀ path data, EvWrite path data ∉ new_events w w')
  ∧ (∀ cwd, EvShell (py "diff -u expected actual") cwd ∉ new_events w w')
  ∧ failures w' = (failures w ++ [(f, d)]).
Proof.
  intros Hread Hok%first_bad_None Hskip Hst d w'.
  assert (Hneg : negb (fst (sut_result E f cl contents) =? 0) = true).
  { apply negb_true_iff. by apply Z.eqb_neq. }
  assert (Hev : new_events w w'
    = [EvPrint f; EvMkdtemp d]
      ++ (yaml2obj_event (abspath (getcwd E) f) d <$> seq 1 (length (re_findall_sep contents)))
      ++ [EvShell (sut_cmd (getcwd E) cl ++ py " > actual") d;
          EvPrint (py "CRASHED: " ++ f);
          EvPrint (py "CRASHED: output in " ++ d)]).
  { unfold w'. rewrite (TestFile_new_events _ _ _ _ Hread). unfold closing_events.
    rewrite Hok, Hskip. cbv zeta. rewrite Hneg. by rewrite (attempted_all _ _ _ Hok). }
  split.
  { rewrite run_case_eq, Hread, Hok, Hskip. cbv zeta. by rewrite Hneg. }
  split; [done|]. rewrite Hev.
  split.
  { intros path data. rewrite !elem_of_app, !elem_of_cons, elem_of_nil, list_elem_of_fmap.
    intros [[?|[?|[]]]|[(i & ? & _)|[?|[?|[?|[]]]]]]; done. }
  split.
  { intros cwd. rewrite !elem_of_app, !elem_of_cons, elem_of_nil, list_elem_of_fmap.
    intros [[?|[?|[]]]|[(i & Hi & _)|[Hs|[?|[?|[]]]]]]; try discriminate.
    injection Hs as Hs _. symmetry in Hs. by apply redirected_not_diff in Hs. }
  unfold w', TestFile, bind. rewrite run_case_eq, Hread, Hok, Hskip. cbv zeta. rewrite Hneg.
  rewrite finish_case_failure by done. cbn [snd failures].
  by destruct (globals_invoked E f cl contents w) as [_ ->].
Qed.

(** C6 (amended).  The command line is the first line that starts with the
    dollar sign; the template is that line without its first two characters,
    nothing else is stripped; the command is [os.path.join] of the directory
    the harness was started in and the template, so it ends with the template
    unchanged; the shell is handed the command followed by [ > actual] in
    the working directory, and the file [actual], like every file there but
    [expected], is as the shell leaves it: the harness does not write it. *)
Theorem command_is_line_without_two_characters (E : env) (f contents cl : pystr)
    (rest : list pystr) (w : world) :
  read_file E (abspath (getcwd E) f) = Some contents →
  Forall (λ i, fst (yaml2obj E (abspath (getcwd E) f) i) = 0)
    (seq 1 (length (re_findall_sep contents))) →
  skip_to_command (splitlines contents) = Ok (cl, rest) →
  let d := tmpdir_of E w in
  let template := drop 2 cl in
  (∃ before, splitlines contents = before ++ cl :: rest ∧ Forall skipped_line before
             ∧ startswith [DOLLAR] cl = true)
  ∧ EvShell (path_join (getcwd E) template ++ py " > actual") d
      ∈ new_events w (snd (TestFile E f w))
  ∧ (∃ prefix, (prefix = [] ∨ prefix = getcwd E ∨ prefix = getcwd E ++ [SLASH])
               ∧ path_join (getcwd E) template = prefix ++ template)
  ∧ (startswith [SLASH] template = false → getcwd E ≠ [] →
     endswith [SLASH] (getcwd E) = false →
     path_join (getcwd E) template = getcwd E ++ [SLASH] ++ template)
  ∧ (∀ name, name ≠ py "expected" →
       files_of d (snd (run_case E f w)) !! name
       = snd (sut_result E f cl contents) !! name).
Proof.
  intros Hread Hok%first_bad_None Hskip d template.
  split; [by apply skip_to_command_Ok|].
  split.
  { rewrite (TestFile_new_events _ _ _ _ Hread). unfold closing_events.
    rewrite Hok, Hskip. cbv zeta. rewrite !elem_of_app. right. right.
    apply elem_of_cons. by left. }
  split; [apply path_join_prefix|]. split; [apply path_join_relative|].
  intros name Hname. rewrite run_case_eq, Hread, Hok, Hskip. cbv zeta.
  assert (Hinv : files_of d (invoked E f cl contents w)
                 = snd (sut_result E f cl contents)).
  { unfold invoked. by rewrite files_of_log, files_of_set_files by apply dir_provisioned. }
  destruct (negb _); cbn [snd]; [by rewrite Hinv|]. unfold verified.
  rewrite 2!files_of_log, files_of_put_file by apply dir_invoked.
  rewrite lookup_insert_ne by done. fold d. by rewrite Hinv.
Qed.

(** ** Discovery *)

Lemma pystr_leb_total a b : pystr_leb a b = true ∨ pystr_leb b a = true.
Proof.
  revert b. induction a as [|x a IH]; intros [|y b]; cbn [pystr_leb]; auto.
  destruct (N.ltb_spec x y), (N.ltb_spec y x), (N.eqb_spec x y), (N.eqb_spec y x);
    cbn [orb andb]; auto; lia.
Qed.

Lemma pystr_leb_trans a b c :
  pystr_leb a b = true → pystr_leb b c = true → pystr_leb a c = true.
Proof.
  revert b c. induction a as [|x a IH]; intros [|y b] [|z c]; cbn [pystr_leb];
    auto; try done.
  destruct (N.ltb_spec x y), (N.ltb_spec y z), (N.ltb_spec x z),
    (N.eqb_spec x y), (N.eqb_spec y z), (N.eqb_spec x z); cbn [orb andb];
    auto; try lia; try done; apply IH.
Qed.

#[global] Instance pystr_le_total : Total pystr_le.
Proof. intros a b. apply pystr_leb_total. Qed.

#[global] Instance pystr_le_trans : Transitive pystr_le.
Proof. intros a b c. apply pystr_leb_trans. Qed.

Lemma sorted_StronglySorted l : StronglySorted pystr_le (sorted l).
Proof. apply StronglySorted_merge_sort; apply _. Qed.

Lemma elem_of_sorted p l : p ∈ sorted l ↔ p ∈ l.
Proof. unfold sorted. by rewrite merge_sort_Permutation. Qed.

Lemma take_to_slash_app a b :
  forallb (λ c, negb (c =? SLASH)%N) a = true →
  take_to_slash (a ++ SLASH :: b) = a.
Proof.
  induction a as [|c a IH]; cbn [app take_to_slash forallb].
  - by rewrite N.eqb_refl.
  - intros [Hc Ha]%andb_prop. apply negb_true_iff in Hc. rewrite Hc. by rewrite IH.
Qed.

Lemma forallb_reverse {A} (P : A → bool) l : forallb P (reverse l) = forallb P l.
Proof.
  induction l as [|x l IH]; [done|].
  rewrite reverse_cons, forallb_app, IH. cbn. rewrite andb_true_r. apply andb_comm.
Qed.

Lemma rstrip_slash_snoc h c : c ≠ SLASH → rstrip_slash (h ++ [c]) = h ++ [c].
Proof.
  intros Hc. unfold rstrip_slash. rewrite reverse_snoc. cbn [drop_slashes].
  destruct (N.eqb_spec c SLASH); [done|]. by rewrite reverse_cons, reverse_involutive.
Qed.

Lemma rstrip_slash_slash h : rstrip_slash (h ++ [SLASH]) = rstrip_slash h.
Proof. unfold rstrip_slash. rewrite reverse_snoc. cbn [drop_slashes]. by rewrite N.eqb_refl. Qed.

(** [os.path.split] of a path whose last component has no slash and whose
    directory part ends in a character that is not a slash. *)
Lemma path_split_plain h c t :
  c ≠ SLASH →
  forallb (λ c, negb (c =? SLASH)%N) t = true →
  path_split ((h ++ [c]) ++ SLASH :: t) = (h ++ [c], t).
Proof.
  intros Hc Ht. unfold path_split.
  assert (Hhc : rstrip_slash ((h ++ [c]) ++ [SLASH]) = h ++ [c])
    by (by rewrite rstrip_slash_slash, rstrip_slash_snoc).
  assert (Hall : forallb (λ c0, (c0 =? SLASH)%N) ((h ++ [c]) ++ [SLASH]) = false).
  { rewrite !forallb_app. cbn [forallb]. destruct (N.eqb_spec c SLASH); [done|].
    by rewrite andb_false_r. }
  remember (h ++ [c]) as hc eqn:Hhceq. clear Hhceq.
  rewrite reverse_app, reverse_cons, <- app_assoc. cbn [app].
  rewrite take_to_slash_app by (by rewrite forallb_reverse).
  rewrite reverse_involutive, length_reverse.
  replace (length (hc ++ SLASH :: t) - length t)%nat
    with (length (hc ++ [SLASH])) by (rewrite !length_app; cbn; lia).
  replace (hc ++ SLASH :: t) with ((hc ++ [SLASH]) ++ t) by (by rewrite <- !app_assoc).
  rewrite take_app_length. by rewrite Hall, Hhc.
Qed.

Lemma endswith_slash_false arg :
  arg ≠ [] → endswith [SLASH] arg = false → ∃ h c, arg = h ++ [c] ∧ c ≠ SLASH.
Proof.
  intros Hne He. destruct (reverse arg) as [|c r] eqn:Hr.
  - apply (f_equal reverse) in Hr. rewrite reverse_involutive in Hr. done.
  - exists (reverse r), c. split.
    + apply (f_equal reverse) in Hr. by rewrite reverse_involutive, reverse_cons in Hr.
    + unfold endswith in He. rewrite Hr in He.
      change (reverse [SLASH]) with [SLASH] in He. cbn [startswith] in He.
      rewrite andb_true_r in He. intros ->. by rewrite N.eqb_refl in He.
Qed.

(** For an argument that does not end in a slash the glob starts from the
    argument itself. *)
Lemma glob_base_plain arg :
  arg ≠ [] → endswith [SLASH] arg = false → glob_base arg = arg.
Proof.
  intros Hne He. destruct (endswith_slash_false arg Hne He) as (h & c & -> & Hc).
  unfold glob_base. rewrite path_join_relative by done.
  change (py "**/*.test") with ([42; 42]%N ++ SLASH :: py "*.test").
  replace ((h ++ [c]) ++ [SLASH] ++ [42; 42]%N ++ SLASH :: py "*.test")
    with ((((h ++ [c]) ++ [SLASH; 42%N]) ++ [42%N]) ++ SLASH :: py "*.test")
    by (by rewrite <- !app_assoc).
  rewrite path_split_plain by done. cbn [fst].
  replace (((h ++ [c]) ++ [SLASH; 42%N]) ++ [42%N])
    with ((h ++ [c]) ++ SLASH :: [42; 42]%N) by (by rewrite <- !app_assoc).
  by rewrite path_split_plain.
Qed.

Lemma elem_of_glob1_test x es :
  x ∈ glob1_test es ↔ x ∈ entry_names es ∧ ishidden x = false ∧ fnmatch_test x = true.
Proof.
  unfold glob1_test. rewrite !list_elem_of_In, !filter_In, negb_true_iff. tauto.
Qed.

Lemma visible_here es x :
  visible es [] x ↔ x ∈ entry_names es ∧ ishidden x = false.
Proof.
  split.
  - remember [] as dirs eqn:Hd. induction 1; try discriminate Hd; cbn [entry_names];
      rewrite elem_of_cons; tauto.
  - intros [Hin Hh]. induction es as [|y rest IH|y sub _ rest IH]; cbn [entry_names] in Hin.
    + by apply elem_of_nil in Hin.
    + apply elem_of_cons in Hin as [->|Hin]; [by constructor|].
      apply visible_after_file. by apply IH.
    + apply elem_of_cons in Hin as [->|Hin]; [by constructor|].
      apply visible_after_dir. by apply IH.
Qed.

Lemma rel_path_cons y dirs : dirs ≠ [] → rel_path (y :: dirs) = path_join y (rel_path dirs).
Proof. by destruct dirs. Qed.

(** The directories [_rlistdir] finds are those reached through names that
    are not hidden. *)
Lemma rlistdir_visible es rel x :
  (∃ t, (rel, t) ∈ rlistdir es ∧ x ∈ entry_names t ∧ ishidden x = false)
  ↔ ∃ dirs, dirs ≠ [] ∧ rel = rel_path dirs ∧ visible es dirs x.
Proof.
  revert rel. induction es as [|y rest IH|y sub IHsub rest IHrest]; intros rel;
    cbn [rlistdir].
  - split.
    + intros (t & Hin & _). by apply elem_of_nil in Hin.
    + intros (dirs & _ & _ & Hv). inversion Hv.
  - rewrite IH. split.
    + intros (dirs & ? & ? & ?). exists dirs. split; [done|]. split; [done|].
      by apply visible_after_file.
    + intros (dirs & Hne & ? & Hv). exists dirs. split; [done|]. split; [done|].
      inversion Hv; subst; done.
  - split.
    + intros (t & Hin & Hx & Hh). apply elem_of_app in Hin as [Hin|Hin].
      * destruct (ishidden y) eqn:Hy; [by apply elem_of_nil in Hin|].
        apply elem_of_cons in Hin as [[= -> ->]|Hin].
        { exists [y]. split; [done|]. split; [done|].
          apply visible_below; [done|]. by apply visible_here. }
        apply list_elem_of_fmap in Hin as ([rel' t'] & [= -> ->] & Hin).
        destruct (proj1 (IHsub rel')) as (dirs & Hne & -> & Hv); [by exists t'|].
        exists (y :: dirs). split; [done|]. split; [by rewrite rel_path_cons|].
        by apply visible_below.
      * destruct (proj1 (IHrest rel)) as (dirs & Hne & -> & Hv); [by exists t|].
        exists dirs. split; [done|]. split; [done|]. by apply visible_after_dir.
    + intros (dirs & Hne & -> & Hv). inversion Hv as [| |? ? ? dirs' ? Hy Hv'| |]; subst.
      * done.
      * destruct dirs' as [|z dirs'].
        { apply visible_here in Hv' as [? ?]. exists sub. split; [|done].
          apply elem_of_app. left. rewrite Hy. apply elem_of_cons. by left. }
        destruct (proj2 (IHsub (rel_path (z :: dirs')))) as (t & Hin & ? & ?);
          [by exists (z :: dirs')|].
        exists t. split; [|done]. apply elem_of_app. left. rewrite Hy.
        apply elem_of_cons. right. apply list_elem_of_fmap.
        exists (rel_path (z :: dirs'), t). split; [|done].
        by rewrite rel_path_cons.
      * destruct (proj2 (IHrest (rel_path dirs))) as (t & Hin & ? & ?); [by exists dirs|].
        exists t. split; [|done]. apply elem_of_app. by right.
Qed.

Lemma elem_of_concat {A} (x : A) (ls : list (list A)) :
  x ∈ concat ls ↔ ∃ l, x ∈ l ∧ l ∈ ls.
Proof.
  rewrite list_elem_of_In, in_concat. split.
  - intros (l & ? & ?). exists l. by rewrite !list_elem_of_In.
  - intros (l & ? & ?). exists l. by rewrite <- !list_elem_of_In.
Qed.

Lemma elem_of_glob_tests pattern top p :
  p ∈ glob_tests pattern top
  ↔ ∃ dirs x, visible top dirs x ∧ fnmatch_test x = true
              ∧ p = path_join (path_join (fst (path_split (fst (path_split pattern))))
                                 (rel_path dirs)) x.
Proof.
  unfold glob_tests. set (base := fst (path_split (fst (path_split pattern)))).
  rewrite elem_of_concat. split.
  - intros (l & Hp & Hl). apply list_elem_of_fmap in Hl as ([d t] & -> & Hd).
    cbn [fst snd] in Hp. apply list_elem_of_fmap in Hp as (x & -> & Hx).
    apply elem_of_glob1_test in Hx as (Hx & Hh & Hm).
    apply list_elem_of_fmap in Hd as ([rel t'] & [= -> ->] & Hd).
    apply elem_of_cons in Hd as [[= -> ->]|Hd].
    + exists [], x. split; [by apply visible_here|]. done.
    + destruct (proj1 (rlistdir_visible top rel x)) as (dirs & _ & -> & Hv); [by exists t'|].
      by exists dirs, x.
  - intros (dirs & x & Hv & Hm & ->). destruct dirs as [|y dirs].
    + apply visible_here in Hv as [Hx Hh].
      exists (path_join (path_join base []) <$> glob1_test top). split.
      * apply list_elem_of_fmap. exists x. split; [done|]. by apply elem_of_glob1_test.
      * apply list_elem_of_fmap. exists (path_join base [], top). split; [done|].
        apply elem_of_cons. by left.
    + destruct (proj2 (rlistdir_visible top (rel_path (y :: dirs)) x))
        as (t & Hin & Hx & Hh); [by exists (y :: dirs)|].
      exists (path_join (path_join base (rel_path (y :: dirs))) <$> glob1_test t). split.
      * apply list_elem_of_fmap. exists x. split; [done|]. by apply elem_of_glob1_test.
      * apply list_elem_of_fmap. exists (path_join base (rel_path (y :: dirs)), t).
        split; [done|]. apply elem_of_cons. right. apply list_elem_of_fmap.
        by exists (rel_path (y :: dirs), t).
Qed.

(** C8 (amended).  A directory argument without wildcard characters is
    expanded to the entries (files or directories) below it whose names end
    in [.test] and that are reached through names not starting with a dot,
    their own name included; they are run in sorted order of their paths,
    which start with the argument itself when it does not end in a slash.
    An argument that is not a directory is run as it is. *)
Theorem discovery_of_directory (E : env) (arg : pystr) (top : entries) :
  dir_tree E arg = Some top →
  has_magic arg = false →
  (∀ w, TestArg E arg w = for_each (discover E arg) (TestFile E) w)
  ∧ StronglySorted pystr_le (discover E arg)
  ∧ (∀ p, p ∈ discover E arg
          ↔ ∃ dirs x, visible top dirs x ∧ fnmatch_test x = true
                      ∧ p = path_join (path_join (glob_base arg) (rel_path dirs)) x)
  ∧ (arg ≠ [] → endswith [SLASH] arg = false → glob_base arg = arg)
  ∧ (∀ arg' w, dir_tree E arg' = None → TestArg E arg' w = TestFile E arg' w).
Proof.
  intros Hdir Hmagic. split; [intros w; apply TestArg_discover|].
  unfold discover. rewrite Hdir. unfold glob_arg. rewrite Hmagic.
  split; [apply sorted_StronglySorted|]. split; [|split].
  - intros p. rewrite elem_of_sorted. apply elem_of_glob_tests.
  - apply glob_base_plain.
  - intros arg' w Hfile. unfold TestArg. by rewrite Hfile.
Qed.

(** ** The properties at concrete runs *)

(** The passing test: its directory is made, removed, and nothing is recorded. *)
Lemma workdir_deleted_iff_pass_witness :
  read_file env_hello (abspath (getcwd env_hello) (py "t.test")) = Some text_hello
  ∧ outcome (fst (run_case env_hello (py "t.test") init_world)) = Pass
  ∧ (w_dirs (snd (TestFile env_hello (py "t.test") init_world))
       !! tmpdir_of env_hello init_world = None
     ↔ outcome (fst (run_case env_hello (py "t.test") init_world)) = Pass).
Proof.
  assert (Hread : read_file env_hello (abspath (getcwd env_hello) (py "t.test"))
                  = Some text_hello) by reflexivity.
  split; [exact Hread|]. split; [reflexivity|].
  pose proof (workdir_deleted_iff_pass env_hello (py "t.test") text_hello init_world Hread)
    as H.
  cbv zeta in H. exact (proj1 (proj2 H)).
Defined.

(** C2, as stated, fails: the fixture compiler fails on [a.test]; the case
    is not in the failure list and [b.test] is never run. *)
Lemma provisioning_error_is_not_local :
  ¬ spec_provisioning_error_is_local env_bad_fixture [py "a.test"; py "b.test"].
Proof.
  intros H. destruct (H (py "a.test")) as [[d Hd] _].
  - apply elem_of_cons. by left.
  - reflexivity.
  - vm_compute in Hd. by apply elem_of_nil in Hd.
Qed.

Lemma provisioning_error_aborts_run_witness :
  read_file env_bad_fixture (abspath (getcwd env_bad_fixture) (py "a.test"))
  = Some text_two_docs
  ∧ fst (yaml2obj env_bad_fixture (abspath (getcwd env_bad_fixture) (py "a.test")) 1) ≠ 0
  ∧ ∃ w', run env_bad_fixture [py "a.test"; py "b.test"]
          = (Raise (CalledProcessError 1 (py "yaml2obj /b/a.test --docnum=1 > 1")), w')
          ∧ failures w' = []
          ∧ w_trace w'
            = [EvPrint (py "a.test"); EvMkdtemp (py "/tmp/bloaty-0");
               EvShell (py "yaml2obj /b/a.test --docnum=1 > 1") (py "/tmp/bloaty-0")].
Proof.
  assert (Hread : read_file env_bad_fixture (abspath (getcwd env_bad_fixture) (py "a.test"))
                  = Some text_two_docs) by reflexivity.
  assert (Hbad : fst (yaml2obj env_bad_fixture
                        (abspath (getcwd env_bad_fixture) (py "a.test")) 1) ≠ 0) by done.
  split; [exact Hread|]. split; [exact Hbad|].
  destruct (provisioning_error_aborts_run env_bad_fixture (py "a.test") text_two_docs
              init_world 1 Hread) as (w' & HT & _ & Hev & Hfl & _ & _ & Hrun).
  - vm_compute. lia.
  - intros j Hj. lia.
  - exact Hbad.
  - exists w'. destruct (Hrun [py "a.test"; py "b.test"] [] [py "b.test"]) as [-> _];
      [reflexivity|reflexivity|].
    split; [reflexivity|]. split; [exact Hfl|]. exact Hev.
Defined.

(** C3, as stated, fails: the line [--- !ELF] is not the marker itself, and
    it is counted. *)
Lemma marker_line_need_not_match_exactly :
  length (re_findall_sep (py "--- !ELF")) = 1%nat
  ∧ spec_fixture_count (py "--- !ELF") = 0%nat.
Proof. split; reflexivity. Qed.

Lemma fixture_count_and_artifacts_witness :
  fst (provision env_two_docs (py "/b/a.test") (py "/tmp/bloaty-0") 2
         (started env_two_docs (py "a.test") init_world)) = Ok tt
  ∧ length (re_findall_sep text_two_docs) = 2%nat
  ∧ dom (files_of (py "/tmp/bloaty-0")
           (snd (provision env_two_docs (py "/b/a.test") (py "/tmp/bloaty-0") 2
                   (started env_two_docs (py "a.test") init_world))))
    = ({[ py "1"; py "2" ]} : gset pystr).
Proof.
  assert (Hok : fst (provision env_two_docs (py "/b/a.test") (py "/tmp/bloaty-0") 2
                       (started env_two_docs (py "a.test") init_world)) = Ok tt)
    by reflexivity.
  split; [exact Hok|]. split; [reflexivity|].
  pose proof (fixture_count_and_artifacts env_two_docs (py "a.test") text_two_docs
                init_world Hok) as (_ & _ & Hdom & _).
  etransitivity; [exact Hdom|]. reflexivity.
Defined.

Lemma expected_output_rejoined_witness :
  skip_to_command (splitlines text_hello) = Ok (py "$ echo hello", [py "hello"])
  ∧ expected_output [py "hello"] = py "hello" ++ [LF]
  ∧ expected_output [] = [LF].
Proof.
  assert (Hskip : skip_to_command (splitlines text_hello)
                  = Ok (py "$ echo hello", [py "hello"])) by reflexivity.
  split; [exact Hskip|].
  pose proof (expected_output_rejoined text_hello (py "$ echo hello") [py "hello"] Hskip)
    as (_ & -> & _).
  split; reflexivity.
Defined.

(** The command writes exactly the expected output and exits with status 1. *)
Lemma nonzero_exit_is_crashed_witness :
  snd (sut_result env_crash (py "t.test") (py "$ echo hello") text_hello) !! py "actual"
  = Some (expected_output [py "hello"])
  ∧ fst (sut_result env_crash (py "t.test") (py "$ echo hello") text_hello) ≠ 0
  ∧ outcome (fst (run_case env_crash (py "t.test") init_world)) = Crashed
  ∧ new_events init_world (snd (TestFile env_crash (py "t.test") init_world))
    = [EvPrint (py "t.test"); EvMkdtemp (py "/tmp/bloaty-0");
       EvShell (py "/b/echo hello > actual") (py "/tmp/bloaty-0");
       EvPrint (py "CRASHED: t.test");
       EvPrint (py "CRASHED: output in /tmp/bloaty-0")].
Proof.
  split; [reflexivity|].
  assert (Hst : fst (sut_result env_crash (py "t.test") (py "$ echo hello") text_hello) ≠ 0)
    by done.
  split; [exact Hst|].
  destruct (nonzero_exit_is_crashed env_crash (py "t.test") text_hello (py "$ echo hello")
              [py "hello"] init_world) as (Ho & Hev & _);
    [reflexivity|constructor|reflexivity|exact Hst|].
  split; [exact Ho|]. rewrite Hev. reflexivity.
Defined.

(** C6, as stated, fails: after the dollar sign and two spaces the template
    keeps the second space, and the command that runs is not the one the
    specification describes. *)
Lemma template_keeps_whitespace :
  skip_to_command (splitlines text_two_spaces) = Ok (py "$  bloaty x", [py "hello"])
  ∧ spec_command (getcwd env_two_spaces) (py "$  bloaty x") = py "/b/bloaty x"
  ∧ sut_cmd (getcwd env_two_spaces) (py "$  bloaty x") = py "/b/ bloaty x"
  ∧ EvShell (py "/b/ bloaty x > actual") (py "/tmp/bloaty-0")
      ∈ w_trace (snd (run env_two_spaces [py "s.test"]))
  ∧ (EvShell (spec_command (getcwd env_two_spaces) (py "$  bloaty x") ++ py " > actual")
       (py "/tmp/bloaty-0")
     ∉ w_trace (snd (run env_two_spaces [py "s.test"]))).
Proof.
  split; [reflexivity|]. split; [reflexivity|]. split; [reflexivity|].
  assert (Htr : w_trace (snd (run env_two_spaces [py "s.test"]))
                = [EvPrint (py "s.test"); EvMkdtemp (py "/tmp/bloaty-0");
                   EvShell (py "/b/ bloaty x > actual") (py "/tmp/bloaty-0");
                   EvPrint (py "CRASHED: s.test");
                   EvPrint (py "CRASHED: output in /tmp/bloaty-0");
                   EvPrint ([LF] ++ py "FAILURE: 0 tests passed, 1 tests failed:");
                   EvPrint (py "  - s.test (output in /tmp/bloaty-0)")]) by reflexivity.
  rewrite Htr. split.
  - rewrite !elem_of_cons. tauto.
  - rewrite !elem_of_cons, elem_of_nil.
    intros [H|[H|[H|[H|[H|[H|[H|[]]]]]]]]; discriminate H.
Qed.

Lemma command_is_line_without_two_characters_witness :
  skip_to_command (splitlines text_hello) = Ok (py "$ echo hello", [py "hello"])
  ∧ EvShell (py "/b/echo hello > actual") (py "/tmp/bloaty-0")
      ∈ new_events init_world (snd (TestFile env_hello (py "t.test") init_world)).
Proof.
  assert (Hskip : skip_to_command (splitlines text_hello)
                  = Ok (py "$ echo hello", [py "hello"])) by reflexivity.
  split; [exact Hskip|].
  destruct (command_is_line_without_two_characters env_hello (py "t.test") text_hello
              (py "$ echo hello") [py "hello"] init_world) as (_ & Hin & _);
    [reflexivity|constructor|exact Hskip|].
  exact Hin.
Defined.

(** C8, as stated, fails: the hidden test below [d] has the suffix and is not
    discovered; neither is the test inside the hidden directory. *)
Lemma hidden_tests_are_not_discovered :
  py "d/.h.test" ∈ files_under (py "d") tree_d
  ∧ py "d/.g/q.test" ∈ files_under (py "d") tree_d
  ∧ discover env_tree (py "d") = [py "d/s/a.test"; py "d/z.test"].
Proof.
  assert (Hfiles : files_under (py "d") tree_d
                   = [py "d/z.test"; py "d/.h.test"; py "d/s/a.test"; py "d/.g/q.test"])
    by reflexivity.
  rewrite Hfiles, !elem_of_cons. split; [tauto|]. split; [tauto|]. reflexivity.
Qed.

Lemma discovery_of_directory_witness :
  dir_tree env_tree (py "d") = Some tree_d
  ∧ has_magic (py "d") = false
  ∧ StronglySorted pystr_le (discover env_tree (py "d"))
  ∧ py "d/s/a.test" ∈ discover env_tree (py "d").
Proof.
  assert (Hd : dir_tree env_tree (py "d") = Some tree_d) by reflexivity.
  assert (Hm : has_magic (py "d") = false) by reflexivity.
  split; [exact Hd|]. split; [exact Hm|].
  destruct (discovery_of_directory env_tree (py "d") tree_d Hd Hm) as (_ & Hs & Hin & _).
  split; [exact Hs|]. apply Hin. exists [py "s"], (py "a.test").
  split; [|split; reflexivity].
  do 2 apply visible_after_file. apply visible_below; [reflexivity|].
  by apply visible_file.
Defined.

(** The empty file, and a file of two documents without command line. *)
Lemma no_command_line_is_fatal_witness :
  (read_file env_no_command (abspath (getcwd env_no_command) (py "e.test")) = Some []
   ∧ run env_no_command [py "e.test"; py "n.test"]
     = (Raise IndexError, snd (TestFile env_no_command (py "e.test") init_world))
   ∧ w_trace (snd (run env_no_command [py "e.test"; py "n.test"]))
     = [EvPrint (py "e.test"); EvMkdtemp (py "/tmp/bloaty-0")])
  ∧ (read_file env_two_markers (abspath (getcwd env_two_markers) (py "m.test"))
     = Some text_two_markers
     ∧ length (re_findall_sep text_two_markers) = 2%nat
     ∧ splitlines text_two_markers = [py "--- !ELF"; py "--- !ELF"]
     ∧ fst (run env_two_markers [py "m.test"]) = Raise IndexError
     ∧ exit_status (fst (run env_two_markers [py "m.test"])) = 1
     ∧ w_trace (snd (run env_two_markers [py "m.test"]))
       = [EvPrint (py "m.test"); EvMkdtemp (py "/tmp/bloaty-0");
          EvShell (py "yaml2obj /b/m.test --docnum=1 > 1") (py "/tmp/bloaty-0");
          EvShell (py "yaml2obj /b/m.test --docnum=2 > 2") (py "/tmp/bloaty-0")]).
Proof.
  split.
  - assert (Hread : read_file env_no_command (abspath (getcwd env_no_command) (py "e.test"))
                    = Some []) by reflexivity.
    split; [exact Hread|].
    destruct (no_command_line_is_fatal env_no_command (py "e.test") [] init_world Hread)
      as (w' & HT & _ & _ & _ & Hev & Hrun); [constructor|constructor|].
    destruct (Hrun [py "e.test"; py "n.test"] [] [py "n.test"]) as [-> _];
      [reflexivity|reflexivity|].
    rewrite HT. split; [reflexivity|]. exact Hev.
  - assert (Hread : read_file env_two_markers (abspath (getcwd env_two_markers) (py "m.test"))
                    = Some text_two_markers) by reflexivity.
    split; [exact Hread|]. split; [reflexivity|]. split; [reflexivity|].
    destruct (no_command_line_is_fatal env_two_markers (py "m.test") text_two_markers
                init_world Hread) as (w' & HT & _ & _ & _ & Hev & Hrun).
    + repeat constructor.
    + repeat constructor.
    + destruct (Hrun [py "m.test"] [] []) as [Hr Hs]; [reflexivity|reflexivity|].
      split; [by rewrite Hr|]. split; [exact Hs|]. rewrite Hr. exact Hev.
Defined.

(** C9, as stated, fails: [m.test] has no command line, the fixture
    compiler fails on its first document, and the case ends with
    [CalledProcessError], not with [IndexError]. *)
Lemma compiler_failure_hides_format_error :
  read_file env_bad_markers (abspath (getcwd env_bad_markers) (py "m.test"))
  = Some text_two_markers
  ∧ Forall skipped_line (splitlines text_two_markers)
  ∧ fst (yaml2obj env_bad_markers (abspath (getcwd env_bad_markers) (py "m.test")) 1) = 1
  ∧ fst (run env_bad_markers [py "m.test"])
    = Raise (CalledProcessError 1 (py "yaml2obj /b/m.test --docnum=1 > 1"))
  ∧ case_outcome env_bad_markers (py "m.test") = ProvisioningError
  ∧ ¬ spec_no_command_is_format_error env_bad_markers (py "m.test").
Proof.
  split; [reflexivity|]. split; [repeat constructor|]. split; [reflexivity|].
  split; [reflexivity|]. split; [reflexivity|].
  intros H. specialize (H text_two_markers eq_refl). discriminate H. repeat constructor.
Qed.

(** C10, as stated, fails: [m.test] has two documents and no command line,
    the fixture compiler fails on the first, and the second is never
    compiled. *)
Lemma later_documents_are_not_compiled :
  read_file env_bad_markers (abspath (getcwd env_bad_markers) (py "m.test"))
  = Some text_two_markers
  ∧ length (re_findall_sep text_two_markers) = 2%nat
  ∧ Forall skipped_line (splitlines text_two_markers)
  ∧ w_trace (snd (TestFile env_bad_markers (py "m.test") init_world))
    = [EvPrint (py "m.test"); EvMkdtemp (py "/tmp/bloaty-0");
       EvShell (py "yaml2obj /b/m.test --docnum=1 > 1") (py "/tmp/bloaty-0")]
  ∧ yaml2obj_event (abspath (getcwd env_bad_markers) (py "m.test")) (py "/tmp/bloaty-0") 2
    = EvShell (py "yaml2obj /b/m.test --docnum=2 > 2") (py "/tmp/bloaty-0")
  ∧ ¬ spec_fixtures_before_command env_bad_markers (py "m.test").
Proof.
  assert (Htr : w_trace (snd (TestFile env_bad_markers (py "m.test") init_world))
    = [EvPrint (py "m.test"); EvMkdtemp (py "/tmp/bloaty-0");
       EvShell (py "yaml2obj /b/m.test --docnum=1 > 1") (py "/tmp/bloaty-0")])
    by reflexivity.
  split; [reflexivity|]. split; [reflexivity|]. split; [repeat constructor|].
  split; [exact Htr|]. split; [reflexivity|].
  intros H.
  specialize (H text_two_markers eq_refl (le_S _ _ (le_n 1))
                ltac:(repeat constructor) 2%nat).
  rewrite Htr in H.
  assert (Hin : 2%nat ∈ seq 1 (length (re_findall_sep text_two_markers))).
  { apply (bool_decide_unpack _). vm_compute. exact I. }
  specialize (H Hin).
  change (yaml2obj_event _ _ 2)
    with (EvShell (py "yaml2obj /b/m.test --docnum=2 > 2") (py "/tmp/bloaty-0")) in H.
  apply elem_of_cons in H as [H|H]; [discriminate H|].
  apply elem_of_cons in H as [H|H]; [discriminate H|].
  apply elem_of_cons in H as [H|H]; [|by apply elem_of_nil in H].
  injection H as H _. vm_compute in H. discriminate H.
Qed.

(** One document and no command line. *)
Lemma format_failure_leaves_directory_witness :
  read_file env_no_command (abspath (getcwd env_no_command) (py "n.test"))
  = Some text_no_command
  ∧ ∃ w', run env_no_command [py "n.test"] = (Raise IndexError, w')
      ∧ w_trace w'
        = [EvPrint (py "n.test"); EvMkdtemp (py "/tmp/bloaty-0");
           EvShell (py "yaml2obj /b/n.test --docnum=1 > 1") (py "/tmp/bloaty-0")]
      ∧ is_Some (w_dirs w' !! py "/tmp/bloaty-0")
      ∧ failures w' = [].
Proof.
  assert (Hread : read_file env_no_command (abspath (getcwd env_no_command) (py "n.test"))
                  = Some text_no_command) by reflexivity.
  split; [exact Hread|].
  destruct (format_failure_leaves_directory env_no_command (py "n.test") text_no_command
              init_world Hread) as (w' & HT & Hev & Hd & _ & _ & Hfl & Hrun).
  - repeat constructor.
  - repeat constructor.
  - exists w'. split; [apply (Hrun [py "n.test"] [] []); reflexivity|].
    split; [exact Hev|]. split; [exact Hd|]. exact Hfl.
Defined.

(** ** The scenarios of the specification *)

(** No separator line, the command prints what is expected: no fixture, the
    case passes and the process ends with status 0. *)
Example scenario_pass :
  run env_hello [py "t.test"]
  = (Ok tt,
     {| w_dirs := ∅;
        w_trace := [EvPrint (py "t.test"); EvMkdtemp (py "/tmp/bloaty-0");
                    EvShell (py "/b/echo hello > actual") (py "/tmp/bloaty-0");
                    EvWrite (py "/tmp/bloaty-0/expected") (py "hello" ++ [LF]);
                    EvShell (py "diff -u expected actual") (py "/tmp/bloaty-0");
                    EvRmtree (py "/tmp/bloaty-0");
                    EvPrint (py "SUCCESS: 1 test(s) passed")];
        successes := 1;
        failures := [];
        w_ntmp := 1 |}).
Proof. reflexivity. Qed.

(** A crash: the failure is listed and the process ends with status 1. *)
Example scenario_crash :
  fst (run env_crash [py "t.test"]) = Raise (SystemExit 1)
  ∧ failures (snd (run env_crash [py "t.test"])) = [(py "t.test", py "/tmp/bloaty-0")]
  ∧ last (w_trace (snd (run env_crash [py "t.test"])))
    = Some (EvPrint (py "  - t.test (output in /tmp/bloaty-0)")).
Proof. repeat split; reflexivity. Qed.

(** No argument. *)
Example scenario_usage :
  run env_hello [] = (Raise (SystemExit 1), log (EvPrint usage) init_world)
  ∧ exit_status (fst (run env_hello [])) = 1.
Proof. split; reflexivity. Qed.

Example splitlines_example :
  splitlines (py "a" ++ [LF] ++ py "b" ++ [CR; LF; LF] ++ py "c" ++ [LF])
  = [py "a"; py "b"; []; py "c"].
Proof. reflexivity. Qed.

Example normpath_example : normpath (py "/a/b/../c/./d//e/") = py "/a/c/d/e".
Proof. reflexivity. Qed.

(** ** More about a single case *)

(** X1.  The verdict of a case that reaches its command.  It passes exactly
    when the shell reports status 0 and leaves a file [actual] that holds
    the expected output, character for character; it is a mismatch exactly
    when the status is 0 and there is no such file, or it holds anything
    else; it is a crash exactly when the status is not 0. *)
Theorem verdict_of_case (E : env) (f contents cl : pystr) (rest : list pystr) (w : world) :
  read_file E (abspath (getcwd E) f) = Some contents →
  Forall (λ i, fst (yaml2obj E (abspath (getcwd E) f) i) = 0)
    (seq 1 (length (re_findall_sep contents))) →
  skip_to_command (splitlines contents) = Ok (cl, rest) →
  let r := sut_result E f cl contents in
  let o := outcome (fst (run_case E f w)) in
  (o = Pass ↔ fst r = 0 ∧ snd r !! py "actual" = Some (expected_output rest))
  ∧ (o = Mismatch ↔ fst r = 0 ∧ snd r !! py "actual" ≠ Some (expected_output rest))
  ∧ (o = Crashed ↔ fst r ≠ 0).
Proof.
  intros Hread Hok%first_bad_None Hskip r o. subst o.
  rewrite run_case_eq, Hread, Hok, Hskip. cbv zeta. fold r.
  assert (Hp : ∀ d, outcome (Ok (d, None)) = Pass) by reflexivity.
  destruct (Z.eqb_spec (fst r) 0) as [Hz|Hz]; cbn [negb].
  - case_bool_decide as Heq; cbn [fst].
    + rewrite Hp. split; [|split].
      * by split.
      * split; [done|]. by intros [_ []].
      * by split.
    + rewrite outcome_failed. split; [|split].
      * split; [done|]. by intros [_ Hr].
      * by split.
      * by split.
  - cbn [fst]. rewrite outcome_crashed. split; [|split].
    + split; [done|]. by intros [? _].
    + split; [done|]. by intros [? _].
    + by split.
Qed.

(** ** What a case touches *)

Lemma other_dir_put_file d d' name data w :
  d ≠ d' → w_dirs (put_file d name data w) !! d' = w_dirs w !! d'.
Proof. intros Hne. unfold put_file, set_dirs. cbn [w_dirs]. by apply lookup_alter_ne. Qed.

Lemma other_dir_prov_world E abspath d d' l w :
  d ≠ d' → w_dirs (prov_world E abspath d l w) !! d' = w_dirs w !! d'.
Proof.
  intros Hne. revert w. induction l as [|i l IH]; intros w; [done|].
  cbn [prov_world foldl]. unfold prov_world in IH. rewrite IH. unfold prov_step.
  cbn [log w_dirs]. by apply other_dir_put_file.
Qed.

Lemma other_dir_provisioned E f contents d' w :
  tmpdir_of E w ≠ d' → w_dirs (provisioned E f contents w) !! d' = w_dirs w !! d'.
Proof.
  intros Hne. unfold provisioned. rewrite other_dir_prov_world by done.
  unfold started, mkdtemp. cbn [snd log w_dirs]. by apply lookup_insert_ne.
Qed.

Lemma other_dir_set_files d d' files w :
  d ≠ d' → w_dirs (set_files d files w) !! d' = w_dirs w !! d'.
Proof. intros Hne. unfold set_files, set_dirs. cbn [w_dirs]. by apply lookup_alter_ne. Qed.

Lemma other_dir_invoked E f cl contents d' w :
  tmpdir_of E w ≠ d' → w_dirs (invoked E f cl contents w) !! d' = w_dirs w !! d'.
Proof.
  intros Hne. unfold invoked. cbn [log w_dirs].
  rewrite other_dir_set_files by done. by apply other_dir_provisioned.
Qed.

Lemma other_dir_verified E f cl contents rest d' w :
  tmpdir_of E w ≠ d' → w_dirs (verified E f cl contents rest w) !! d' = w_dirs w !! d'.
Proof.
  intros Hne. unfold verified. cbn [log w_dirs].
  rewrite other_dir_put_file by done. by apply other_dir_invoked.
Qed.

Lemma ntmp_provisioned E f contents w : w_ntmp (provisioned E f contents w) = S (w_ntmp w).
Proof.
  unfold provisioned.
  destruct (prov_world_globals E (abspath (getcwd E) f) (tmpdir_of E w)
              (attempted E (abspath (getcwd E) f) (seq 1 (length (re_findall_sep contents))))
              (started E f w)) as (_ & _ & ->).
  reflexivity.
Qed.

Lemma event_within_closing E f contents d :
  Forall (event_within d) (closing_events E f contents d).
Proof.
  unfold closing_events. destruct (first_bad _ _ _); [constructor|].
  destruct (skip_to_command _) as [[cl rest]|e]; [|constructor].
  cbv zeta. constructor; [done|]. destruct (negb _); [by repeat constructor|].
  apply Forall_app. split; [by repeat constructor|].
  destruct (bool_decide _); by repeat constructor.
Qed.

Lemma TestFile_other_dirs (E : env) (f : pystr) (w : world) (d' : pystr) :
  d' ≠ tmpdir_of E w → w_dirs (snd (TestFile E f w)) !! d' = w_dirs w !! d'.
Proof.
  intros Hne. destruct (read_file E (abspath (getcwd E) f)) as [contents|] eqn:Hread.
  - unfold TestFile, bind. rewrite run_case_eq, Hread.
    assert (Hne' : tmpdir_of E w ≠ d') by done.
    destruct (first_bad _ _ _); [by apply other_dir_provisioned|].
    destruct (skip_to_command _) as [[cl rest]|e]; [|by apply other_dir_provisioned].
    cbv zeta. destruct (negb _).
    { rewrite finish_case_failure by done. cbn [snd w_dirs].
      by apply other_dir_invoked. }
    destruct (bool_decide _).
    + rewrite finish_case_pass. cbn [snd w_dirs]. rewrite lookup_delete_ne by done.
      by apply other_dir_verified.
    + rewrite finish_case_failure by done. cbn [snd w_dirs].
      by apply other_dir_verified.
  - by destruct (TestFile_not_readable E f w Hread) as [-> _].
Qed.

(** X2.  A case works inside its own directory: every command it runs has that
    directory as working directory, the only file it writes is [expected]
    there, the only directory it makes or removes is that one, and the other
    directories stay as they were. *)
Theorem case_is_confined_to_its_directory (E : env) (f : pystr) (w : world) :
  let d := tmpdir_of E w in
  let w' := snd (TestFile E f w) in
  Forall (event_within d) (new_events w w')
  ∧ (∀ d', d' ≠ d → w_dirs w' !! d' = w_dirs w !! d').
Proof.
  intros d w'. destruct (read_file E (abspath (getcwd E) f)) as [contents|] eqn:Hread.
  - split.
    + unfold w'. rewrite (TestFile_new_events _ _ _ _ Hread).
      apply Forall_app. split; [by repeat constructor|].
      apply Forall_app. split; [|apply event_within_closing].
      apply Forall_fmap, Forall_forall. by intros i _.
    + intros d' Hne. by apply TestFile_other_dirs.
  - unfold w'. destruct (TestFile_not_readable E f w Hread) as [-> _]. cbn [snd].
    split; [|done]. unfold new_events. rewrite drop_all. constructor.
Qed.

(** ** The suite, continued *)

Lemma TestFile_ok_ntmp E f w w' :
  TestFile E f w = (Ok tt, w') → w_ntmp w' = S (w_ntmp w).
Proof.
  unfold TestFile, bind. rewrite run_case_eq.
  destruct (read_file E _) as [contents|]; [|done].
  destruct (first_bad _ _ _); [done|].
  destruct (skip_to_command _) as [[cl rest]|e]; [|done].
  cbv zeta. destruct (negb _).
  { rewrite finish_case_failure by done. intros [= <-]. cbn [w_ntmp].
    apply ntmp_provisioned. }
  destruct (bool_decide _).
  - rewrite finish_case_pass. intros [= <-]. cbn [w_ntmp]. apply ntmp_provisioned.
  - rewrite finish_case_failure by done. intros [= <-]. cbn [w_ntmp].
    apply ntmp_provisioned.
Qed.

Lemma case_outcome_readable E f :
  case_outcome E f ≠ NotReadable → ∃ contents, read_file E (abspath (getcwd E) f) = Some contents.
Proof.
  intros Ho. destruct (read_file E _) as [contents|] eqn:Hread; [by eexists|].
  by destruct (TestFile_not_readable E f init_world Hread) as [_ ?].
Qed.

Lemma tidy_init E : tidy E init_world.
Proof.
  split; [|split]; cbn.
  - intros d. rewrite lookup_empty, elem_of_nil. split; [by intros [? ?]|done].
  - constructor.
  - intros d Hd. by apply elem_of_nil in Hd.
Qed.

Lemma tidy_TestFile E f w w' :
  Inj (=) (=) (mkdtemp_suffix E) →
  tidy E w → TestFile E f w = (Ok tt, w') → tidy E w'.
Proof.
  intros Hinj (Hdirs & Hnd & Hnames) HT.
  pose proof (TestFile_ok_ntmp _ _ _ _ HT) as Hn.
  assert (Hfresh : tmpdir_of E w ∉ snd <$> failures w).
  { intros (k & Hk & Heq)%Hnames. unfold tmpdir_of in Heq.
    apply app_inv_head, Hinj in Heq. lia. }
  pose proof (TestFile_other_dirs E f w) as Hother.
  rewrite HT in Hother. cbn [snd] in Hother.
  destruct (case_outcome_readable E f) as [contents Hread].
  { intros Ho. pose proof (TestFile_result E f w) as HR. rewrite Ho in HR.
    destruct HR as (e & w1 & HR & _). congruence. }
  destruct (TestFile_spec E f w contents Hread) as (evs & _ & Hspec).
  rewrite HT in Hspec. cbn [fst snd] in Hspec.
  destruct (outcome (fst (run_case E f w))).
  - destruct Hspec as (_ & Hd & _ & Hfl & _). unfold tidy. rewrite Hfl, Hn. split; [|split].
    + intros d. destruct (decide (d = tmpdir_of E w)) as [->|Hne].
      * rewrite Hd. split; [by intros [? ?]|done].
      * rewrite Hother by done. apply Hdirs.
    + done.
    + intros d (k & Hk & ->)%Hnames. exists k. split; [lia|done].
  - by destruct Hspec as ((e & ? & _) & _).
  - destruct Hspec as (_ & Hd & _ & Hfl & _). unfold tidy. rewrite Hfl, Hn, fmap_app. cbn [fmap list_fmap snd].
    split; [|split].
    + intros d. rewrite elem_of_app, list_elem_of_singleton.
      destruct (decide (d = tmpdir_of E w)) as [->|Hne]; [tauto|].
      rewrite Hother by done. rewrite Hdirs. tauto.
    + apply NoDup_app. split; [done|]. split; [|apply NoDup_singleton].
      intros d Hd1 ->%list_elem_of_singleton. done.
    + intros d [Hd1| ->%list_elem_of_singleton]%elem_of_app.
      * destruct (Hnames d Hd1) as (k & Hk & ->). exists k. split; [lia|done].
      * exists (w_ntmp w). split; [lia|done].
  - destruct Hspec as (_ & Hd & _ & Hfl & _). unfold tidy. rewrite Hfl, Hn, fmap_app. cbn [fmap list_fmap snd].
    split; [|split].
    + intros d. rewrite elem_of_app, list_elem_of_singleton.
      destruct (decide (d = tmpdir_of E w)) as [->|Hne]; [tauto|].
      rewrite Hother by done. rewrite Hdirs. tauto.
    + apply NoDup_app. split; [done|]. split; [|apply NoDup_singleton].
      intros d Hd1 ->%list_elem_of_singleton. done.
    + intros d [Hd1| ->%list_elem_of_singleton]%elem_of_app.
      * destruct (Hnames d Hd1) as (k & Hk & ->). exists k. split; [lia|done].
      * exists (w_ntmp w). split; [lia|done].
  - by destruct Hspec as ((e & ? & _) & _).
  - done.
Qed.

Lemma tidy_run_files E fs w w' :
  Inj (=) (=) (mkdtemp_suffix E) →
  tidy E w → for_each fs (TestFile E) w = (Ok tt, w') → tidy E w'.
Proof.
  intros Hinj. revert w. induction fs as [|f fs IH]; intros w Hw; [by intros [= <-]|].
  cbn [for_each]. unfold bind. destruct (TestFile E f w) as [[[]|e] w1] eqn:HT; [|done].
  apply IH. by apply (tidy_TestFile E f w w1).
Qed.

Lemma run_files_end E fs w :
  Forall (case_ends E) fs → ∃ w', for_each fs (TestFile E) w = (Ok tt, w').
Proof.
  intros H. revert w. induction H as [|f fs Hf _ IH]; intros w; [by eexists|].
  cbn [for_each]. unfold bind. pose proof (TestFile_result E f w) as HT.
  destruct Hf as [Ho|[Ho|Ho]]; rewrite Ho in HT; destruct HT as (w1 & -> & _); apply IH.
Qed.

Lemma for_each_print_eq {A} (l : list A) (line : A → pystr) w :
  ∃ w', for_each l (λ x, print (line x)) w = (Ok tt, w')
        ∧ w_trace w' = w_trace w ++ ((λ x, EvPrint (line x)) <$> l)
        ∧ w_dirs w' = w_dirs w ∧ failures w' = failures w ∧ successes w' = successes w.
Proof.
  revert w. induction l as [|x l IH]; intros w.
  - exists w. by rewrite app_nil_r.
  - cbn [for_each]. unfold bind, print at 1.
    destruct (IH (log (EvPrint (line x)) w)) as (w' & -> & Htr & ? & ? & ?).
    exists w'. split; [done|]. split; [|done]. rewrite Htr. cbn. by rewrite <- app_assoc.
Qed.

Lemma run_files_successes E fs w w' :
  for_each fs (TestFile E) w = (Ok tt, w') →
  successes w' = (successes w + length (filter (λ f, case_outcome E f = Pass) fs))%nat
  ∧ Forall (case_ends E) fs.
Proof.
  revert w. induction fs as [|f fs IH]; intros w.
  - intros [= <-]. split; [cbn; lia|constructor].
  - cbn [for_each]. unfold bind. pose proof (TestFile_result E f w) as HT.
    unfold case_ends. destruct (case_outcome E f) eqn:Ho.
    + destruct HT as (w1 & -> & _ & Hs). intros [H1 H2]%IH. split.
      * rewrite filter_cons_True by done. rewrite H1, Hs. cbn [length]. lia.
      * constructor; [rewrite Ho; tauto|done].
    + destruct HT as (e & w1 & -> & _). done.
    + destruct HT as (w1 & -> & _ & Hs). intros [H1 H2]%IH. split.
      * rewrite filter_cons_False by (rewrite Ho; done). by rewrite H1, Hs.
      * constructor; [rewrite Ho; tauto|done].
    + destruct HT as (w1 & -> & _ & Hs). intros [H1 H2]%IH. split.
      * rewrite filter_cons_False by (rewrite Ho; done). by rewrite H1, Hs.
      * constructor; [rewrite Ho; tauto|done].
    + destruct HT as (e & w1 & -> & _). done.
    + destruct HT as (e & w1 & -> & _). done.
Qed.

Lemma pass_or_fail_count E fs :
  Forall (case_ends E) fs →
  (length (filter (λ f, case_outcome E f = Pass) fs) + length (filter (case_fails E) fs)
   = length fs)%nat.
Proof.
  induction 1 as [|f fs Hf _ IH]; [done|]. unfold case_fails in *.
  destruct Hf as [Ho|[Ho|Ho]].
  - rewrite filter_cons_True by done.
    rewrite (filter_cons_False (λ f, _ ∨ _)) by (rewrite Ho; intros [|]; done).
    cbn [length]. lia.
  - rewrite filter_cons_False by (rewrite Ho; done).
    rewrite (filter_cons_True (λ f, _ ∨ _)) by (by left).
    cbn [length]. lia.
  - rewrite filter_cons_False by (rewrite Ho; done).
    rewrite (filter_cons_True (λ f, _ ∨ _)) by (by right).
    cbn [length]. lia.
Qed.

(** The world at the end of a run in which no case raised, from the world
    the cases left. *)
Lemma run_after_cases E args w1 :
  args ≠ [] →
  for_each (discovered E args) (TestFile E) init_world = (Ok tt, w1) →
  let w' := snd (run E args) in
  w_dirs w' = w_dirs w1 ∧ failures w' = failures w1 ∧ successes w' = successes w1
  ∧ w_trace w'
    = w_trace w1
      ++ match failures w1 with
         | [] => [EvPrint (success_line (successes w1))]
         | _ :: _ =>
             EvPrint (failure_line (successes w1) (length (failures w1)))
             :: ((λ x, EvPrint (failure_item x)) <$> failures w1)
         end
  ∧ fst (run E args) = match failures w1 with
                       | [] => Ok tt
                       | _ :: _ => Raise (SystemExit 1)
                       end.
Proof.
  intros Hargs H1. destruct args as [|arg args]; [done|].
  cbv zeta. unfold run. rewrite main_cons, H1.
  destruct (failures w1) as [|x fl] eqn:Hfl; [done|].
  destruct (for_each_print_eq (x :: fl) failure_item
              (log (EvPrint (failure_line (successes w1) (length (x :: fl)))) w1))
    as (w2 & -> & Htr & Hd & Hf & Hs).
  cbn [fst snd]. rewrite Htr, Hd, Hf, Hs. cbn [log w_dirs failures successes w_trace].
  rewrite Hfl. repeat split; try done. by rewrite <- app_assoc.
Qed.

(** X4.  The summary is right: when no case raises, the count that is printed is
    the number of discovered cases that passed, the cases that passed and the
    cases that failed are all the cases, the failure list names the failed
    cases in the order in which they were run, and the last lines of the
    output are the success line, or else the failure line followed by one
    line per failure, with exit status 1. *)
Theorem summary_counts_the_cases (E : env) (args : list pystr) :
  args ≠ [] →
  Forall (case_ends E) (discovered E args) →
  let fs := discovered E args in
  let w' := snd (run E args) in
  let p := length (filter (λ f, case_outcome E f = Pass) fs) in
  let q := length (failures w') in
  successes w' = p
  ∧ (p + q = length fs)%nat
  ∧ fst <$> failures w' = filter (case_fails E) fs
  ∧ (∃ evs, w_trace w'
            = evs ++ match failures w' with
                     | [] => [EvPrint (success_line p)]
                     | _ :: _ =>
                         EvPrint (failure_line p q)
                         :: ((λ x, EvPrint (failure_item x)) <$> failures w')
                     end)
  ∧ fst (run E args) = match failures w' with
                       | [] => Ok tt
                       | _ :: _ => Raise (SystemExit 1)
                       end.
Proof.
  intros Hargs Hends fs w' p q.
  destruct (run_files_end E fs init_world Hends) as (w1 & H1).
  destruct (run_after_cases E args w1 Hargs H1) as (_ & Hf & Hs & Htr & Hr).
  fold w' in Hf, Hs, Htr. destruct (run_files_successes E fs init_world w1 H1) as [Hp _].
  change (successes init_world) with 0%nat in Hp. rewrite Nat.add_0_l in Hp. fold fs p in Hp.
  pose proof (failures_in_order E fs init_world w1 H1) as Hord.
  change (fst <$> failures init_world) with (@nil pystr) in Hord.
  rewrite app_nil_l in Hord.
  assert (Hs' : successes w' = p) by congruence.
  assert (Hord' : fst <$> failures w' = filter (case_fails E) fs) by (by rewrite Hf).
  split; [done|]. split.
  { unfold q. rewrite <- (length_fmap fst), Hord'. by apply pass_or_fail_count. }
  split; [done|]. split.
  - exists (w_trace w1). rewrite Htr, Hf. unfold q. rewrite Hf. by rewrite <- Hp.
  - by rewrite Hr, Hf.
Qed.

(** X3.  At the end of a run in which no case raises, the working directories that
    exist are exactly those listed with the failures, each listed once
    (the names [mkdtemp] picks being all different). *)
Theorem retained_directories_are_listed (E : env) (args : list pystr) :
  Inj (=) (=) (mkdtemp_suffix E) →
  Forall (case_ends E) (discovered E args) →
  let w' := snd (run E args) in
  (∀ d, is_Some (w_dirs w' !! d) ↔ d ∈ snd <$> failures w')
  ∧ NoDup (snd <$> failures w').
Proof.
  intros Hinj Hends w'. destruct args as [|arg args].
  { destruct (tidy_init E) as (? & ? & _). done. }
  destruct (run_files_end E _ init_world Hends) as (w1 & H1).
  destruct (run_after_cases E (arg :: args) w1 ltac:(done) H1) as (Hd & Hf & _).
  fold w' in Hd, Hf. rewrite Hd, Hf.
  destruct (tidy_run_files E _ init_world w1 Hinj (tidy_init E) H1) as (? & ? & _).
  done.
Qed.

(** X5.  A test file that cannot be opened: [open] raises before the name is
    printed and before a directory is made, so the world stays as the earlier
    cases left it, and the process ends there with status 1. *)
Theorem unreadable_file_ends_the_run (E : env) (f : pystr) (w : world) :
  read_file E (abspath (getcwd E) f) = None →
  TestFile E f w = (Raise (OSError (abspath (getcwd E) f)), w)
  ∧ ∀ args fs1 fs2,
      discovered E args = fs1 ++ f :: fs2 →
      for_each fs1 (TestFile E) init_world = (Ok tt, w) →
      run E args = (Raise (OSError (abspath (getcwd E) f)), w)
      ∧ exit_status (fst (run E args)) = 1.
Proof.
  intros Hread. destruct (TestFile_not_readable E f w Hread) as [HT _].
  split; [done|]. intros args fs1 fs2 Hd H1.
  by rewrite (run_raise _ _ _ _ _ _ _ _ Hd H1 HT).
Qed.

Lemma str_not_word n (s : string) :
  NilZero.uint_of_string s = None → str n ≠ py s.
Proof.
  intros Hs Heq%py_inj. rewrite <- Heq in Hs.
  by destruct (NilZero.usu_gen (Nat.to_uint n)) as [H|H]; rewrite H in Hs.
Qed.

Lemma fixtures_lookup_word E abspath n (s : string) :
  NilZero.uint_of_string s = None → fixtures E abspath n !! py s = None.
Proof.
  intros Hs. apply not_elem_of_dom. rewrite fixtures_dom, elem_of_list_to_set.
  intros (i & Hi & _)%list_elem_of_fmap. symmetry in Hi. by apply str_not_word in Hi.
Qed.

(** X6.  What a failed case leaves in its directory.  After a crash: the
    files as the shell left them, to which the harness adds nothing.  After a
    mismatch: those files and [expected] with the expected output, while
    [actual] is missing or holds something else.  When the shell has made
    [actual] beside the fixtures and touched nothing else, the directory of
    a crashed case holds the fixtures and [actual], and no [expected]. *)
Theorem directory_of_failed_case (E : env) (f contents cl : pystr) (rest : list pystr)
    (w : world) :
  read_file E (abspath (getcwd E) f) = Some contents →
  Forall (λ i, fst (yaml2obj E (abspath (getcwd E) f) i) = 0)
    (seq 1 (length (re_findall_sep contents))) →
  skip_to_command (splitlines contents) = Ok (cl, rest) →
  let d := tmpdir_of E w in
  let w' := snd (TestFile E f w) in
  let o := outcome (fst (run_case E f w)) in
  let left := snd (sut_result E f cl contents) in
  let fx := fixtures E (abspath (getcwd E) f) (length (re_findall_sep contents)) in
  (o = Crashed → files_of d w' = left)
  ∧ (o = Mismatch →
     files_of d w' = <[py "expected" := expected_output rest]> left
     ∧ files_of d w' !! py "expected" = Some (expected_output rest)
     ∧ files_of d w' !! py "actual" = left !! py "actual"
     ∧ left !! py "actual" ≠ Some (expected_output rest))
  ∧ (∀ out, left = <[py "actual" := out]> fx → o = Crashed →
       files_of d w' = <[py "actual" := out]> fx
       ∧ files_of d w' !! py "actual" = Some out
       ∧ files_of d w' !! py "expected" = None).
Proof.
  intros Hread Hok Hskip d w' o left fx.
  apply first_bad_None in Hok. subst d.
  assert (Hinv : files_of (tmpdir_of E w) (invoked E f cl contents w) = left).
  { unfold invoked. by rewrite files_of_log, files_of_set_files by apply dir_provisioned. }
  assert (Hver : files_of (tmpdir_of E w) (verified E f cl contents rest w)
                 = <[py "expected" := expected_output rest]> left).
  { unfold verified. rewrite 2!files_of_log, files_of_put_file by apply dir_invoked.
    by rewrite Hinv. }
  assert (Hfin : ∀ tag w0, tag ≠ [] →
            files_of (tmpdir_of E w) (snd (finish_case f (tmpdir_of E w) (Some tag) w0))
            = files_of (tmpdir_of E w) w0).
  { intros tag w0 Htag. by rewrite finish_case_failure. }
  assert (Hcrash : o = Crashed → files_of (tmpdir_of E w) w' = left).
  { subst o w'. unfold TestFile, bind. rewrite run_case_eq, Hread, Hok, Hskip.
    cbv zeta. fold left. destruct (negb _).
    - intros _. cbn [fst]. rewrite Hfin by done. exact Hinv.
    - destruct (bool_decide _); cbn [fst]; [by rewrite outcome_passed|].
      by rewrite outcome_failed. }
  split; [exact Hcrash|]. split.
  - subst o w'. unfold TestFile, bind. rewrite run_case_eq, Hread, Hok, Hskip.
    cbv zeta. fold left. destruct (negb _); cbn [fst]; [by rewrite outcome_crashed|].
    destruct (bool_decide_reflect (left !! py "actual" = Some (expected_output rest)))
      as [Heq|Hne]; cbn [fst]; [by rewrite outcome_passed|].
    intros _. rewrite Hfin by done. rewrite Hver.
    split; [done|]. split; [apply lookup_insert_eq|]. split; [|done].
    by rewrite lookup_insert_ne.
  - intros out Hleft Ho. rewrite (Hcrash Ho), Hleft.
    split; [done|]. split; [apply lookup_insert_eq|].
    rewrite lookup_insert_ne by done. by apply fixtures_lookup_word.
Qed.

(** ** Lines and the text they come from *)

Lemma splitlines_from_line cur l rest :
  no_linebreak l → splitlines_from cur (l ++ LF :: rest) = (cur ++ l) :: splitlines rest.
Proof.
  unfold no_linebreak. revert cur. induction l as [|c l IH]; intros cur Hl.
  - cbn [app splitlines_from]. change (is_linebreak LF) with true. cbv iota.
    rewrite app_nil_r. destruct rest as [|d rest]; [done|].
    change ((LF =? CR)%N) with false. done.
  - cbn [forallb] in Hl. apply andb_prop in Hl as [Hc Hl]. apply negb_true_iff in Hc.
    cbn [app splitlines_from]. rewrite Hc, (IH _ Hl). by rewrite <- app_assoc.
Qed.

Lemma splitlines_line l rest :
  no_linebreak l → splitlines (l ++ LF :: rest) = l :: splitlines rest.
Proof.
  intros Hl. unfold splitlines at 1.
  destruct (l ++ LF :: rest) as [|c s] eqn:Hs; [by destruct l|].
  rewrite <- Hs. by rewrite splitlines_from_line.
Qed.

Lemma splitlines_from_last cur l : no_linebreak l → splitlines_from cur l = [cur ++ l].
Proof.
  unfold no_linebreak. revert cur. induction l as [|c l IH]; intros cur Hl.
  - by rewrite app_nil_r.
  - cbn [forallb] in Hl. apply andb_prop in Hl as [Hc Hl]. apply negb_true_iff in Hc.
    cbn [splitlines_from]. rewrite Hc, (IH _ Hl). by rewrite <- app_assoc.
Qed.

Lemma splitlines_unlines before rest :
  Forall no_linebreak before → splitlines (unlines before ++ rest) = before ++ splitlines rest.
Proof.
  induction 1 as [|l before Hl _ IH]; [done|].
  unfold unlines in *. cbn [fmap list_fmap concat]. rewrite <- !app_assoc. cbn [app].
  by rewrite (splitlines_line _ _ Hl), IH.
Qed.

Lemma skip_to_command_found before cl rest :
  Forall skipped_line before → startswith [DOLLAR] cl = true →
  skip_to_command (before ++ cl :: rest) = Ok (cl, rest).
Proof.
  intros Hb Hcl. induction Hb as [|l before Hl _ IH].
  - cbn [app skip_to_command]. destruct cl as [|c cl]; [done|].
    cbn [startswith] in Hcl. rewrite andb_true_r, N.eqb_sym in Hcl. by rewrite Hcl.
  - cbn [app skip_to_command]. destruct l as [|c l]; [done|].
    unfold skipped_line in Hl. cbn [startswith] in Hl.
    rewrite andb_true_r, N.eqb_sym in Hl. by rewrite Hl.
Qed.

Lemma lf_only_split t :
  lf_only t →
  no_linebreak t ∨ ∃ l r, t = l ++ LF :: r ∧ no_linebreak l ∧ lf_only r.
Proof.
  induction 1 as [|c t Hc Ht IH].
  - by left.
  - destruct (is_linebreak c) eqn:Hb.
    + right. exists [], t. rewrite (Hc eq_refl). by repeat split.
    + destruct IH as [Hn|(l & r & -> & Hl & Hr)].
      * left. unfold no_linebreak in *. cbn [forallb]. by rewrite Hb.
      * right. exists (c :: l), r. split; [done|]. split; [|done].
        unfold no_linebreak in *. cbn [forallb]. by rewrite Hb.
Qed.

Lemma endswith_snoc_LF l c : endswith [LF] (l ++ [c]) = (LF =? c)%N.
Proof.
  unfold endswith. rewrite reverse_snoc. change (reverse [LF]) with [LF].
  cbn [startswith]. apply andb_true_r.
Qed.

Lemma endswith_no_linebreak t : no_linebreak t → endswith [LF] t = false.
Proof.
  unfold no_linebreak. intros Ht. destruct (reverse t) as [|c r] eqn:Hr.
  - unfold endswith. by rewrite Hr.
  - apply (f_equal reverse) in Hr. rewrite reverse_involutive, reverse_cons in Hr.
    subst t. rewrite endswith_snoc_LF. rewrite forallb_app in Ht.
    apply andb_prop in Ht as [_ Ht]. cbn [forallb] in Ht. rewrite andb_true_r in Ht.
    destruct (N.eqb_spec LF c) as [<-|]; [done|done].
Qed.

Lemma endswith_after_LF l r : r ≠ [] → endswith [LF] (l ++ LF :: r) = endswith [LF] r.
Proof.
  intros Hr. destruct (reverse r) as [|c r'] eqn:Hrev.
  - apply (f_equal reverse) in Hrev. by rewrite reverse_involutive in Hrev.
  - apply (f_equal reverse) in Hrev. rewrite reverse_involutive, reverse_cons in Hrev.
    subst r. rewrite endswith_snoc_LF.
    replace (l ++ LF :: reverse r' ++ [c]) with ((l ++ LF :: reverse r') ++ [c])
      by (by rewrite <- app_assoc).
    apply endswith_snoc_LF.
Qed.

Lemma splitlines_nonempty t : t ≠ [] → splitlines t ≠ [].
Proof.
  destruct t as [|c t]; [done|]. intros _. unfold splitlines.
  generalize (@nil N). cbn [splitlines_from]. intros cur.
  destruct (is_linebreak c); [done|]. revert cur c. induction t as [|d t IH]; intros cur c.
  - done.
  - cbn [splitlines_from]. destruct (is_linebreak d); [done|]. apply IH; exact d.
Qed.

Lemma expected_output_cons l lines :
  lines ≠ [] → expected_output (l :: lines) = l ++ [LF] ++ expected_output lines.
Proof.
  intros Hl. unfold expected_output. destruct lines as [|x lines]; [done|].
  change (str_join [LF] (l :: x :: lines)) with (l ++ [LF] ++ str_join [LF] (x :: lines)).
  by rewrite <- !app_assoc.
Qed.

Lemma expected_output_splitlines n : ∀ t, (length t < n)%nat → lf_only t →
  expected_output (splitlines t) = if endswith [LF] t then t else t ++ [LF].
Proof.
  induction n as [|n IH]; intros t Hn Ht; [lia|].
  destruct (lf_only_split t Ht) as [Hnl|(l & r & -> & Hl & Hr)].
  - rewrite (endswith_no_linebreak _ Hnl). destruct t as [|c t]; [done|].
    unfold splitlines. by rewrite (splitlines_from_last [] _ Hnl).
  - rewrite (splitlines_line _ _ Hl). destruct r as [|c r].
    + cbn [splitlines]. rewrite endswith_snoc_LF. done.
    + rewrite endswith_after_LF by done.
      rewrite expected_output_cons by (by apply splitlines_nonempty).
      rewrite IH; [|rewrite length_app in Hn; cbn in Hn |- *; lia|done].
      destruct (endswith [LF] (c :: r)); by rewrite <- ?app_assoc.
Qed.

(** X7.  The expected output is the text of the file after the command line: when
    the command line is followed by LF and a text whose line boundaries are
    LF characters, the expected output is that text, with one LF appended
    when the text does not already end with one. *)
Theorem expected_text_is_reproduced (before : list pystr) (cl tail : pystr) :
  Forall no_linebreak before →
  Forall skipped_line before →
  no_linebreak cl →
  startswith [DOLLAR] cl = true →
  lf_only tail →
  skip_to_command (splitlines (unlines before ++ cl ++ LF :: tail))
  = Ok (cl, splitlines tail)
  ∧ expected_output (splitlines tail) = (if endswith [LF] tail then tail else tail ++ [LF]).
Proof.
  intros Hb Hs Hcl Hd Ht. split.
  - rewrite (splitlines_unlines _ _ Hb), (splitlines_line _ _ Hcl).
    exact (skip_to_command_found _ _ _ Hs Hd).
  - apply (expected_output_splitlines (S (length tail))); [lia|done].
Qed.

(** ** The further properties at concrete runs *)

Lemma verdict_of_case_witness :
  (outcome (fst (run_case env_hello (py "t.test") init_world)) = Pass
   ↔ fst (sut_result env_hello (py "t.test") (py "$ echo hello") text_hello) = 0
     ∧ snd (sut_result env_hello (py "t.test") (py "$ echo hello") text_hello)
       !! py "actual" = Some (expected_output [py "hello"]))
  ∧ fst (sut_result env_comment (py "t.test") (py "$ echo hello #") text_comment) = 0
  ∧ snd (sut_result env_comment (py "t.test") (py "$ echo hello #") text_comment)
    !! py "actual" = None
  ∧ outcome (fst (run_case env_comment (py "t.test") init_world)) = Mismatch.
Proof.
  destruct (verdict_of_case env_hello (py "t.test") text_hello (py "$ echo hello")
              [py "hello"] init_world) as (Hp & _); [reflexivity|constructor|reflexivity|].
  split; [exact Hp|].
  destruct (verdict_of_case env_comment (py "t.test") text_comment (py "$ echo hello #")
              [py "hello"] init_world) as (_ & Hm & _); [reflexivity|constructor|reflexivity|].
  split; [reflexivity|]. split; [reflexivity|].
  apply Hm. split; [reflexivity|discriminate].
Defined.

Lemma summary_counts_the_cases_witness :
  discovered env_mixed [py "d"] = [py "d/c.test"; py "d/p.test"]
  ∧ successes (snd (run env_mixed [py "d"])) = 1%nat
  ∧ fst <$> failures (snd (run env_mixed [py "d"])) = [py "d/c.test"]
  ∧ fst (run env_mixed [py "d"]) = Raise (SystemExit 1).
Proof.
  split; [reflexivity|].
  assert (Hends : Forall (case_ends env_mixed) (discovered env_mixed [py "d"])).
  { constructor; [right; left; reflexivity|].
    constructor; [left; reflexivity|constructor]. }
  destruct (summary_counts_the_cases env_mixed [py "d"] ltac:(discriminate) Hends)
    as (Hs & _ & Hf & _ & Hr).
  split; [rewrite Hs; reflexivity|]. split; [rewrite Hf; reflexivity|].
  rewrite Hr. reflexivity.
Defined.

Lemma retained_directories_are_listed_witness :
  Inj (=) (=) (mkdtemp_suffix env_mixed)
  ∧ is_Some (w_dirs (snd (run env_mixed [py "d"])) !! py "/tmp/bloaty-0")
  ∧ w_dirs (snd (run env_mixed [py "d"])) !! py "/tmp/bloaty-1" = None.
Proof.
  assert (Hinj : Inj (=) (=) (mkdtemp_suffix env_mixed)) by (intros a b; apply str_inj).
  assert (Hends : Forall (case_ends env_mixed) (discovered env_mixed [py "d"])).
  { constructor; [right; left; reflexivity|].
    constructor; [left; reflexivity|constructor]. }
  split; [exact Hinj|].
  destruct (retained_directories_are_listed env_mixed [py "d"] Hinj Hends) as [Hd _].
  split.
  - apply Hd. apply elem_of_cons. left. reflexivity.
  - apply eq_None_not_Some. intros Hs%Hd. revert Hs.
    change (snd <$> failures (snd (run env_mixed [py "d"]))) with [py "/tmp/bloaty-0"].
    intros Hs%list_elem_of_singleton. discriminate Hs.
Defined.

Lemma unreadable_file_ends_the_run_witness :
  read_file env_hello (abspath (getcwd env_hello) (py "missing.test")) = None
  ∧ run env_hello [py "t.test"; py "missing.test"; py "t.test"]
    = (Raise (OSError (py "/b/missing.test")),
       snd (TestFile env_hello (py "t.test") init_world)).
Proof.
  assert (Hread : read_file env_hello (abspath (getcwd env_hello) (py "missing.test")) = None)
    by reflexivity.
  split; [exact Hread|].
  destruct (unreadable_file_ends_the_run env_hello (py "missing.test")
              (snd (TestFile env_hello (py "t.test") init_world)) Hread) as [_ Hrun].
  destruct (Hrun [py "t.test"; py "missing.test"; py "t.test"] [py "t.test"] [py "t.test"])
    as [-> _]; [reflexivity|vm_compute; reflexivity|reflexivity].
Defined.

Lemma directory_of_failed_case_witness :
  (outcome (fst (run_case env_crash (py "t.test") init_world)) = Crashed
   ∧ files_of (py "/tmp/bloaty-0") (snd (TestFile env_crash (py "t.test") init_world))
     = {[ py "actual" := py "hello" ++ [LF] ]})
  ∧ (outcome (fst (run_case env_comment (py "t.test") init_world)) = Mismatch
     ∧ files_of (py "/tmp/bloaty-0") (snd (TestFile env_comment (py "t.test") init_world))
       = {[ py "expected" := py "hello" ++ [LF] ]}).
Proof.
  split.
  - split; [reflexivity|].
    destruct (directory_of_failed_case env_crash (py "t.test") text_hello (py "$ echo hello")
                [py "hello"] init_world) as [Hc _]; [reflexivity|constructor|reflexivity|].
    etransitivity; [exact (Hc eq_refl)|]. reflexivity.
  - split; [reflexivity|].
    destruct (directory_of_failed_case env_comment (py "t.test") text_comment
                (py "$ echo hello #") [py "hello"] init_world) as (_ & Hm & _);
      [reflexivity|constructor|reflexivity|].
    destruct (Hm eq_refl) as (Hfiles & _). etransitivity; [exact Hfiles|]. reflexivity.
Defined.

Lemma expected_text_is_reproduced_witness :
  expected_output (splitlines (py "a" ++ [LF] ++ py "b")) = py "a" ++ [LF] ++ py "b" ++ [LF]
  ∧ expected_output (splitlines (py "a" ++ [LF] ++ py "b" ++ [LF]))
    = py "a" ++ [LF] ++ py "b" ++ [LF].
Proof.
  split.
  - destruct (expected_text_is_reproduced [py "--- !ELF"] (py "$ bloaty 1")
                (py "a" ++ [LF] ++ py "b")) as [_ ->];
      [by repeat constructor|by repeat constructor|reflexivity|reflexivity| |reflexivity].
    unfold lf_only. change (py "a" ++ [LF] ++ py "b") with [97%N; LF; 98%N].
    repeat (constructor; [by vm_compute|]). constructor.
  - destruct (expected_text_is_reproduced [py "--- !ELF"] (py "$ bloaty 1")
                (py "a" ++ [LF] ++ py "b" ++ [LF])) as [_ ->];
      [by repeat constructor|by repeat constructor|reflexivity|reflexivity| |reflexivity].
    unfold lf_only. change (py "a" ++ [LF] ++ py "b" ++ [LF]) with [97%N; LF; 98%N; LF].
    repeat (constructor; [by vm_compute|]). constructor.
Defined.

(** ** update_headers.py: replacing and downloading *)

Lemma startswith_self_app p s : startswith p (p ++ s) = true.
Proof. induction p as [|a p IH]; [done|]. cbn. by rewrite N.eqb_refl. Qed.

Lemma startswith_spec p s : startswith p s = true ↔ ∃ t, s = p ++ t.
Proof.
  revert s. induction p as [|a p IH]; intros s.
  - split; [by exists s|done].
  - destruct s as [|b s]; cbn [startswith].
    + split; [done|]. by intros (t & ?).
    + rewrite andb_true_iff, N.eqb_eq, IH. split.
      * intros (-> & t & ->). by exists t.
      * intros (t & [= -> ->]). split; [done|by exists t].
Qed.

Lemma contains_app_r sub a s : contains sub s = true → contains sub (a ++ s) = true.
Proof.
  intros H. induction a as [|c a IH]; [done|]. cbn [app contains].
  rewrite IH. apply orb_true_r.
Qed.

Lemma contains_here sub s : contains sub (sub ++ s) = true.
Proof. destruct (sub ++ s) eqn:Heq; cbn [contains]; rewrite <- Heq;
  by rewrite startswith_self_app. Qed.

Lemma replace_skip old new t s :
  replace_from old new (length t) (t ++ s) = replace_from old new 0 s.
Proof. induction t as [|c t IH]; [done|]. cbn [app length replace_from]. apply IH. Qed.

Lemma str_replace_eq old new s : old ≠ [] → str_replace old new s = replace_from old new 0 s.
Proof. by destruct old. Qed.

Lemma replace_from_absent old new s :
  contains old s = false → replace_from old new 0 s = s.
Proof.
  induction s as [|c s IH]; [done|].
  cbn [contains replace_from]. intros [H1 H2]%orb_false_elim. rewrite H1. by rewrite IH.
Qed.

Lemma replace_from_here old new s :
  old ≠ [] → replace_from old new 0 (old ++ s) = new ++ replace_from old new 0 s.
Proof.
  intros Hold. destruct old as [|c old]; [done|].
  cbn [app replace_from]. change (c :: old ++ s) with ((c :: old) ++ s).
  rewrite startswith_self_app. cbn [length]. rewrite Nat.sub_succ, Nat.sub_0_r.
  by rewrite replace_skip.
Qed.

(** Replacement passes over a prefix in which no occurrence starts. *)
Lemma replace_from_prefix old new a s :
  (∀ i, (i < length a)%nat → startswith old (drop i (a ++ s)) = false) →
  replace_from old new 0 (a ++ s) = a ++ replace_from old new 0 s.
Proof.
  induction a as [|c a IH]; intros H; [done|].
  pose proof (H 0%nat ltac:(cbn; lia)) as H0. rewrite drop_0 in H0.
  cbn [app] in H0. cbn [app replace_from]. rewrite H0. f_equal.
  apply IH. intros i Hi. apply (H (S i)). cbn. lia.
Qed.

Lemma contains_drop sub s i : contains sub s = false → contains sub (drop i s) = false.
Proof.
  revert s. induction i as [|i IH]; intros s; [by rewrite drop_0|].
  destruct s as [|c s]; [done|]. cbn [contains drop].
  intros [_ H]%orb_false_elim. by apply IH.
Qed.

Lemma contains_false_startswith sub s : contains sub s = false → startswith sub s = false.
Proof. destruct s; cbn [contains]; [by rewrite orb_false_r|]. by intros [? _]%orb_false_elim. Qed.

Lemma contains_false_iff p s :
  contains p s = false ↔ ∀ i, (i ≤ length s)%nat → startswith p (drop i s) = false.
Proof.
  induction s as [|c s IH].
  - cbn [contains length]. rewrite orb_false_r. split.
    + intros H i Hi. by replace i with 0%nat by lia.
    + intros H. apply (H 0%nat). lia.
  - cbn [contains length]. rewrite orb_false_iff, IH. split.
    + intros [H0 H] [|i] Hi; [done|]. apply H. lia.
    + intros H. split; [apply (H 0%nat); lia|]. intros i Hi. apply (H (S i)). lia.
Qed.

(** An occurrence that starts in [a] and goes on into [b] ends with a proper
    suffix of the pattern at the start of [b]. *)
Lemma startswith_app_split p a b :
  startswith p (a ++ b) = true →
  startswith p a = true
  ∨ ∃ k, (k < length p)%nat ∧ k = length a ∧ startswith (drop k p) b = true.
Proof.
  revert a. induction p as [|c p IH]; intros a; [by left|].
  destruct a as [|x a].
  - intros H. right. exists 0%nat. cbn [length]. split; [lia|]. by split.
  - cbn [app startswith]. intros [Hc H]%andb_true_iff. rewrite Hc. cbn [andb].
    destruct (IH _ H) as [Hl|(k & Hk & Hlen & Hs)]; [by left|].
    right. exists (S k). cbn [length drop]. split; [lia|]. split; [lia|done].
Qed.

Lemma no_occurrence_across p a b :
  contains p a = false →
  (∀ k, (0 < k < length p)%nat → startswith (drop k p) b = false) →
  ∀ i, (i < length a)%nat → startswith p (drop i (a ++ b)) = false.
Proof.
  intros Ha Hb i Hi. rewrite drop_app_le by lia.
  destruct (startswith p (drop i a ++ b)) eqn:Hs; [|done].
  destruct (startswith_app_split _ _ _ Hs) as [Hl|(k & Hk & Hlen & Hk')].
  - rewrite contains_false_iff in Ha. rewrite Ha in Hl by lia. done.
  - rewrite Hb in Hk'; [done|]. rewrite length_drop in Hlen. lia.
Qed.

Lemma contains_app_false p a b :
  contains p a = false → contains p b = false →
  (∀ k, (0 < k < length p)%nat → startswith (drop k p) b = false) →
  contains p (a ++ b) = false.
Proof.
  intros Ha Hb Hk. apply contains_false_iff. intros i Hi.
  destruct (decide (i < length a)%nat) as [Hlt|Hge].
  - by apply no_occurrence_across.
  - rewrite drop_app_ge by lia. rewrite contains_false_iff in Hb. apply Hb.
    rewrite length_app in Hi. lia.
Qed.

(** A bounded check, by evaluation, that no proper suffix of a pattern
    starts a text. *)
Lemma no_suffix_starts p b :
  forallb (λ k, negb (startswith (drop k p) b)) (seq 1 (length p - 1)) = true →
  ∀ k, (0 < k < length p)%nat → startswith (drop k p) b = false.
Proof.
  intros H k Hk. rewrite forallb_forall in H.
  apply negb_true_iff, H, in_seq. lia.
Qed.

Lemma replace_prefix_of_github path (dot_git : bool) :
  contains (py "https://github.com/") path = false →
  str_replace (py "https://github.com/") []
    (py "https://github.com/" ++ path ++ (if dot_git then py ".git" else []))
  = path ++ (if dot_git then py ".git" else []).
Proof.
  intros Hp. rewrite str_replace_eq by done. rewrite replace_from_here by done.
  cbn [app]. apply replace_from_absent.
  destruct dot_git; [|by rewrite app_nil_r].
  apply contains_app_false; [done|reflexivity|].
  by apply no_suffix_starts.
Qed.

Lemma replace_dot_git path (dot_git : bool) :
  contains (py ".git") path = false →
  str_replace (py ".git") [] (path ++ (if dot_git then py ".git" else [])) = path.
Proof.
  intros Hp. rewrite str_replace_eq by done. destruct dot_git.
  - rewrite replace_from_prefix.
    + rewrite <- (app_nil_r (py ".git")) at 2. rewrite replace_from_here by done.
      cbn [app replace_from]. by rewrite app_nil_r.
    + apply no_occurrence_across; [done|]. by apply no_suffix_starts.
  - rewrite app_nil_r. by apply replace_from_absent.
Qed.

Lemma raw_url_of_github path commit source_path (dot_git : bool) :
  contains (py ".git") path = false →
  contains (py "https://github.com/") path = false →
  raw_url (py "https://github.com/" ++ path ++ (if dot_git then py ".git" else []))
    commit source_path
  = py "https://raw.githubusercontent.com/" ++ path ++ py "/" ++ commit
    ++ py "/" ++ source_path.
Proof.
  intros Hg Hp. unfold raw_url.
  by rewrite replace_prefix_of_github, replace_dot_git.
Qed.

Lemma github_url_is_supported s :
  contains (py "github.com") (py "https://github.com/" ++ s) = true.
Proof.
  change (py "https://github.com/" ++ s)
    with (py "https://" ++ py "github.com" ++ py "/" ++ s).
  apply contains_app_r, contains_here.
Qed.

(** X8.  The URL that is downloaded: for a repository given as
    [https://github.com/PATH] or as [https://github.com/PATH.git], where PATH
    contains neither [.git] nor the prefix again, the check of the URL passes,
    one line is printed, and the file is asked for at
    [https://raw.githubusercontent.com/PATH/COMMIT/SOURCE]: the body of the
    reply is returned, and any failure of the request is raised as
    [RuntimeError]. *)
Theorem download_url_of_github_repository (urlopen : pystr → reply)
    (path commit source_path : pystr) (dot_git : bool) :
  contains (py ".git") path = false →
  contains (py "https://github.com/") path = false →
  let repo_url := py "https://github.com/" ++ path ++ (if dot_git then py ".git" else []) in
  let url := py "https://raw.githubusercontent.com/" ++ path ++ py "/" ++ commit
             ++ py "/" ++ source_path in
  let r := fetch_file_from_github urlopen repo_url commit source_path in
  fst r = [py "    Downloading: " ++ url]
  ∧ (∀ data, snd r = Return data ↔ urlopen url = Body data)
  ∧ ((∀ data, urlopen url ≠ Body data) → ∃ msg, snd r = Raised (RuntimeError msg)).
Proof.
  intros Hg Hp repo_url url r. subst r. unfold fetch_file_from_github.
  subst repo_url. rewrite github_url_is_supported. cbn [negb fst snd].
  rewrite raw_url_of_github by done. fold url.
  split; [done|]. split.
  - intros data. destruct (urlopen url); split; congruence.
  - intros Hno. destruct (urlopen url) as [d| | |]; [by destruct (Hno d)|by eexists..].
Qed.

Lemma download_url_of_github_repository_witness :
  let urlopen := λ _ : pystr, HTTPError (py "HTTP Error 404: Not Found") in
  let r := fetch_file_from_github urlopen
             (py "https://github.com/apple-oss-distributions/xnu.git") (py "abc")
             (py "EXTERNAL_HEADERS/mach-o/loader.h") in
  fst r = [py "    Downloading: https://raw.githubusercontent.com/apple-oss-distributions/xnu/abc/EXTERNAL_HEADERS/mach-o/loader.h"]
  ∧ ∃ msg, snd r = Raised (RuntimeError msg).
Proof.
  intros urlopen r.
  destruct (download_url_of_github_repository urlopen (py "apple-oss-distributions/xnu")
              (py "abc") (py "EXTERNAL_HEADERS/mach-o/loader.h") true
              eq_refl eq_refl) as (H1 & _ & H3).
  split; [exact H1|]. apply H3. intros data. discriminate.
Defined.

(** X9.  The check of the repository URL is weaker than the rewriting: a URL
    that mentions [github.com] without the prefix [https://github.com/] and
    without [.git] is accepted, and it is put whole into the address that is
    asked for. *)
Theorem other_github_url_is_kept_whole (urlopen : pystr → reply)
    (repo_url commit source_path : pystr) :
  contains (py "github.com") repo_url = true →
  contains (py "https://github.com/") repo_url = false →
  contains (py ".git") repo_url = false →
  fst (fetch_file_from_github urlopen repo_url commit source_path)
  = [py "    Downloading: https://raw.githubusercontent.com/" ++ repo_url ++ py "/"
     ++ commit ++ py "/" ++ source_path].
Proof.
  intros Hc Hp Hg. unfold fetch_file_from_github. rewrite Hc. cbn [negb fst].
  unfold raw_url. rewrite !str_replace_eq by done.
  rewrite (replace_from_absent _ _ _ Hp), (replace_from_absent _ _ _ Hg). done.
Qed.

Lemma other_github_url_is_kept_whole_witness :
  fst (fetch_file_from_github (λ _, URLError []) (py "http://github.com/a/b") (py "c")
         (py "f.h"))
  = [py "    Downloading: https://raw.githubusercontent.com/http://github.com/a/b/c/f.h"].
Proof.
  exact (other_github_url_is_kept_whole (λ _, URLError []) (py "http://github.com/a/b")
           (py "c") (py "f.h") eq_refl eq_refl eq_refl).
Defined.

(** ** update_headers.py: the METADATA parser *)

Lemma split_on_app sep a b :
  sep ∉ a → split_on sep (a ++ sep :: b) = a :: split_on sep b.
Proof.
  induction a as [|c a IH]; intros Ha.
  - cbn [app split_on]. by rewrite N.eqb_refl.
  - apply not_elem_of_cons in Ha as [Hc Ha]. cbn [app split_on].
    destruct (N.eqb_spec c sep) as [->|_]; [done|]. by rewrite IH.
Qed.

Lemma split_on_single sep a : sep ∉ a → split_on sep a = [a].
Proof.
  induction a as [|c a IH]; intros Ha; [done|].
  apply not_elem_of_cons in Ha as [Hc Ha]. cbn [split_on].
  destruct (N.eqb_spec c sep) as [->|_]; [done|]. by rewrite IH.
Qed.

Lemma split_on_join sep lines :
  lines ≠ [] → Forall (λ l, sep ∉ l) lines → split_on sep (str_join [sep] lines) = lines.
Proof.
  induction lines as [|l lines IH]; [done|]. intros _ Hall.
  apply Forall_cons in Hall as [Hl Hall]. destruct lines as [|x lines].
  - by apply split_on_single.
  - change (str_join [sep] (l :: x :: lines)) with (l ++ sep :: str_join [sep] (x :: lines)).
    rewrite split_on_app by done. by rewrite IH.
Qed.

Lemma span_stop p a c r :
  forallb p a = true → p c = false → span p (a ++ c :: r) = (a, c :: r).
Proof.
  intros Ha Hc. induction a as [|x a IH]; cbn [app span].
  - by rewrite Hc.
  - cbn [forallb] in Ha. apply andb_true_iff in Ha as [-> Ha]. by rewrite IH.
Qed.

Lemma foldl_step {A B} (f : A → B → A) a a' x l :
  f a x = a' → foldl f a (x :: l) = foldl f a' l.
Proof. by intros <-. Qed.

Section MetadataFacts.

Variable U : unicode.

Lemma py_lstrip_spaces pre s :
  forallb (isspace U) pre = true → py_lstrip U (pre ++ s) = py_lstrip U s.
Proof.
  induction pre as [|c pre IH]; [done|]. cbn [forallb app py_lstrip].
  intros [-> H]%andb_true_iff. by apply IH.
Qed.

Lemma py_lstrip_head c s : isspace U c = false → py_lstrip U (c :: s) = c :: s.
Proof. intros H. cbn [py_lstrip]. by rewrite H. Qed.

(** Stripping takes the spaces before a text that begins and ends with
    characters other than spaces. *)
Lemma py_strip_indented pre c body q :
  forallb (isspace U) pre = true → isspace U c = false → isspace U q = false →
  py_strip U (pre ++ c :: body ++ [q]) = c :: body ++ [q].
Proof.
  intros Hpre Hc Hq. unfold py_strip. rewrite py_lstrip_spaces by done.
  rewrite py_lstrip_head by done.
  change (c :: body ++ [q]) with ((c :: body) ++ [q]).
  rewrite reverse_snoc. rewrite py_lstrip_head by done.
  by rewrite reverse_cons, reverse_involutive.
Qed.

(** A field with its value between double quotes. *)
Lemma match_quoted_field key sp value rest :
  key ≠ [] → forallb (isword U) key = true →
  forallb (isspace U) sp = true →
  value ≠ [] → QUOTE ∉ value →
  match_quoted U (key ++ COLON :: sp ++ QUOTE :: value ++ QUOTE :: rest) = Some (key, value).
Proof.
  intros Hk Hkw Hsp Hv Hq. unfold match_quoted.
  rewrite (span_stop (isword U) key COLON) by done.
  destruct key as [|k key]; [done|]. rewrite N.eqb_refl.
  rewrite (span_stop (isspace U) sp QUOTE) by done. cbn [snd]. rewrite N.eqb_refl.
  rewrite (span_stop _ value QUOTE).
  - by destruct value.
  - apply forallb_forall. intros x Hx. apply negb_true_iff, N.eqb_neq.
    intros ->. by apply Hq, list_elem_of_In.
  - done.
Qed.

(** The lines that change nothing outside a block. *)
Lemma parse_line_outside st l :
  in_third_party st = false → py_strip U l ≠ py "third_party {" → parse_line U st l = st.
Proof.
  intros Hin Hl. unfold parse_line. rewrite bool_decide_eq_false_2 by done.
  rewrite Hin, !andb_false_r. done.
Qed.

Lemma parse_lines_outside st lines :
  in_third_party st = false →
  Forall (λ l, py_strip U l ≠ py "third_party {") lines →
  foldl (parse_line U) st lines = st.
Proof.
  intros Hin. induction 1 as [|l lines Hl _ IH]; [done|].
  cbn [foldl]. by rewrite parse_line_outside.
Qed.

Lemma parser_inv_start : parser_inv parser_start.
Proof. split; [constructor|]. split; [done|by left]. Qed.

Lemma parser_inv_step st l : parser_inv st → parser_inv (parse_line U st l).
Proof.
  intros Hinv. pose proof Hinv as (Hb & Hin & Hout). unfold parse_line.
  destruct (bool_decide _).
  { split; [done|]. split; [|done]. intros _. split; [done|by eexists]. }
  destruct (in_third_party st) eqn:Ein.
  2:{ by rewrite !andb_false_r. }
  destruct (Hin eq_refl) as [Hd [b Hcur]]. rewrite !andb_true_r.
  destruct (endswith _ _).
  { split; [done|]. cbn. split; [|done]. intros _. split; [lia|by eexists]. }
  destruct (bool_decide _).
  - destruct (Z.eqb_spec (brace_depth st - 1) 0) as [H0|H0].
    + rewrite Hcur. destruct (bool_decide_reflect (b = ∅)) as [->|Hne].
      * split; [done|]. cbn. split; [done|]. intros _. by right.
      * split; cbn; [|split; [done|by left]].
        apply Forall_app. split; [done|]. by constructor.
    + split; [done|]. cbn. split; [|done]. intros _. split; [lia|by eexists].
  - rewrite Hcur. destruct (match_quoted U _) as [[k v]|].
    { split; [done|]. cbn. split; [|done]. intros _. split; [done|by eexists]. }
    destruct (match_plain U _) as [[k v]|]; [|done].
    split; [done|]. cbn. split; [|done]. intros _. split; [done|by eexists].
Qed.

Lemma parser_inv_lines st lines : parser_inv st → parser_inv (foldl (parse_line U) st lines).
Proof.
  revert st. induction lines as [|l lines IH]; intros st Hst; [done|].
  cbn [foldl]. by apply IH, parser_inv_step.
Qed.

Lemma parse_line_open st l :
  py_strip U l = py "third_party {" →
  parse_line U st l
  = {| blocks := blocks st; current_block := Some ∅; in_third_party := true;
       brace_depth := 1 |}.
Proof. intros H. unfold parse_line. by rewrite bool_decide_eq_true_2. Qed.

Lemma parse_line_nested st l :
  in_third_party st = true →
  py_strip U l ≠ py "third_party {" → endswith (py "{") (py_strip U l) = true →
  parse_line U st l
  = {| blocks := blocks st; current_block := current_block st;
       in_third_party := true; brace_depth := brace_depth st + 1 |}.
Proof.
  intros Hin H1 H2. unfold parse_line.
  rewrite bool_decide_eq_false_2 by done. by rewrite H2, Hin.
Qed.

Lemma parse_line_inner_close st l :
  in_third_party st = true → py_strip U l = py "}" → brace_depth st ≠ 1 →
  parse_line U st l
  = {| blocks := blocks st; current_block := current_block st;
       in_third_party := true; brace_depth := brace_depth st - 1 |}.
Proof.
  intros Hin H1 Hd. unfold parse_line. rewrite H1, Hin.
  destruct (Z.eqb_spec (brace_depth st - 1) 0); [lia|done].
Qed.

Lemma parse_line_close st l b :
  in_third_party st = true → py_strip U l = py "}" → brace_depth st = 1 →
  current_block st = Some b → b ≠ ∅ →
  parse_line U st l
  = {| blocks := blocks st ++ [b]; current_block := None;
       in_third_party := false; brace_depth := 0 |}.
Proof.
  intros Hin H1 Hd Hcur Hb. unfold parse_line. rewrite H1, Hin, Hd, Hcur.
  change (bool_decide (py "}" = py "third_party {")) with false.
  change (endswith (py "{") (py "}")) with false.
  rewrite (bool_decide_eq_true_2 (py "}" = py "}")) by done.
  cbn [andb]. change (1 - 1 =? 0) with true. cbv iota.
  by rewrite bool_decide_eq_false_2.
Qed.

Lemma parse_line_field st l b key value :
  in_third_party st = true → current_block st = Some b →
  py_strip U l ≠ py "third_party {" → endswith (py "{") (py_strip U l) = false →
  py_strip U l ≠ py "}" →
  match match_quoted U (py_strip U l) with
  | Some kv => Some kv
  | None => match_plain U (py_strip U l)
  end = Some (key, value) →
  parse_line U st l
  = {| blocks := blocks st; current_block := Some (<[key := value]> b);
       in_third_party := true; brace_depth := brace_depth st |}.
Proof.
  intros Hin Hcur H1 H2 H3 Hm. unfold parse_line.
  rewrite (bool_decide_eq_false_2 _ H1), H2, (bool_decide_eq_false_2 _ H3), Hin, Hcur.
  cbn [andb]. destruct (match_quoted U _) as [[k v]|].
  - by injection Hm as -> ->.
  - by rewrite Hm.
Qed.

Lemma endswith_snoc c l d : endswith [c] (l ++ [d]) = (c =? d)%N.
Proof.
  unfold endswith. rewrite reverse_snoc. change (reverse [c]) with [c].
  cbn [startswith]. apply andb_true_r.
Qed.

(** The line of a field between double quotes, with spaces before it. *)
Lemma parse_line_quoted st b pre k key value :
  in_third_party st = true → current_block st = Some b →
  forallb (isspace U) pre = true →
  isspace U k = false → forallb (isword U) (k :: key) = true →
  value ≠ [] → QUOTE ∉ value →
  parse_line U st (pre ++ (k :: key) ++ py ": " ++ [QUOTE] ++ value ++ [QUOTE])
  = {| blocks := blocks st; current_block := Some (<[k :: key := value]> b);
       in_third_party := true; brace_depth := brace_depth st |}.
Proof.
  intros Hin Hcur Hpre Hk Hkw Hv Hq.
  assert (Hs : py_strip U (pre ++ (k :: key) ++ py ": " ++ [QUOTE] ++ value ++ [QUOTE])
               = (k :: key ++ py ": " ++ [QUOTE] ++ value) ++ [QUOTE]).
  { replace ((k :: key) ++ py ": " ++ [QUOTE] ++ value ++ [QUOTE])
      with (k :: (key ++ py ": " ++ [QUOTE] ++ value) ++ [QUOTE])
      by (cbn [app]; by rewrite <- !app_assoc).
    rewrite py_strip_indented by done. cbn [app]. done. }
  assert (He : ∀ c, c ≠ QUOTE →
            endswith [c] ((k :: key ++ py ": " ++ [QUOTE] ++ value) ++ [QUOTE]) = false).
  { intros c Hc. rewrite endswith_snoc. by apply N.eqb_neq. }
  apply parse_line_field; rewrite ?Hs; try done.
  - intros H. specialize (He 123%N ltac:(done)). rewrite H in He. done.
  - by apply (He 123%N).
  - intros H. specialize (He 125%N ltac:(done)). rewrite H in He. done.
  - replace ((k :: key ++ py ": " ++ [QUOTE] ++ value) ++ [QUOTE])
      with ((k :: key) ++ COLON :: [32%N] ++ QUOTE :: value ++ QUOTE :: [])
      by (cbn [app]; by rewrite <- !app_assoc).
    by rewrite match_quoted_field.
Qed.

Lemma parse_block_lines st url version :
  in_third_party st = false →
  url ≠ [] → QUOTE ∉ url → version ≠ [] → QUOTE ∉ version →
  foldl (parse_line U) st
    [py "third_party {";
     py "  url {";
     py "    type: GIT";
     py "    value: " ++ [34%N] ++ url ++ [34%N];
     py "  }";
     py "  version: " ++ [34%N] ++ version ++ [34%N];
     py "}"]
  = {| blocks := blocks st ++ [repository_block url version]; current_block := None;
       in_third_party := false; brace_depth := 0 |}.
Proof.
  intros Hin Hu Hqu Hv Hqv.
  erewrite foldl_step; [|by apply parse_line_open].
  erewrite foldl_step; [|by apply parse_line_nested].
  erewrite foldl_step; [|by apply parse_line_field].
  erewrite foldl_step;
    [|by eapply (parse_line_quoted _ _ (py "    ") 118%N (py "alue") url)].
  erewrite foldl_step; [|by apply parse_line_inner_close].
  erewrite foldl_step;
    [|by eapply (parse_line_quoted _ _ (py "  ") 118%N (py "ersion") version)].
  erewrite foldl_step; [|eapply parse_line_close; [done..|apply insert_non_empty]].
  done.
Qed.

End MetadataFacts.

Lemma split_on_app_any sep a b :
  split_on sep (a ++ sep :: b) = split_on sep a ++ split_on sep b.
Proof.
  induction a as [|c a IH].
  - cbn [app split_on]. by rewrite N.eqb_refl.
  - cbn [app split_on]. rewrite IH. destruct (c =? sep)%N; [done|].
    destruct (split_on_first sep a) as (first & others & -> & _). done.
Qed.

Lemma blocks_kept_without_close U st lines :
  Forall (λ l, py_strip U l ≠ py "}") lines →
  blocks (foldl (parse_line U) st lines) = blocks st.
Proof.
  intros H. revert st. induction H as [|l lines Hl _ IH]; intros st; [done|].
  cbn [foldl]. rewrite IH. unfold parse_line.
  rewrite (bool_decide_eq_false_2 (py_strip U l = py "}")) by done.
  cbn [andb]. repeat case_match; done.
Qed.

Lemma find_repo_spec name bs :
  match find_repo name bs with
  | Return (url, version) =>
      ∃ i b, bs !! i = Some b
             ∧ url = default [] (b !! py "value")
             ∧ version = default [] (b !! py "version")
             ∧ contains name url = true
             ∧ ∀ j b', (j < i)%nat → bs !! j = Some b' →
                 contains name (default [] (b' !! py "value")) = false
  | Raised e =>
      e = not_found name
      ∧ ∀ b, b ∈ bs → contains name (default [] (b !! py "value")) = false
  end.
Proof.
  induction bs as [|b bs IH]; cbn [find_repo].
  - split; [done|]. by intros b Hb%elem_of_nil.
  - destruct (contains name (default [] (b !! py "value"))) eqn:Hc.
    + exists 0%nat, b. repeat split; try done. intros j b' Hj. lia.
    + destruct (find_repo name bs) as [[url version]|e].
      * destruct IH as (i & b0 & Hi & Hu & Hv & Hcu & Hbefore).
        exists (S i), b0. repeat split; try done.
        intros [|j] b' Hj Hb'; [by injection Hb' as <-|].
        apply (Hbefore j); [lia|done].
      * destruct IH as [-> Hall]. split; [done|].
        intros b0 [->|Hb0]%elem_of_cons; [done|by apply Hall].
Qed.

(** X10.  No block returned by [parse_third_party_blocks] is empty, whatever
    the text: a [third_party] block without fields is left out. *)
Theorem parsed_blocks_are_not_empty (U : unicode) (content : pystr) :
  Forall (λ b, b ≠ ∅) (parse_third_party_blocks U content).
Proof.
  unfold parse_third_party_blocks.
  by destruct (parser_inv_lines U parser_start (split_on LF content) (parser_inv_start)).
Qed.

(** X11.  A text without a line that is [third_party {] once stripped has no
    block, and [get_repo_info] raises [ValueError] for every name. *)
Theorem text_without_block_has_no_repository (U : unicode) (content : pystr) :
  Forall (λ l, py_strip U l ≠ py "third_party {") (split_on LF content) →
  parse_third_party_blocks U content = []
  ∧ ∀ repo_name, get_repo_info U content repo_name = Raised (not_found repo_name).
Proof.
  intros H. unfold get_repo_info, parse_third_party_blocks.
  by rewrite parse_lines_outside.
Qed.

Lemma text_without_block_has_no_repository_witness :
  get_repo_info ascii_only
    (str_join [LF] [py "name: xnu"; py "third_party{"; py "  version: 1"; py "}"])
    (py "xnu")
  = Raised (ValueError (py "Could not find xnu repository in METADATA")).
Proof.
  apply (text_without_block_has_no_repository ascii_only).
  apply (bool_decide_unpack _). vm_compute. exact I.
Defined.

(** X12.  Round trip: the text of a METADATA file with one [third_party]
    block, holding an URL and a version between double quotes, is read back
    as one block with the URL under [value], the version under [version] and
    the type of the nested block beside them; [get_repo_info] returns the
    URL and the version for a name that occurs in the URL and raises
    [ValueError] for any other name. *)
Theorem metadata_round_trip (U : unicode) (before after : list pystr)
    (url version repo_name : pystr) :
  Forall (plain_line U) before → Forall (plain_line U) after →
  url ≠ [] → QUOTE ∉ url → LF ∉ url →
  version ≠ [] → QUOTE ∉ version → LF ∉ version →
  let content := metadata_text before url version after in
  parse_third_party_blocks U content = [repository_block url version]
  ∧ get_repo_info U content repo_name
    = if contains repo_name url then Return (url, version)
      else Raised (not_found repo_name).
Proof.
  intros Hb Ha Hu Hqu Hlu Hv Hqv Hlv content.
  assert (Hplain : ∀ lines, Forall (plain_line U) lines →
            Forall (λ l, py_strip U l ≠ py "third_party {") lines
            ∧ Forall (λ l, LF ∉ l) lines).
  { intros lines H. split; (eapply Forall_impl; [exact H|]); by intros l []. }
  destruct (Hplain _ Hb) as [Hb1 Hb2], (Hplain _ Ha) as [Ha1 Ha2].
  assert (Hparse : parse_third_party_blocks U content = [repository_block url version]).
  { unfold parse_third_party_blocks, content, metadata_text.
    rewrite split_on_join.
    - rewrite foldl_app, (parse_lines_outside U parser_start before) by done.
      rewrite foldl_app, parse_block_lines by done.
      by rewrite parse_lines_outside.
    - by destruct before.
    - rewrite !Forall_app. split; [done|]. split; [|done].
      assert (Hq : ∀ pre s, LF ∉ pre → LF ∉ s → LF ∉ pre ++ [34%N] ++ s ++ [34%N]).
      { intros pre s H1 H2. rewrite !elem_of_app, !elem_of_cons, elem_of_nil.
        intuition discriminate. }
      assert (Hlit : ∀ s, forallb (λ c, negb (c =? LF)%N) s = true → LF ∉ s).
      { intros s Hs Hin. rewrite forallb_forall in Hs.
        apply list_elem_of_In, Hs, negb_true_iff, N.eqb_neq in Hin. done. }
      repeat constructor; try (by apply Hlit); by apply Hq; [apply Hlit|]. }
  split; [done|]. unfold get_repo_info. rewrite Hparse. cbn [find_repo].
  unfold repository_block.
  rewrite lookup_insert_ne by done. rewrite lookup_insert_eq.
  rewrite lookup_insert_eq. done.
Qed.

Lemma metadata_round_trip_witness :
  let content := metadata_text [py "name: bloaty"; []]
                   (py "https://github.com/apple-oss-distributions/xnu") (py "xnu-11215")
                   [py "# end"] in
  get_repo_info ascii_only content (py "xnu")
  = Return (py "https://github.com/apple-oss-distributions/xnu", py "xnu-11215")
  ∧ get_repo_info ascii_only content (py "cctools") = Raised (not_found (py "cctools")).
Proof.
  intros content.
  assert (H : ∀ name, get_repo_info ascii_only content name
              = if contains name (py "https://github.com/apple-oss-distributions/xnu")
                then Return (py "https://github.com/apple-oss-distributions/xnu",
                             py "xnu-11215")
                else Raised (not_found name)).
  { intros name.
    apply (metadata_round_trip ascii_only [py "name: bloaty"; []]
             [py "# end"] (py "https://github.com/apple-oss-distributions/xnu")
             (py "xnu-11215") name);
      try compute_done;
      repeat (apply Forall_cons; split; [split; compute_done|]); apply Forall_nil. }
  split; apply H.
Defined.

(** X13.  [get_repo_info] answers from the first block whose URL mentions the
    name: it returns the [value] and the [version] of that block (the empty
    string for a field the block lacks), and it raises [ValueError] exactly
    when no block has such an URL. *)
Theorem get_repo_info_first_match (U : unicode) (content repo_name : pystr) :
  let all := parse_third_party_blocks U content in
  match get_repo_info U content repo_name with
  | Return (url, version) =>
      ∃ i b, all !! i = Some b
             ∧ url = default [] (b !! py "value")
             ∧ version = default [] (b !! py "version")
             ∧ contains repo_name url = true
             ∧ ∀ j b', (j < i)%nat → all !! j = Some b' →
                 contains repo_name (default [] (b' !! py "value")) = false
  | Raised e =>
      e = not_found repo_name
      ∧ ∀ b, b ∈ all → contains repo_name (default [] (b !! py "value")) = false
  end.
Proof. intros all. apply find_repo_spec. Qed.

(** X14.  A block is returned only once its closing brace is read: what
    follows the last line that is [}] once stripped adds no block, so a
    [third_party] block left open at the end of the text is lost. *)
Theorem unclosed_block_is_dropped (U : unicode) (content tail : pystr) :
  Forall (λ l, py_strip U l ≠ py "}") (split_on LF tail) →
  parse_third_party_blocks U (content ++ LF :: tail) = parse_third_party_blocks U content.
Proof.
  intros H. unfold parse_third_party_blocks.
  by rewrite split_on_app_any, foldl_app, blocks_kept_without_close.
Qed.

Lemma unclosed_block_is_dropped_witness :
  parse_third_party_blocks ascii_only
    (metadata_text [] (py "u") (py "1") []
     ++ LF :: str_join [LF] [py "third_party {"; py "  version: 2"])
  = parse_third_party_blocks ascii_only (metadata_text [] (py "u") (py "1") []).
Proof.
  apply (unclosed_block_is_dropped ascii_only).
  apply (bool_decide_unpack _). vm_compute. exact I.
Defined.

(** ** generate_patches.py: paths *)

(** A name: a string that is one component of a path. *)
Lemma parse_path_name s :
  s ≠ [] → SLASH ∉ s → s ≠ [DOT] → parse_path s = {| root := []; parts := [s] |}.
Proof.
  intros Hne Hs Hdot. unfold parse_path. rewrite split_on_single by done.
  cbn [List.filter]. rewrite !bool_decide_eq_false_2 by done. cbn [negb andb].
  destruct s as [|c s]; [done|]. apply not_elem_of_cons in Hs as [Hc _].
  change (py "//") with [SLASH; SLASH]. change (py "/") with [SLASH].
  cbn [startswith]. destruct (N.eqb_spec SLASH c) as [Heq|_]; [done|]. by cbn [andb].
Qed.

Lemma Path_truediv_name p s :
  s ≠ [] → SLASH ∉ s → s ≠ [DOT] →
  Path_truediv p s = {| root := root p; parts := parts p ++ [s] |}.
Proof. intros. unfold Path_truediv. by rewrite parse_path_name. Qed.

Lemma Path_parent_truediv p s :
  s ≠ [] → SLASH ∉ s → s ≠ [DOT] → Path_parent (Path_truediv p s) = p.
Proof.
  intros. rewrite Path_truediv_name by done. unfold Path_parent. cbn [root parts].
  rewrite removelast_last. by destruct p.
Qed.

Lemma Path_name_truediv p s :
  s ≠ [] → SLASH ∉ s → s ≠ [DOT] → Path_name (Path_truediv p s) = s.
Proof.
  intros. rewrite Path_truediv_name by done. unfold Path_name. cbn [parts].
  apply last_last.
Qed.

Lemma replace_char_gone c new s :
  c ∉ new → c ∉ replace_from [c] new 0 s.
Proof.
  intros Hnew. induction s as [|x s IH]; [by intros ?%elem_of_nil|].
  cbn [replace_from startswith length]. rewrite andb_true_r.
  destruct (N.eqb_spec c x) as [->|Hcx]; cbn [Nat.sub].
  - rewrite elem_of_app. tauto.
  - rewrite elem_of_cons. tauto.
Qed.

Lemma not_elem_of_literal (c : N) s :
  forallb (λ x, negb (x =? c)%N) s = true → c ∉ s.
Proof.
  intros Hs Hin. rewrite forallb_forall in Hs.
  apply list_elem_of_In, Hs, negb_true_iff, N.eqb_neq in Hin. done.
Qed.

Lemma patch_name_is_a_name dest_path :
  patch_name dest_path ≠ [] ∧ (SLASH ∉ patch_name dest_path) ∧ patch_name dest_path ≠ [DOT].
Proof.
  unfold patch_name. split; [|split].
  - intros H%(f_equal length). rewrite length_app in H.
    change (length (py ".patch")) with 6%nat in H. cbn in H. lia.
  - rewrite elem_of_app. intros [H|H].
    + revert H. rewrite str_replace_eq by done. by apply replace_char_gone, not_elem_of_literal.
    + by apply (not_elem_of_literal SLASH (py ".patch")) in H.
  - intros H%(f_equal length). rewrite length_app in H.
    change (length (py ".patch")) with 6%nat in H. cbn in H. lia.
Qed.

Lemma endswith_app p s : endswith p (s ++ p) = true.
Proof.
  unfold endswith. rewrite reverse_app. apply startswith_spec. by eexists.
Qed.

Lemma str_join_snoc sep l x :
  l ≠ [] → str_join sep (l ++ [x]) = str_join sep l ++ sep ++ x.
Proof.
  induction l as [|a l IH]; [done|]. intros _. destruct l as [|b l].
  - done.
  - change (str_join sep ((a :: b :: l) ++ [x]))
      with (a ++ sep ++ str_join sep ((b :: l) ++ [x])).
    rewrite IH by done.
    change (str_join sep (a :: b :: l)) with (a ++ sep ++ str_join sep (b :: l)).
    by rewrite <- !app_assoc.
Qed.

(** The string of a path made with a name: it ends with the name. *)
Lemma Path_str_truediv p s :
  s ≠ [] → SLASH ∉ s → s ≠ [DOT] →
  Path_str (Path_truediv p s)
  = match parts p with
    | [] => root p ++ s
    | _ :: _ => Path_str p ++ [SLASH] ++ s
    end.
Proof.
  intros. rewrite Path_truediv_name by done. unfold Path_str. cbn [root parts].
  destruct (parts p) as [|a l] eqn:Hp; [done|].
  change ((a :: l) ++ [s]) with (a :: (l ++ [s])).
  change (a :: l ++ [s]) with ((a :: l) ++ [s]). rewrite str_join_snoc by done.
  by rewrite <- !app_assoc.
Qed.

Lemma Path_str_truediv_ends p s :
  s ≠ [] → SLASH ∉ s → s ≠ [DOT] → ∃ a, Path_str (Path_truediv p s) = a ++ s.
Proof.
  intros. rewrite Path_str_truediv by done. destruct (parts p).
  - by eexists.
  - exists (Path_str p ++ [SLASH]). by rewrite <- app_assoc.
Qed.

(** X15.  Every patch lies in the patch directory itself, whatever the path of the
    header: its name is the path with each slash turned into an underscore,
    then [.patch], and has no slash left. *)
Theorem patch_is_written_in_patch_directory (patch_dir : Path) (dest_path : pystr) :
  let patch_file := Path_truediv patch_dir (patch_name dest_path) in
  Path_parent patch_file = patch_dir
  ∧ Path_name patch_file = patch_name dest_path
  ∧ (SLASH ∉ patch_name dest_path)
  ∧ endswith (py ".patch") (Path_str patch_file) = true.
Proof.
  intros patch_file. destruct (patch_name_is_a_name dest_path) as (H1 & H2 & H3).
  split; [by apply Path_parent_truediv|]. split; [by apply Path_name_truediv|].
  split; [done|].
  destruct (Path_str_truediv_ends patch_dir _ H1 H2 H3) as [a Ha].
  unfold patch_file. rewrite Ha. unfold patch_name. rewrite app_assoc.
  apply endswith_app.
Qed.

Lemma Path_truediv_relative p s :
  root (parse_path s) = [] →
  Path_truediv p s = {| root := root p; parts := parts p ++ parts (parse_path s) |}.
Proof. intros H. unfold Path_truediv. by rewrite H. Qed.

Lemma Path_parent_two p a b :
  Path_parent {| root := root p; parts := parts p ++ [a; b] |}
  = {| root := root p; parts := parts p ++ [a] |}.
Proof.
  unfold Path_parent. cbn [root parts]. f_equal.
  change [a; b] with ([a] ++ [b]). by rewrite app_assoc, removelast_last.
Qed.

(** X16.  The two scripts agree on the headers of the tables: the patch that
    [generate_patches.py] writes for a header is applied by
    [update_headers.py] in the directory of that header, and the table of
    directories names no other patch. *)
Theorem patches_are_applied_beside_their_headers (script_dir : Path) :
  Forall (λ h, Path_truediv script_dir (default (py ".") (patch_dirs !! patch_name h.2))
               = Path_parent (Path_truediv script_dir h.2))
    (XNU_HEADERS ++ CCTOOLS_HEADERS)
  ∧ dom patch_dirs = list_to_set ((λ h, patch_name h.2) <$> XNU_HEADERS ++ CCTOOLS_HEADERS).
Proof.
  split.
  - assert (Hone : ∀ dest dir file,
              patch_dirs !! patch_name dest = Some dir →
              parse_path dir = {| root := []; parts := [dir] |} →
              parse_path dest = {| root := []; parts := [dir; file] |} →
              Path_truediv script_dir (default (py ".") (patch_dirs !! patch_name dest))
              = Path_parent (Path_truediv script_dir dest)).
    { intros dest dir file -> Hdir Hdest. cbn [default].
      rewrite (Path_truediv_relative _ dir) by (by rewrite Hdir).
      rewrite (Path_truediv_relative _ dest) by (by rewrite Hdest).
      rewrite Hdir, Hdest. cbn [parts]. by rewrite Path_parent_two. }
    unfold XNU_HEADERS, CCTOOLS_HEADERS. cbn [app].
    repeat apply Forall_cons_2; [..|by apply Forall_nil]; cbn [snd].
    + by apply (Hone _ (py "mach") (py "machine.h")).
    + by apply (Hone _ (py "mach") (py "vm_prot.h")).
    + by apply (Hone _ (py "mach-o") (py "fat.h")).
    + by apply (Hone _ (py "mach-o") (py "loader.h")).
    + by apply (Hone _ (py "mach-o") (py "nlist.h")).
  - compute_done.
Qed.

(** ** generate_patches.py: the patch of a header *)

Lemma join_split sep s : str_join [sep] (split_on sep s) = s.
Proof.
  induction s as [|c s IH]; [done|]. cbn [split_on].
  destruct (split_on_first sep s) as (first & others & Hs & _). rewrite Hs in *.
  destruct (N.eqb_spec c sep) as [->|_].
  - change (str_join [sep] ([] :: first :: others))
      with ([] ++ [sep] ++ str_join [sep] (first :: others)).
    by rewrite IH.
  - destruct others as [|x others].
    + cbn [str_join] in *. by rewrite IH.
    + change (str_join [sep] ((c :: first) :: x :: others))
        with (c :: (first ++ [sep] ++ str_join [sep] (x :: others))).
      f_equal. exact IH.
Qed.

Lemma split_on_inj sep s t : split_on sep s = split_on sep t → s = t.
Proof. intros H. by rewrite <- (join_split sep s), H, join_split. Qed.

(** The lines after the first two. *)
Lemma lines_after_two a b body :
  LF ∉ a → LF ∉ b → drop 2 (split_on LF (a ++ LF :: b ++ LF :: body)) = split_on LF body.
Proof. intros Ha Hb. by rewrite !split_on_app. Qed.

Section PatchFacts.

Variable diff_u : pystr → pystr → files → Z * pystr * pystr.

Lemma generate_patch_files (original_content : pystr)
    (modified_file output_patch : Path) (fs : files) :
  let temp := Path_str (temp_original modified_file) in
  let out := Path_str output_patch in
  let run := generate_patch diff_u original_content modified_file output_patch fs in
  run.1 !! temp = None
  ∧ (∀ p, p ≠ temp → p ≠ out → run.1 !! p = fs !! p)
  ∧ (out ≠ temp → run.2 ≠ Return true → run.1 !! out = fs !! out)
  ∧ (out ≠ temp → run.2 = Return true → is_Some (run.1 !! out)).
Proof.
  intros temp out run. subst run. unfold generate_patch. fold temp. fold out.
  destruct (diff_u temp (Path_str modified_file) (<[temp:=original_content]> fs))
    as [[returncode stdout] stderr].
  assert (Hkeep : ∀ p, p ≠ temp →
            delete temp (<[temp:=original_content]> fs) !! p = fs !! p).
  { intros p Hp. rewrite lookup_delete_ne by done. by rewrite lookup_insert_ne. }
  assert (Hnew : ∀ new p, p ≠ temp → p ≠ out →
            delete temp (<[out:=new]> (<[temp:=original_content]> fs)) !! p = fs !! p).
  { intros new p Hp Hq. rewrite lookup_delete_ne by done.
    rewrite lookup_insert_ne by done. by rewrite lookup_insert_ne. }
  assert (Hout : ∀ new, out ≠ temp →
            delete temp (<[out:=new]> (<[temp:=original_content]> fs)) !! out = Some new).
  { intros new Hp. rewrite lookup_delete_ne by done. by rewrite lookup_insert_eq. }
  repeat case_match; cbn [fst snd]; rewrite ?lookup_delete_eq;
    (split; [done|]); (split; [by auto|]); split; intros Ho Hr;
    try done; try (by apply Hkeep); by rewrite Hout.
Qed.

Lemma generate_patch_written (original_content : pystr)
    (modified_file output_patch : Path) (fs : files) :
  let temp := Path_str (temp_original modified_file) in
  let out := Path_str output_patch in
  let run := generate_patch diff_u original_content modified_file output_patch fs in
  let stdout := (diff_u temp (Path_str modified_file) (<[temp := original_content]> fs)).1.2 in
  out ≠ temp → run.2 = Return true →
  run.1 !! out = Some (new_patch_content modified_file stdout).
Proof.
  intros temp out run stdout Hout. subst run stdout. unfold generate_patch.
  fold temp. fold out.
  destruct (diff_u temp (Path_str modified_file) (<[temp:=original_content]> fs))
    as [[returncode output] stderr].
  repeat case_match; cbn [fst snd]; intros Hr; try done;
    rewrite lookup_delete_ne by done; by rewrite lookup_insert_eq.
Qed.

(** X17.  What [generate_patch] leaves, whatever it returns or raises.  The
    copy of the upstream text is gone, even when a file of that name was
    there before.  No file but that one and the patch is touched.  When the
    patch is another file than the copy, it is as it was unless the result
    is [True], and it holds the new text when the result is [True].  When
    the patch is the copy itself, it is gone at the end, also when the
    result is [True]. *)
Theorem temporary_copy_is_removed (original_content : pystr)
    (modified_file output_patch : Path) (fs : files) :
  let temp := Path_str (temp_original modified_file) in
  let out := Path_str output_patch in
  let run := generate_patch diff_u original_content modified_file output_patch fs in
  let stdout := (diff_u temp (Path_str modified_file) (<[temp := original_content]> fs)).1.2 in
  run.1 !! temp = None
  ∧ (∀ p, p ≠ temp → p ≠ out → run.1 !! p = fs !! p)
  ∧ (out ≠ temp → run.2 ≠ Return true → run.1 !! out = fs !! out)
  ∧ (out ≠ temp → run.2 = Return true →
     run.1 !! out = Some (new_patch_content modified_file stdout))
  ∧ (out = temp → run.1 !! out = None).
Proof.
  intros temp out run stdout.
  destruct (generate_patch_files original_content modified_file output_patch fs)
    as (H1 & H2 & H3 & _).
  split; [exact H1|]. split; [exact H2|]. split; [exact H3|].
  split; [apply generate_patch_written|].
  intros Heq. subst run. fold out in H1. by rewrite Heq.
Qed.

(** X18.  A patch that is there, and is another file than the copy of the
    upstream text, is read as text and compared with the new one from the
    third line on, when [diff] has found differences: when the two differ in
    their first two lines only, the patch is left as it is and the result is
    [False]; when the rest differs, the new patch is written and the result
    is [True]. *)
Theorem patch_is_compared_after_two_lines (original_content : pystr)
    (modified_file output_patch : Path) (fs : files)
    (stdout stderr stored a1 a2 b1 b2 old_body new_body : pystr) :
  let temp := Path_str (temp_original modified_file) in
  let out := Path_str output_patch in
  let new := b1 ++ LF :: b2 ++ LF :: new_body in
  let run := generate_patch diff_u original_content modified_file output_patch fs in
  diff_u temp (Path_str modified_file) (<[temp := original_content]> fs)
  = (1, stdout, stderr) →
  out ≠ temp →
  fs !! out = Some stored →
  universal_newlines stored = a1 ++ LF :: a2 ++ LF :: old_body →
  new_patch_content modified_file stdout = new →
  LF ∉ a1 → LF ∉ a2 → LF ∉ b1 → LF ∉ b2 →
  run.2 = Return (negb (bool_decide (old_body = new_body)))
  ∧ run.1 !! out = Some (if bool_decide (old_body = new_body) then stored else new).
Proof.
  intros temp out new run Hdiff Hout Hstored Hold Hnew Ha1 Ha2 Hb1 Hb2.
  subst run. unfold generate_patch. fold temp. fold out. rewrite Hdiff.
  change (1 =? 0) with false. change (1 =? 1) with true. cbv iota.
  rewrite lookup_insert_ne by done. rewrite Hstored. cbv zeta. rewrite Hold, Hnew.
  subst new.
  rewrite (lines_after_two a1 a2), (lines_after_two b1 b2) by done.
  destruct (bool_decide_reflect (old_body = new_body)) as [->|Hne].
  - rewrite bool_decide_eq_true_2 by done. cbn [fst snd negb]. split; [done|].
    rewrite lookup_delete_ne by done. by rewrite lookup_insert_ne.
  - rewrite bool_decide_eq_false_2 by (by intros ?%split_on_inj).
    cbn [fst snd negb]. split; [done|].
    rewrite lookup_delete_ne by done. by rewrite lookup_insert_eq.
Qed.

End PatchFacts.

(** *** The paths in the patch *)

Lemma str_join_last_app sep l x y :
  str_join sep (l ++ [x ++ y]) = str_join sep (l ++ [x]) ++ y.
Proof.
  destruct l as [|a l]; [done|].
  rewrite !(str_join_snoc sep (a :: l)) by done. by rewrite <- !app_assoc.
Qed.

(** The copy of the upstream text lies beside the header, under the name of
    the header followed by [.orig]. *)
Lemma temp_original_str m :
  wf_path m → parts m ≠ [] →
  Path_str (temp_original m) = Path_str m ++ py ".orig".
Proof.
  intros Hwf Hne. destruct (parts m) as [|a l _] eqn:Hparts using rev_ind; [done|].
  unfold temp_original, Path_name, Path_parent. rewrite Hparts.
  rewrite last_last, removelast_last.
  unfold wf_path in Hwf. rewrite Hparts in Hwf.
  apply Forall_app in Hwf as [_ Hx]. apply Forall_singleton in Hx as (Hx1 & Hx2 & Hx3).
  rewrite Path_truediv_name.
  - unfold Path_str. cbn [root parts]. rewrite Hparts.
    destruct (l ++ [a ++ py ".orig"]) eqn:H1; [by destruct l|]. rewrite <- H1.
    destruct (l ++ [a]) eqn:H2; [by destruct l|]. rewrite <- H2.
    by rewrite str_join_last_app, app_assoc.
  - by destruct a.
  - rewrite elem_of_app. intros [?|H]; [done|].
    by apply (not_elem_of_literal SLASH (py ".orig")) in H.
  - intros H%(f_equal length). rewrite length_app in H.
    change (length (py ".orig")) with 5%nat in H. cbn in H. lia.
Qed.

Lemma startswith_head_absent c old a s :
  c ∉ a → ∀ i, (i < length a)%nat → startswith (c :: old) (drop i (a ++ s)) = false.
Proof.
  intros Hc i Hi. rewrite drop_app_le by lia.
  destruct (drop i a) as [|x t] eqn:Hd.
  { apply (f_equal length) in Hd. rewrite length_drop in Hd. cbn in Hd. lia. }
  assert (Hx : x ∈ a).
  { rewrite <- (take_drop i a), Hd, elem_of_app, elem_of_cons. tauto. }
  cbn [app startswith]. destruct (N.eqb_spec c x) as [->|_]; done.
Qed.

(** X19.  The patch speaks of the header by its name alone.  When [diff] heads its
    output with the two paths it was given, the header has an absolute path,
    and the paths do not occur again further down, the patch begins with the
    name followed by [.orig] and with the name, and goes on as the output
    does. *)
Theorem patch_names_the_header_alone (modified_file : Path) (dates rest : pystr) :
  let temp := Path_str (temp_original modified_file) in
  let header := Path_str modified_file in
  let name := Path_name modified_file in
  wf_path modified_file → parts modified_file ≠ [] →
  startswith [SLASH] (root modified_file) = true →
  SLASH ∉ dates →
  contains temp (header ++ rest) = false →
  contains header rest = false →
  new_patch_content modified_file
    (py "--- " ++ temp ++ dates ++ py "+++ " ++ header ++ rest)
  = py "--- " ++ name ++ py ".orig" ++ dates ++ py "+++ " ++ name ++ rest.
Proof.
  intros temp header name Hwf Hne Hroot Hdates Htemp Hheader.
  assert (Hname : SLASH ∉ name).
  { unfold name, Path_name. destruct (parts modified_file) as [|a l _] eqn:Hp using rev_ind;
      [done|]. rewrite last_last. unfold wf_path in Hwf. rewrite Hp in Hwf.
    apply Forall_app in Hwf as [_ Hx]. by apply Forall_singleton in Hx as (_ & Hx & _). }
  assert (Hhead : ∃ h, header = SLASH :: h).
  { unfold header, Path_str. destruct (parts modified_file); [done|].
    destruct (root modified_file) as [|c r]; [done|]. cbn [startswith] in Hroot.
    apply andb_true_iff in Hroot as [->%N.eqb_eq _]. by eexists. }
  destruct Hhead as [h Hh].
  assert (Htemp_eq : temp = header ++ py ".orig") by by apply temp_original_str.
  assert (Hlit : ∀ s, forallb (λ x, negb (x =? SLASH)%N) s = true → SLASH ∉ s)
    by apply not_elem_of_literal.
  unfold new_patch_content. fold temp. fold header. fold name.
  rewrite (str_replace_eq temp) by (rewrite Htemp_eq, Hh; done).
  rewrite (str_replace_eq header) by (rewrite Hh; done).
  (* the first path *)
  rewrite (replace_from_prefix temp _ (py "--- ")).
  2:{ rewrite Htemp_eq, Hh. apply startswith_head_absent. by apply Hlit. }
  rewrite replace_from_here by (rewrite Htemp_eq, Hh; done).
  rewrite (app_assoc dates). rewrite (replace_from_prefix temp _ (dates ++ py "+++ ")).
  2:{ rewrite Htemp_eq, Hh. apply startswith_head_absent.
      rewrite elem_of_app. intros [?|?]; [done|]. by apply (Hlit (py "+++ ")). }
  rewrite (replace_from_absent temp) by done.
  (* the second path *)
  rewrite !(app_assoc _ _ (header ++ rest)).
  rewrite (replace_from_prefix header).
  2:{ rewrite Hh. apply startswith_head_absent.
      pose proof (Hlit (py "--- ") eq_refl). pose proof (Hlit (py ".orig") eq_refl).
      pose proof (Hlit (py "+++ ") eq_refl). rewrite !elem_of_app. tauto. }
  rewrite replace_from_here by (rewrite Hh; done).
  rewrite (replace_from_absent header) by done.
  by rewrite <- !app_assoc.
Qed.

Lemma patch_is_compared_after_two_lines_witness :
  let diff_u := λ (a b : pystr) (fs : files),
    (1, py "--- " ++ a ++ py " today" ++ [LF] ++ py "+++ " ++ b ++ py " today" ++ [LF]
        ++ py "-old" ++ [LF] ++ py "+new" ++ [LF], []) in
  let old := py "--- machine.h.orig long ago" ++ CR :: LF :: py "+++ machine.h long ago"
             ++ CR :: LF :: py "-old" ++ [CR; LF] ++ py "+new" ++ [CR; LF] in
  let patch := parse_path (py "/s/patches/mach_machine.h.patch") in
  let run := generate_patch diff_u (py "old") (parse_path (py "/s/mach/machine.h")) patch
               {[ Path_str patch := old ]} in
  run.2 = Return false ∧ run.1 !! Path_str patch = Some old.
Proof.
  intros diff_u old patch run.
  apply (patch_is_compared_after_two_lines diff_u (py "old")
           (parse_path (py "/s/mach/machine.h")) patch {[ Path_str patch := old ]}
           (py "--- /s/mach/machine.h.orig today" ++ [LF]
            ++ py "+++ /s/mach/machine.h today" ++ [LF]
            ++ py "-old" ++ [LF] ++ py "+new" ++ [LF]) [] old
           (py "--- machine.h.orig long ago") (py "+++ machine.h long ago")
           (py "--- machine.h.orig today") (py "+++ machine.h today")
           (py "-old" ++ [LF] ++ py "+new" ++ [LF])
           (py "-old" ++ [LF] ++ py "+new" ++ [LF])).
  - reflexivity.
  - compute_done.
  - apply lookup_singleton_eq.
  - reflexivity.
  - reflexivity.
  - compute_done.
  - compute_done.
  - compute_done.
  - compute_done.
Defined.

Lemma patch_names_the_header_alone_witness :
  new_patch_content (parse_path (py "/s/mach/machine.h"))
    (py "--- /s/mach/machine.h.orig" ++ (9%N :: py "today" ++ [LF])
     ++ py "+++ /s/mach/machine.h" ++ (9%N :: py "today" ++ [LF]) ++ py "-/* old */")
  = py "--- machine.h.orig" ++ (9%N :: py "today" ++ [LF])
    ++ py "+++ machine.h" ++ (9%N :: py "today" ++ [LF]) ++ py "-/* old */".
Proof.
  apply (patch_names_the_header_alone (parse_path (py "/s/mach/machine.h"))
           (9%N :: py "today" ++ [LF])
           ((9%N :: py "today" ++ [LF]) ++ py "-/* old */")).
  - unfold wf_path. apply (bool_decide_unpack _). vm_compute. exact I.
  - compute_done.
  - reflexivity.
  - compute_done.
  - reflexivity.
  - reflexivity.
Defined.

(** ** generate_patches.py: the headers of a repository *)

Lemma split_on_no_sep sep s : Forall (λ x, sep ∉ x) (split_on sep s).
Proof.
  induction s as [|c s IH]; cbn [split_on].
  - apply Forall_singleton. by intros ?%elem_of_nil.
  - destruct (N.eqb_spec c sep) as [->|Hc].
    + apply Forall_cons. split; [by intros ?%elem_of_nil|done].
    + destruct (split_on sep s) as [|l ls]; [apply Forall_singleton|].
      * rewrite elem_of_cons, elem_of_nil. intros [?|[]]. by subst.
      * apply Forall_cons in IH as [Hl Hls]. apply Forall_cons. split; [|done].
        rewrite elem_of_cons. intros [?|?]; [by subst|done].
Qed.

Lemma wf_parse_path s : wf_path (parse_path s).
Proof.
  unfold wf_path, parse_path. cbn [parts]. apply Forall_forall. intros x Hx.
  apply list_elem_of_In, filter_In in Hx as [Hx Hf].
  apply andb_true_iff in Hf as [H1 H2].
  apply negb_true_iff, bool_decide_eq_false in H1.
  apply negb_true_iff, bool_decide_eq_false in H2.
  split; [done|]. split; [|done].
  pose proof (split_on_no_sep SLASH s) as Hall. rewrite Forall_forall in Hall.
  by apply Hall, list_elem_of_In.
Qed.

Lemma wf_truediv p s : wf_path p → wf_path (Path_truediv p s).
Proof.
  intros Hp. unfold Path_truediv. destruct (root (parse_path s)) eqn:Hr.
  - unfold wf_path. cbn [parts]. apply Forall_app. split; [done|apply wf_parse_path].
  - apply wf_parse_path.
Qed.

Lemma temp_original_ends m : wf_path m → ∃ a, Path_str (temp_original m) = a ++ py ".orig".
Proof.
  intros Hwf. unfold temp_original.
  assert (Hname : SLASH ∉ Path_name m).
  { unfold Path_name. destruct (parts m) as [|a l _] eqn:Hp using rev_ind.
    - by intros ?%elem_of_nil.
    - rewrite last_last. unfold wf_path in Hwf. rewrite Hp in Hwf.
      apply Forall_app in Hwf as [_ Hx]. by apply Forall_singleton in Hx as (_ & Hx & _). }
  destruct (Path_str_truediv_ends (Path_parent m) (Path_name m ++ py ".orig")) as [a Ha].
  - by destruct (Path_name m).
  - rewrite elem_of_app. intros [?|H]; [done|].
    by apply (not_elem_of_literal SLASH (py ".orig")) in H.
  - intros H%(f_equal length). rewrite length_app in H.
    change (length (py ".orig")) with 5%nat in H. cbn in H. lia.
  - exists (a ++ Path_name m). by rewrite Ha, app_assoc.
Qed.

Lemma orig_is_not_patch a b : a ++ py ".orig" ≠ b ++ py ".patch".
Proof.
  intros H%(f_equal reverse). rewrite !reverse_app in H.
  change (reverse (py ".orig")) with [103; 105; 114; 111; 46]%N in H.
  change (reverse (py ".patch")) with [104; 99; 116; 97; 112; 46]%N in H.
  discriminate.
Qed.

Lemma patch_file_is_not_temp patch_dir dest_path m :
  wf_path m →
  Path_str (Path_truediv patch_dir (patch_name dest_path)) ≠ Path_str (temp_original m).
Proof.
  intros Hm. destruct (temp_original_ends m Hm) as [a ->].
  destruct (patch_name_is_a_name dest_path) as (H1 & H2 & H3).
  destruct (Path_str_truediv_ends patch_dir _ H1 H2 H3) as [b ->].
  unfold patch_name. rewrite app_assoc. intros H. symmetry in H.
  by apply orig_is_not_patch in H.
Qed.

Section HeaderFacts.

Variable diff_u : pystr → pystr → files → Z * pystr * pystr.
Variable urlopen : pystr → reply.

(** A file that is there stays there through [generate_patch], unless it has
    the name of the copy of the upstream text. *)
Lemma generate_patch_keeps original_content modified_file output_patch fs p :
  p ≠ Path_str (temp_original modified_file) →
  is_Some (fs !! p) →
  is_Some ((generate_patch diff_u original_content modified_file output_patch fs).1 !! p).
Proof.
  intros Hp Hsome.
  destruct (generate_patch_files diff_u original_content modified_file output_patch fs)
    as (_ & Hother & Hsame & Hnew).
  destruct (decide (p = Path_str output_patch)) as [->|Hne].
  - destruct ((generate_patch diff_u original_content modified_file
                 output_patch fs).2) as [[|]|e] eqn:Hr.
    + by apply Hnew.
    + by rewrite Hsame.
    + by rewrite Hsame.
  - by rewrite Hother.
Qed.

(** What the loop keeps true of the list it builds. *)
Lemma headers_loop_listed repo_url version script_dir patch_dir headers :
  wf_path script_dir →
  ∀ fs acc fs' out names,
    headers_loop diff_u urlopen repo_url version script_dir patch_dir headers fs acc
    = (fs', out, Return names) →
    (∀ n, n ∈ acc →
       (∃ d, n = patch_name d) ∧ is_Some (fs !! Path_str (Path_truediv patch_dir n))) →
    ∀ n, n ∈ names →
      (∃ d, n = patch_name d)
      ∧ is_Some (fs' !! Path_str (Path_truediv patch_dir n)).
Proof.
  intros Hwf. induction headers as [|[source_path dest_path] headers IH];
    intros fs acc fs' out names Hrun Hacc.
  { cbn [headers_loop] in Hrun. injection Hrun as <- _ <-. done. }
  cbn [headers_loop] in Hrun.
  set (modified_file := Path_truediv script_dir dest_path) in *.
  set (patch_file := Path_truediv patch_dir (patch_name dest_path)) in *.
  assert (Hm : wf_path modified_file) by by apply wf_truediv.
  destruct (Path_exists modified_file fs).
  2:{ cbn [negb] in Hrun.
      destruct (headers_loop _ _ _ _ _ _ headers fs acc) as [[fs2 out2] r2] eqn:Hrest.
      injection Hrun as <- _ ->. by eapply IH. }
  cbn [negb] in Hrun.
  destruct (fetch_file_from_github urlopen repo_url version source_path)
    as [downloading [original_content|e]]; [|done].
  pose proof (generate_patch_keeps original_content modified_file patch_file fs) as Hkeep.
  pose proof (generate_patch_files diff_u original_content modified_file patch_file fs)
    as (_ & _ & _ & Hwritten).
  assert (Hpt : Path_str patch_file ≠ Path_str (temp_original modified_file))
    by by apply patch_file_is_not_temp.
  destruct (generate_patch diff_u original_content modified_file patch_file fs)
    as [fs1 [[|]|e]] eqn:Hgen; [| |done]; cbn [fst snd] in *.
  - destruct (headers_loop _ _ _ _ _ _ headers fs1 _) as [[fs2 out2] r2] eqn:Hrest.
    injection Hrun as <- _ ->. eapply IH; [exact Hrest|].
    intros n [Hn|Hn]%elem_of_app.
    + destruct (Hacc n Hn) as [[d ->] Hn']. split; [by eexists|].
      apply Hkeep; [|done]. by apply patch_file_is_not_temp.
    + apply list_elem_of_singleton in Hn as ->. split; [by eexists|]. by apply Hwritten.
  - destruct (Path_exists patch_file fs1) eqn:Hex.
    + destruct (headers_loop _ _ _ _ _ _ headers fs1 _) as [[fs2 out2] r2] eqn:Hrest.
      injection Hrun as <- _ ->. eapply IH; [exact Hrest|].
      intros n [Hn|Hn]%elem_of_app.
      * destruct (Hacc n Hn) as [[d ->] Hn']. split; [by eexists|].
        apply Hkeep; [|done]. by apply patch_file_is_not_temp.
      * apply list_elem_of_singleton in Hn as ->. split; [by eexists|].
        by apply bool_decide_eq_true in Hex.
    + destruct (headers_loop _ _ _ _ _ _ headers fs1 _) as [[fs2 out2] r2] eqn:Hrest.
      injection Hrun as <- _ ->. eapply IH; [exact Hrest|].
      intros n Hn. destruct (Hacc n Hn) as [[d ->] Hn']. split; [by eexists|].
      apply Hkeep; [|done]. by apply patch_file_is_not_temp.
Qed.

(** X20.  The list that [process_headers] returns is right about the files: each
    name in it is the name of a patch that is there, in the patch
    directory, when the function returns. *)
Theorem listed_patches_are_there (repo_name repo_url version : pystr)
    (headers : list (pystr * pystr)) (script_dir patch_dir : Path) (fs fs' : files)
    (out names : list pystr) :
  wf_path script_dir →
  process_headers diff_u urlopen repo_name repo_url version headers script_dir patch_dir fs
  = (fs', out, Return names) →
  ∀ n, n ∈ names →
    Path_exists (Path_truediv patch_dir n) fs' = true
    ∧ Path_parent (Path_truediv patch_dir n) = patch_dir.
Proof.
  intros Hwf Hrun n Hn. unfold process_headers in Hrun.
  destruct (headers_loop _ _ _ _ _ _ headers fs []) as [[fs2 out2] r2] eqn:Hloop.
  injection Hrun as <- _ ->.
  destruct (headers_loop_listed _ _ _ _ _ Hwf _ _ _ _ _ Hloop) with (n := n)
    as [[d ->] Hsome]; [by intros ? ?%elem_of_nil|done|].
  split; [by apply bool_decide_eq_true|].
  destruct (patch_name_is_a_name d) as (H1 & H2 & H3). by apply Path_parent_truediv.
Qed.

(** X21.  Headers that are not there are passed over: nothing is downloaded for
    them, no file changes, and no patch is listed. *)
Theorem missing_headers_are_skipped (repo_name repo_url version : pystr)
    (headers : list (pystr * pystr)) (script_dir patch_dir : Path) (fs : files) :
  Forall (λ h, Path_exists (Path_truediv script_dir h.2) fs = false) headers →
  process_headers diff_u urlopen repo_name repo_url version headers script_dir patch_dir fs
  = (fs,
     (py "=== Processing " ++ repo_name ++ py " headers ===")
     :: flat_map (λ h, [py "  Checking: " ++ h.2;
                        py "    Warning: Modified file not found, skipping"]) headers
     ++ [[]],
     Return []).
Proof.
  intros Hall. unfold process_headers.
  assert (Hloop : ∀ acc,
            headers_loop diff_u urlopen repo_url version script_dir patch_dir headers fs acc
            = (fs,
               flat_map (λ h, [py "  Checking: " ++ h.2;
                               py "    Warning: Modified file not found, skipping"]) headers,
               Return acc)).
  { intros acc. induction Hall as [|[source_path dest_path] headers Hh _ IH]; [done|].
    cbn [headers_loop]. cbn [snd] in Hh. rewrite Hh. cbn [negb]. by rewrite IH. }
  by rewrite Hloop.
Qed.

End HeaderFacts.

Lemma listed_patches_are_there_witness :
  let diff_u := λ (a b : pystr) (fs : files),
    (1, py "--- " ++ a ++ [LF] ++ py "+++ " ++ b ++ [LF] ++ py "-old", []) in
  let urlopen := λ _ : pystr, Body (py "old") in
  let patch_dir := parse_path (py "/s/patches") in
  let run := process_headers diff_u urlopen (py "XNU") (py "https://github.com/a/xnu")
               (py "v1") XNU_HEADERS (parse_path (py "/s")) patch_dir
               {[ py "/s/mach/machine.h" := py "new" ]} in
  run.2 = Return [py "mach_machine.h.patch"]
  ∧ Path_exists (Path_truediv patch_dir (py "mach_machine.h.patch")) run.1.1 = true.
Proof.
  intros diff_u urlopen patch_dir run.
  assert (Hrun : run = (run.1.1, run.1.2, Return [py "mach_machine.h.patch"]))
    by (vm_compute; reflexivity).
  split; [by rewrite Hrun|].
  apply (listed_patches_are_there diff_u urlopen (py "XNU") (py "https://github.com/a/xnu")
           (py "v1") XNU_HEADERS (parse_path (py "/s")) patch_dir
           {[ py "/s/mach/machine.h" := py "new" ]} run.1.1 run.1.2
           [py "mach_machine.h.patch"]).
  - unfold wf_path. apply (bool_decide_unpack _). vm_compute. exact I.
  - exact Hrun.
  - apply list_elem_of_singleton. reflexivity.
Defined.

Lemma missing_headers_are_skipped_witness :
  process_headers (λ _ _ _, (0, [], [])) (λ _, URLError []) (py "XNU")
    (py "https://github.com/a/xnu") (py "v1") XNU_HEADERS (parse_path (py "/s"))
    (parse_path (py "/s/patches")) ∅
  = (∅,
     [py "=== Processing XNU headers ===";
      py "  Checking: mach/machine.h";
      py "    Warning: Modified file not found, skipping";
      py "  Checking: mach/vm_prot.h";
      py "    Warning: Modified file not found, skipping";
      []],
     Return []).
Proof.
  apply (missing_headers_are_skipped (λ _ _ _, (0, [], [])) (λ _, URLError []) (py "XNU")
           (py "https://github.com/a/xnu") (py "v1") XNU_HEADERS (parse_path (py "/s"))
           (parse_path (py "/s/patches")) ∅).
  repeat apply Forall_cons_2; [reflexivity..|by apply Forall_nil].
Defined.
